(** * The AWS adapter for SvelteKit: deployment pipeline

    A shallow embedding of [src/dist/aws.js] and [src/src/index.ts]
    (the compiled [index.js] is the same code).  The JavaScript functions
    become functions of a state-and-exception monad over a [World]: the heap
    of JavaScript objects, the state of everything outside the process (file
    system, S3, Lambda, CloudFront, the build tools), the record of every
    call made to the outside together with its answer, and the console. *)

From Stdlib Require Import String Ascii List ZArith Bool Lia.
From stdpp Require Import base list.
Import ListNotations.

Open Scope list_scope.
Open Scope string_scope.

(** ** Thrown values *)

(** [Error message] is [new Error(message)]; [Failure name message] is an
    exception raised by a library (an SDK service exception, a file-system
    error). *)
Inductive exn : Type :=
| Error (message : string)
| Failure (name message : string).

(** ** The CloudFront data of [setupCloudFrontTrigger] *)

Record association : Type := {
  EventType : string;
  LambdaFunctionARN : string;
  IncludeBody : option bool
}.

Record associations : Type := {
  Quantity : Z;
  Items : option (list association)
}.

(** Fields that the source copies with a spread and never reads are kept as
    a list of named, opaque values. *)
Definition fields : Type := list (string * string).

Record cache_behavior : Type := {
  LambdaFunctionAssociations : option associations;
  behavior_fields : fields
}.

Record distribution_config : Type := {
  DefaultCacheBehavior : option cache_behavior;
  distribution_fields : fields
}.

Record GetDistributionConfigResult : Type := {
  DistributionConfig : option distribution_config;
  ETag : option string
}.

Record GetFunctionConfigurationResult : Type := {
  FunctionArn : option string
}.

Record PublishVersionResult : Type := {
  Version : option string
}.

Record CreateInvalidationResult : Type := {
  Invalidation : option string   (* the Id of the invalidation, when present *)
}.

Module UpdateDistribution.
Record input : Type := {
  Id : string;
  DistributionConfig : distribution_config;
  IfMatch : option string
}.
End UpdateDistribution.

(** ** What [node:fs] returns to [uploadToS3]

    [fs.statSync(path)] returns a [Stats] object, of which the source calls
    [isFile()] and [isDirectory()].  [fs.createReadStream(path)] returns a
    stream on the path at once and does not throw for a file that cannot be
    read: the file is opened and read asynchronously, and what comes of it
    shows when [send] consumes the stream, in the answer of [send]. *)
Record Stats : Type := { isFile : bool; isDirectory : bool }.

Inductive ReadStream : Type :=
| createReadStream (path : string).

(** ** Calls to the outside *)

Inductive S3Command : Type :=
| PutObjectCommand (Bucket Key : string) (Body : ReadStream) (ContentType : string).

Inductive LambdaCommand : Type :=
| GetFunctionConfigurationCommand (FunctionName : string)
| UpdateFunctionCodeCommand (FunctionName : string) (ZipFile : list Byte.byte)
| PublishVersionCommand (FunctionName : string).

Inductive CloudFrontCommand : Type :=
| GetDistributionConfigCommand (Id : string)
| UpdateDistributionCommand (input : UpdateDistribution.input)
| CreateInvalidationCommand (DistributionId : string) (Paths : list string)
    (CallerReference : string).

Inductive Command : Type :=
(* AWS SDK clients, [new XClient({ region }).send(command)] *)
| S3Send (region : string) (c : S3Command)
| LambdaSend (region : string) (c : LambdaCommand)
| CloudFrontSend (region : string) (c : CloudFrontCommand)
(* node:fs and fs/promises *)
| ReaddirSync (path : string)
| StatSync (path : string)
| ReadFileSync (path : string)
| WriteFileSync (path data : string)
| ExistsSync (path : string)
| Rm (path : string)
| Cp (source destination : string)
(* esbuild and archiver *)
| Build (entryPoint outdir : string)
| Archive (cwd : string) (ignore : list string) (out : string)
(* timers and clock *)
| SetTimeout (ms : Z)
| DateNow
(* the SvelteKit builder *)
| BuilderRimraf (dir : string)
| BuilderLogMinor (msg : string)
| BuilderWriteClient (dir : string)
| BuilderWritePrerendered (dir : string)
| BuilderWriteServer (dir : string)
| BuilderCopy (source destination : string).

Definition LambdaResp (c : LambdaCommand) : Type :=
  match c with
  | GetFunctionConfigurationCommand _ => GetFunctionConfigurationResult
  | UpdateFunctionCodeCommand _ _ => unit
  | PublishVersionCommand _ => PublishVersionResult
  end.

Definition CloudFrontResp (c : CloudFrontCommand) : Type :=
  match c with
  | GetDistributionConfigCommand _ => GetDistributionConfigResult
  | UpdateDistributionCommand _ => unit
  | CreateInvalidationCommand _ _ _ => CreateInvalidationResult
  end.

(** The answer to a call.  A call that can throw, or whose promise can
    reject, answers [inl error]; timers and the clock cannot fail. *)
Definition Resp (c : Command) : Type :=
  match c with
  | S3Send _ _ => exn + unit
  | LambdaSend _ c => exn + LambdaResp c
  | CloudFrontSend _ c => exn + CloudFrontResp c
  | ReaddirSync _ => exn + list string
  | StatSync _ => exn + Stats
  | ReadFileSync _ => exn + list Byte.byte
  | WriteFileSync _ _ => exn + unit
  | ExistsSync _ => bool
  | Rm _ => exn + unit
  | Cp _ _ => exn + unit
  | Build _ _ => exn + unit
  | Archive _ _ _ => exn + unit
  | SetTimeout _ => unit
  | DateNow => string
  | BuilderRimraf _ => exn + unit
  | BuilderLogMinor _ => exn + unit
  | BuilderWriteClient _ => exn + unit
  | BuilderWritePrerendered _ => exn + list string
  | BuilderWriteServer _ => exn + unit
  | BuilderCopy _ _ => exn + unit
  end.

(** One call with the answer it got. *)
Record Event : Type := { cmd : Command; answer : Resp cmd }.

(** ** Console *)

Inductive line : Type :=
| console_log (text : string)
| console_error (text : string) (error : exn).

(** ** JavaScript values and the heap

    Objects live in a heap and are referred to by location, so that two
    references to one object see each other's writes.  An object is the list
    of its own enumerable properties in insertion order. *)

Inductive value : Type :=
| VUndefined
| VNull
| VBoolean (b : bool)
| VNumber (n : Z)
| VString (s : string)
| VObject (l : nat).

Definition object : Type := list (string * value).
Definition heap : Type := list object.

(** ** The monad

    [Stuck] marks an execution the embedding does not follow: the fuel of a
    recursion ran out, or a value is outside the types the source declares. *)

Inductive result (A : Type) : Type :=
| Ok (a : A)
| Throw (e : exn)
| Stuck.
Arguments Ok {A} a.
Arguments Throw {A} e.
Arguments Stuck {A}.

Definition M (S A : Type) : Type := S -> result A * S.

Definition ret {S A} (a : A) : M S A := fun s => (Ok a, s).
Definition throw {S A} (e : exn) : M S A := fun s => (Throw e, s).
Definition stuck {S A} : M S A := fun s => (Stuck, s).

Definition bind {S A B} (m : M S A) (k : A -> M S B) : M S B :=
  fun s =>
    match m s with
    | (Ok a, s') => k a s'
    | (Throw e, s') => (Throw e, s')
    | (Stuck, s') => (Stuck, s')
    end.

(** [try { m } catch (error) { handler error }] *)
Definition try_catch {S A} (m : M S A) (handler : exn -> M S A) : M S A :=
  fun s =>
    match m s with
    | (Throw e, s') => handler e s'
    | r => r
    end.

Declare Scope js_scope.
Delimit Scope js_scope with js.
Notation "'let*' x ':=' m 'in' k" := (bind m (fun x => k))
  (at level 10, x name, m at level 100, k at level 200) : js_scope.
Notation "m ;; k" := (bind m (fun _ => k))
  (at level 100, k at level 200, right associativity) : js_scope.
Open Scope js_scope.

(** [array.forEach(body)] and [for (const x of array) body] *)
Definition forEach {S A} (l : list A) (body : A -> M S unit) : M S unit :=
  (fix each (l : list A) : M S unit :=
     match l with
     | [] => ret tt
     | x :: rest => body x ;; each rest
     end) l.

(** ** Operations on values and objects *)

Definition truthy (v : value) : bool :=
  match v with
  | VUndefined | VNull => false
  | VBoolean b => b
  | VNumber n => negb (n =? 0)%Z
  | VString s => negb (s =? "")%string
  | VObject _ => true
  end.

Fixpoint assoc (key : string) (o : object) : option value :=
  match o with
  | [] => None
  | (k, v) :: rest => if (k =? key)%string then Some v else assoc key rest
  end.

(** Assignment to a property keeps the position of an existing key and
    appends a new one. *)
Fixpoint assign (key : string) (v : value) (o : object) : object :=
  match o with
  | [] => [(key, v)]
  | (k, w) :: rest =>
      if (k =? key)%string then (k, v) :: rest else (k, w) :: assign key v rest
  end.

(** [Object.keys(v)] for an object [v] *)
Definition Object_keys (v : value) : M heap (list string) :=
  fun h =>
    match v with
    | VObject l =>
        match h !! l with
        | Some o => (Ok (map fst o), h)
        | None => (Stuck, h)
        end
    | _ => (Stuck, h)
    end.

(** [v[key]] for an object [v] *)
Definition get (v : value) (key : string) : M heap value :=
  fun h =>
    match v with
    | VObject l =>
        match h !! l with
        | Some o => (Ok (default VUndefined (assoc key o)), h)
        | None => (Stuck, h)
        end
    | _ => (Stuck, h)
    end.

(** [v[key] = x] for an object [v] *)
Definition set (v : value) (key : string) (x : value) : M heap unit :=
  fun h =>
    match v with
    | VObject l =>
        match h !! l with
        | Some o => (Ok tt, <[l := assign key x o]> h)
        | None => (Stuck, h)
        end
    | _ => (Stuck, h)
    end.

(** [Object.assign({}, v)] for an object [v]: a new object with the
    properties of [v]. *)
Definition Object_assign_empty (v : value) : M heap value :=
  fun h =>
    match v with
    | VObject l =>
        match h !! l with
        | Some o => (Ok (VObject (length h)), (h ++ [o])%list)
        | None => (Stuck, h)
        end
    | _ => (Stuck, h)
    end.

(** [v.key] where [v] may be anything: reading a property of [undefined] or
    [null] throws; a primitive has none of the properties read in this
    program. *)
Definition member (v : value) (key : string) : M heap value :=
  match v with
  | VObject _ => get v key
  | VUndefined | VNull =>
      throw (Failure "TypeError" "Cannot read properties of undefined")
  | _ => ret VUndefined
  end.

(** ** index.ts: deepMerge (lines 216-235) *)

(** [isObject = (obj) => obj && typeof obj === 'object'], as a condition *)
Definition isObject (obj : value) : bool :=
  truthy obj && match obj with VObject _ | VNull => true | _ => false end.

(** [sourceValue ? sourceValue : targetValue] *)
Definition or_else (sourceValue targetValue : value) : value :=
  if truthy sourceValue then sourceValue else targetValue.

Fixpoint deepMerge (fuel : nat) (target source : value) : M heap value :=
  match fuel with
  | O => stuck
  | S fuel =>
      if negb (isObject target) || negb (isObject source) then
        throw (Error "Invalid arguments: Both target and source must be objects")
      else
        let* keys := Object_keys source in
        forEach keys (fun key =>
          let* targetValue := get target key in
          let* sourceValue := get source key in
          if isObject targetValue && isObject sourceValue then
            let* copy := Object_assign_empty targetValue in
            let* merged := deepMerge fuel copy sourceValue in
            set target key merged
          else
            set target key (or_else sourceValue targetValue)) ;;
        ret target
  end.

(** ** index.ts: defaultConfig (lines 79-83)

    The module-level object and its three sections, as the heap holds them
    once the module is loaded. *)

Definition defaultConfig : value := VObject 0.

Definition module_heap : heap :=
  [ [("s3", VObject 1); ("lambda", VObject 2); ("cloudfront", VObject 3)];
    [("bucketName", VString ""); ("prefix", VString "");
     ("region", VString "ap-south-1")];
    [("functionName", VString ""); ("region", VString "us-east-1")];
    [("distributionId", VString ""); ("region", VString "us-east-1")] ].

(** ** The host: everything outside the two source files

    [handle] is the outside world answering a call: it is arbitrary, so a
    statement proved for every host holds whatever the services, the file
    system and other clients of the same distribution do.  The remaining
    fields are the pure library functions the source calls ([path],
    [mime-types], [JSON]) and the module's [__dirname]. *)

Record Host : Type := {
  Env : Type;
  handle : forall c : Command, Env -> Resp c * Env;
  path_join : list string -> string;
  path_relative : string -> string -> string;
  path_basename : string -> string;
  mime_lookup : string -> option string;
  JSON_stringify : list string -> string;
  dirname : string
}.

Record World (E : Type) : Type := {
  js_heap : heap;
  outside : E;
  trace : list Event;
  console : list line
}.
Arguments js_heap {E} w.
Arguments outside {E} w.
Arguments trace {E} w.
Arguments console {E} w.

(** [`${x}`] for a string that may be [undefined] *)
Definition template (x : option string) : string := default "undefined" x.

(** [s.replace(/\\/g, '/')] *)
Fixpoint replace_backslashes (s : string) : string :=
  match s with
  | EmptyString => EmptyString
  | String c rest =>
      String (if (c =? "\")%char then "/"%char else c) (replace_backslashes rest)
  end.

(** [a || b] for a string-or-false [a] *)
Definition or_string (a : option string) (b : string) : string :=
  match a with
  | Some s => if (s =? "")%string then b else s
  | None => b
  end.

Section Program.

Context (host : Host).

Definition Js (A : Type) : Type := M (World (Env host)) A.

(** Make a call: the host answers, and the call and its answer are recorded. *)
Definition perform (c : Command) : Js (Resp c) :=
  fun w =>
    let '(a, e) := handle host c (outside w) in
    (Ok a,
     {| js_heap := js_heap w; outside := e;
        trace := (trace w ++ [{| cmd := c; answer := a |}])%list;
        console := console w |}).

(** [await p], and equally a synchronous call that may throw: the answer, or
    the error thrown at this point. *)
Definition await {A} (p : Js (exn + A)) : Js A :=
  let* r := p in
  match r with
  | inl error => throw error
  | inr a => ret a
  end.

Definition log (text : string) : Js unit :=
  fun w =>
    (Ok tt,
     {| js_heap := js_heap w; outside := outside w; trace := trace w;
        console := (console w ++ [console_log text])%list |}).

Definition log_error (text : string) (error : exn) : Js unit :=
  fun w =>
    (Ok tt,
     {| js_heap := js_heap w; outside := outside w; trace := trace w;
        console := (console w ++ [console_error text error])%list |}).

(** A computation on the heap, run in the world. *)
Definition on_heap {A} (m : M heap A) : Js A :=
  fun w =>
    let '(r, h) := m (js_heap w) in
    (r,
     {| js_heap := h; outside := outside w; trace := trace w;
        console := console w |}).

(** ** aws.js: uploadToS3 (lines 15-43) *)

(** Line 18: [s3Prefix && s3Prefix.length > 0 ? s3Prefix + "/" : ""] *)
Definition key_prefix (s3Prefix : string) : string :=
  if (0 <? String.length s3Prefix)%nat then s3Prefix ++ "/" else "".

(** The function calls itself for every sub-directory (line 40), with the
    path of the sub-directory and [prefix] followed by its name; [fuel]
    bounds the depth of these calls.  [readdirSync] (line 16) and [statSync]
    (line 21) are outside the [try] of lines 31-37, so that their errors
    leave the function. *)
Fixpoint uploadToS3 (fuel : nat) (directoryPath bucketName s3Prefix region : string)
    : Js unit :=
  match fuel with
  | O => stuck
  | S fuel =>
      let* items := await (perform (ReaddirSync directoryPath)) in
      let prefix := key_prefix s3Prefix in
      forEach items (fun item =>
        let itemPath := path_join host [directoryPath; item] in
        let* stats := await (perform (StatSync itemPath)) in
        if isFile stats then
          let fileStream := createReadStream itemPath in
          let contentType :=
            or_string (mime_lookup host itemPath) "application/octet-stream" in
          let Key :=
            prefix ++ replace_backslashes (path_relative host directoryPath itemPath) in
          try_catch
            (await (perform (S3Send region
                      (PutObjectCommand bucketName Key fileStream contentType))) ;;
             log ("Successfully uploaded " ++ itemPath ++ " to " ++ bucketName
                  ++ "/" ++ Key))
            (fun error => log_error ("Failed to upload " ++ itemPath ++ ":") error)
        else if isDirectory stats then
          uploadToS3 fuel itemPath bucketName (prefix ++ item) region
        else ret tt)
  end.

(** ** aws.js: deployLambdaFunction (lines 51-82) *)

Definition deployLambdaFunction (functionName zipFilePath region : string)
    : Js (option string) :=
  log ("Reading zip file... " ++ functionName ++ " " ++ zipFilePath) ;;
  let* zipFile := await (perform (ReadFileSync zipFilePath)) in
  log "Updating Lambda Function..." ;;
  try_catch
    (await (perform (LambdaSend region
              (UpdateFunctionCodeCommand functionName zipFile))) ;;
     log "Lambda function code updated successfully.")
    (fun error =>
       log_error "Failed to update function code: " error ;; throw error) ;;
  log "Waiting for update to complete..." ;;
  perform (SetTimeout 5000) ;;
  try_catch
    (let* published :=
       await (perform (LambdaSend region (PublishVersionCommand functionName))) in
     log ("Lambda function version " ++ template (Version published)
          ++ " published successfully.") ;;
     ret (Version published))
    (fun error =>
       log_error "Failed to publish function version: " error ;; throw error).

(** ** aws.js: setupCloudFrontTrigger (lines 91-136) *)

Definition setupCloudFrontTrigger
    (functionName functionVersion distributionId region : string) : Js unit :=
  try_catch
    (let getDistConfigCommand := GetDistributionConfigCommand distributionId in
     let* fetched := await (perform (CloudFrontSend region getDistConfigCommand)) in
     match DistributionConfig fetched with
     | None => throw (Error "Missing DistributionConfig or DefaultCacheBehavior")
     | Some distributionConfig =>
     match DefaultCacheBehavior distributionConfig with
     | None => throw (Error "Missing DistributionConfig or DefaultCacheBehavior")
     | Some defaultCacheBehavior =>
         let* configuration :=
           await (perform (LambdaSend region
                    (GetFunctionConfigurationCommand functionName))) in
         let lambdaFunctionArn :=
           template (FunctionArn configuration) ++ ":" ++ functionVersion in
         let newAssociation :=
           {| EventType := "origin-request";
              LambdaFunctionARN := lambdaFunctionArn;
              IncludeBody := None |} in
         let existingAssociations :=
           default [] (LambdaFunctionAssociations defaultCacheBehavior ≫= Items) in
         let updatedAssociations :=
           (List.filter
              (fun association => negb (EventType association =? "origin-request"))
              existingAssociations
            ++ [newAssociation])%list in
         let updatedLambdaFunctionAssociations :=
           {| Quantity := Z.of_nat (length updatedAssociations);
              Items := Some updatedAssociations |} in
         let* refetched :=
           await (perform (CloudFrontSend region getDistConfigCommand)) in
         let updatedDistributionConfig :=
           {| UpdateDistribution.Id := distributionId;
              UpdateDistribution.DistributionConfig :=
                {| DefaultCacheBehavior :=
                     Some {| LambdaFunctionAssociations :=
                               Some updatedLambdaFunctionAssociations;
                             behavior_fields :=
                               behavior_fields defaultCacheBehavior |};
                   distribution_fields :=
                     distribution_fields distributionConfig |};
              UpdateDistribution.IfMatch := ETag refetched |} in
         await (perform (CloudFrontSend region
                  (UpdateDistributionCommand updatedDistributionConfig))) ;;
         log "CloudFront trigger set up successfully."
     end
     end)
    (fun error =>
       log_error "Failed to set up CloudFront trigger: " error ;; throw error).

(** ** aws.js: invalidateCache (lines 145-168) *)

Definition invalidateCache (distributionId : string) (paths : list string)
    (region : string) : Js unit :=
  let* CallerReference := perform DateNow in
  try_catch
    (let* created :=
       await (perform (CloudFrontSend region
                (CreateInvalidationCommand distributionId paths CallerReference))) in
     match Invalidation created with
     | Some id => log ("Invalidation created with ID: " ++ id)
     | None => ret tt
     end)
    (fun error =>
       log_error "Failed to create invalidation: " error ;; throw error).

(** ** index.ts: zipDirectory (lines 91-110)

    The archiver is asked for every file under [source] except the name of
    the output file; the promise resolves when the output stream closes and
    rejects when the archiver reports an error. *)
Definition zipDirectory (source out : string) : Js unit :=
  log ("Zipping.... " ++ source ++ " " ++ out) ;;
  let outputFileName := path_basename host out in
  await (perform (Archive source [outputFileName] out)).

(** ** index.ts: bundleApp (lines 116-143) *)
Definition bundleApp : Js unit :=
  await (perform (Rm (path_join host ["build"]))) ;;
  await (perform (Build
           (path_join host ["out"; "server"; "lambda-handler"; "index.js"])
           (path_join host ["build"]))) ;;
  let* found := perform (ExistsSync (path_join host ["out"; "prerendered"])) in
  (if found : bool then
     await (perform (Cp (path_join host ["out"; "prerendered"])
                        (path_join host ["build"; "prerendered"])))
   else log "No Prerendered Directory found.") ;;
  log "BUILD SUCEEDED!".

(** ** index.ts: adapter(configInput).adapt(builder) (lines 151-203) *)

(** [config.section.key], read as the string its declared type says it is. *)
Definition config_leaf (config : value) (section key : string) : Js string :=
  let* found := on_heap (let* s := member config section in member s key) in
  match found with
  | VString s => ret s
  | _ => stuck
  end.

(** The [adapt] method of the object that [adapter(configInput)] returns.
    The builder is part of the host; [fuel] bounds the depth of the merge
    and the depth of the walk of [uploadToS3]. *)
Definition adapt (fuel : nat) (configInput : value) : Js unit :=
  log "Building..." ;;
  let out := path_join host ["out"] in
  let clientDir := path_join host [out; "client"] in
  let serverDir := path_join host [out; "server"] in
  let prerenderedDir := path_join host [out; "prerendered"] in
  let* config := on_heap (deepMerge fuel defaultConfig configInput) in
  await (perform (BuilderRimraf out)) ;;
  await (perform (BuilderLogMinor "Copying assets...")) ;;
  await (perform (BuilderWriteClient clientDir)) ;;
  let* prerenderedFiles := await (perform (BuilderWritePrerendered prerenderedDir)) in
  await (perform (BuilderLogMinor "Generating server function...")) ;;
  await (perform (BuilderWriteServer serverDir)) ;;
  await (perform (BuilderCopy (path_join host [dirname host; "handler"])
                              (path_join host [serverDir; "lambda-handler"]))) ;;
  await (perform (WriteFileSync
           (path_join host [serverDir; "lambda-handler"; "prerendered-file-list.js"])
           ("export default " ++ JSON_stringify host prerenderedFiles))) ;;
  bundleApp ;;
  let* bucketName := config_leaf config "s3" "bucketName" in
  let* prefix := config_leaf config "s3" "prefix" in
  let* s3_region := config_leaf config "s3" "region" in
  uploadToS3 fuel clientDir bucketName prefix s3_region ;;
  try_catch
    (zipDirectory (path_join host ["build"]) (path_join host ["build"] ++ "/lambda.zip") ;;
     log "Directory successfully zipped!")
    (fun error => log_error "Failed to zip directory:" error) ;;
  let* functionName := config_leaf config "lambda" "functionName" in
  let* lambda_region := config_leaf config "lambda" "region" in
  let* lambdaVersion :=
    deployLambdaFunction functionName
      (path_join host ["build"] ++ "/lambda.zip") lambda_region in
  match lambdaVersion with
  | Some version =>
      let* functionName := config_leaf config "lambda" "functionName" in
      let* distributionId := config_leaf config "cloudfront" "distributionId" in
      let* cloudfront_region := config_leaf config "cloudfront" "region" in
      setupCloudFrontTrigger functionName version distributionId cloudfront_region
  | None => ret tt
  end ;;
  let* distributionId := config_leaf config "cloudfront" "distributionId" in
  let* cloudfront_region := config_leaf config "cloudfront" "region" in
  invalidateCache distributionId ["/*"] cloudfront_region.

End Program.

Arguments perform host c _ : assert.
Arguments adapt host fuel configInput _ : assert.

(** ** The configuration as index.ts declares it (lines 15-74) *)

Record S3Config : Type := {
  bucketName : string;
  prefix : string;
  s3_region : string
}.

Record LambdaConfig : Type := {
  functionName : string;
  lambda_region : string
}.

Record CloudFrontConfig : Type := {
  distributionId : string;
  cloudfront_region : string
}.

Record AWSConfiguration : Type := {
  s3 : S3Config;
  lambda : LambdaConfig;
  cloudfront : CloudFrontConfig
}.

(** The object literal [{ s3: {...}, lambda: {...}, cloudfront: {...} }] for a
    configuration, created at the end of the heap. *)
Definition literal (c : AWSConfiguration) : M heap value :=
  fun h =>
    let l := length h in
    (Ok (VObject l),
     (h ++ [ [("s3", VObject (l + 1)); ("lambda", VObject (l + 2));
              ("cloudfront", VObject (l + 3))];
             [("bucketName", VString (bucketName (s3 c)));
              ("prefix", VString (prefix (s3 c)));
              ("region", VString (s3_region (s3 c)))];
             [("functionName", VString (functionName (lambda c)));
              ("region", VString (lambda_region (lambda c)))];
             [("distributionId", VString (distributionId (cloudfront c)));
              ("region", VString (cloudfront_region (cloudfront c)))] ])%list).

(** Read a configuration object back from the heap. *)
Definition leaf (h : heap) (config : value) (section key : string) : option string :=
  match (let* s := member config section in member s key) h with
  | (Ok (VString s), _) => Some s
  | _ => None
  end.

Definition read_config (h : heap) (config : value) : option AWSConfiguration :=
  b ← leaf h config "s3" "bucketName";
  p ← leaf h config "s3" "prefix";
  r ← leaf h config "s3" "region";
  f ← leaf h config "lambda" "functionName";
  lr ← leaf h config "lambda" "region";
  d ← leaf h config "cloudfront" "distributionId";
  cr ← leaf h config "cloudfront" "region";
  Some {| s3 := {| bucketName := b; prefix := p; s3_region := r |};
          lambda := {| functionName := f; lambda_region := lr |};
          cloudfront := {| distributionId := d; cloudfront_region := cr |} |}.

(** The baked-in defaults, as a configuration. *)
Definition baked_in : AWSConfiguration :=
  {| s3 := {| bucketName := ""; prefix := ""; s3_region := "ap-south-1" |};
     lambda := {| functionName := ""; lambda_region := "us-east-1" |};
     cloudfront := {| distributionId := ""; cloudfront_region := "us-east-1" |} |}.

(** ** Directory trees

    A directory as a file system holds it: the entries by name, each a
    regular file, a directory with its own entries, or something that is
    neither. *)
#[local] Unset Elimination Schemes.
Inductive entry : Type :=
| File (item : string)
| Directory (item : string) (items : list entry)
| Special (item : string).   (* neither [isFile()] nor [isDirectory()] *)
#[local] Set Elimination Schemes.

Definition entry_name (e : entry) : string :=
  match e with
  | File item | Directory item _ | Special item => item
  end.

(** What [statSync] reports of an entry. *)
Definition entry_stats (e : entry) : Stats :=
  match e with
  | File _ => {| isFile := true; isDirectory := false |}
  | Directory _ _ => {| isFile := false; isDirectory := true |}
  | Special _ => {| isFile := false; isDirectory := false |}
  end.

(** ** A reference host

    A small, executable outside world, used to run the program on concrete
    inputs.  The file system holds the tree [client_files] under
    ["out/client"]; the paths of [dangling] are links to nothing, which
    [readdirSync] lists and [statSync] cannot follow.  The distribution
    follows the protocol of the two CloudFront calls: a read returns the
    stored configuration with its current ETag, and a write is accepted only
    when [IfMatch] is the current ETag, after which the ETag changes.
    [contended] makes another client change the distribution after every
    read. *)
Module Sim.

Record cloud : Type := {
  client_files : list entry;
  dangling : list string;
  rejected_keys : list string;
  archive_error : option exn;
  zip_file : option (list Byte.byte);
  function_arn : option string;
  next_version : option string;
  stored_config : option distribution_config;
  etag : string;
  contended : bool
}.

Definition with_distribution (c : cloud) (dc : option distribution_config)
    (tag : string) : cloud :=
  {| client_files := client_files c; dangling := dangling c;
     rejected_keys := rejected_keys c;
     archive_error := archive_error c; zip_file := zip_file c;
     function_arn := function_arn c; next_version := next_version c;
     stored_config := dc; etag := tag; contended := contended c |}.

Definition no_such_file : exn := Failure "Error" "ENOENT".

Definition not_a_directory : exn := Failure "Error" "ENOTDIR".

(** The entry at [path], looked up among [items] of directory [directoryPath]. *)
Fixpoint find_entry (directoryPath : string) (e : entry) (path : string)
    {struct e} : option entry :=
  let itemPath := directoryPath ++ "/" ++ entry_name e in
  if (itemPath =? path)%string then Some e
  else
    match e with
    | Directory _ items =>
        (fix first (l : list entry) : option entry :=
           match l with
           | [] => None
           | x :: l =>
               match find_entry itemPath x path with
               | Some found => Some found
               | None => first l
               end
           end) items
    | _ => None
    end.

(** The tree, as a directory entry named ["out/client"]. *)
Definition lookup_path (s : cloud) (path : string) : option entry :=
  find_entry "out" (Directory "client" (client_files s)) path.

Definition readdirSync (s : cloud) (path : string) : exn + list string :=
  match lookup_path s path with
  | Some (Directory _ items) => inr (map entry_name items)
  | Some _ => inl not_a_directory
  | None => inl no_such_file
  end.

Definition statSync (s : cloud) (path : string) : exn + Stats :=
  if existsb (String.eqb path) (dangling s) then inl no_such_file
  else
    match lookup_path s path with
    | Some e => inr (entry_stats e)
    | None => inl no_such_file
    end.

Definition lambda_service (c : LambdaCommand) (s : cloud) : (exn + LambdaResp c) * cloud :=
  match c with
  | GetFunctionConfigurationCommand _ => (inr {| FunctionArn := function_arn s |}, s)
  | UpdateFunctionCodeCommand _ _ => (inr tt, s)
  | PublishVersionCommand _ => (inr {| Version := next_version s |}, s)
  end.

Definition cloudfront_service (c : CloudFrontCommand) (s : cloud)
    : (exn + CloudFrontResp c) * cloud :=
  match c with
  | GetDistributionConfigCommand _ =>
      (inr {| DistributionConfig := stored_config s; ETag := Some (etag s) |},
       if contended s then with_distribution s (stored_config s) (etag s ++ "'")
       else s)
  | UpdateDistributionCommand input =>
      match UpdateDistribution.IfMatch input with
      | Some tag =>
          if (tag =? etag s)%string then
            (inr tt,
             with_distribution s (Some (UpdateDistribution.DistributionConfig input))
               (etag s ++ "+"))
          else (inl (Failure "PreconditionFailed" "stale ETag"), s)
      | None => (inl (Failure "InvalidIfMatchVersion" "missing ETag"), s)
      end
  | CreateInvalidationCommand _ _ _ => (inr {| Invalidation := Some "I1" |}, s)
  end.

Definition respond (c : Command) : cloud -> Resp c * cloud :=
  match c return cloud -> Resp c * cloud with
  | S3Send _ (PutObjectCommand _ Key _ _) => fun s =>
      (if existsb (String.eqb Key) (rejected_keys s)
       then inl (Failure "AccessDenied" Key) else inr tt, s)
  | LambdaSend _ c => lambda_service c
  | CloudFrontSend _ c => cloudfront_service c
  | ReaddirSync path => fun s => (readdirSync s path, s)
  | StatSync path => fun s => (statSync s path, s)
  | ReadFileSync _ => fun s =>
      (match zip_file s with Some b => inr b | None => inl no_such_file end, s)
  | WriteFileSync _ _ => fun s => (inr tt, s)
  | ExistsSync _ => fun s => (false, s)
  | Rm _ => fun s => (inr tt, s)
  | Cp _ _ => fun s => (inr tt, s)
  | Build _ _ => fun s => (inr tt, s)
  | Archive _ _ _ => fun s =>
      (match archive_error s with Some e => inl e | None => inr tt end, s)
  | SetTimeout _ => fun s => (tt, s)
  | DateNow => fun s => ("2024-01-01T00:00:00.000Z", s)
  | BuilderRimraf _ => fun s => (inr tt, s)
  | BuilderLogMinor _ => fun s => (inr tt, s)
  | BuilderWriteClient _ => fun s => (inr tt, s)
  | BuilderWritePrerendered _ => fun s => (inr [], s)
  | BuilderWriteServer _ => fun s => (inr tt, s)
  | BuilderCopy _ _ => fun s => (inr tt, s)
  end.

(** POSIX [path.basename] of a path without a trailing separator *)
Fixpoint basename (acc p : string) : string :=
  match p with
  | EmptyString => acc
  | String c rest =>
      if (c =? "/")%char then basename "" rest else basename (acc ++ String c "") rest
  end.

Definition host : Host :=
  {| Env := cloud;
     handle := respond;
     path_join := String.concat "/";
     path_relative := fun from to =>
       String.substring (String.length from + 1)
         (String.length to - (String.length from + 1)) to;
     path_basename := basename "";
     mime_lookup := fun p =>
       if (basename "" p =? "index.html")%string then Some "text/html" else None;
     JSON_stringify := fun l => "[" ++ String.concat "," l ++ "]";
     dirname := "/adapter" |}.

Definition world (h : heap) (s : cloud) : World cloud :=
  {| js_heap := h; outside := s; trace := []; console := [] |}.

(** A distribution with a viewer-request trigger and a trigger of an
    earlier version. *)
Definition distribution : distribution_config :=
  {| DefaultCacheBehavior :=
       Some {| LambdaFunctionAssociations :=
                 Some {| Quantity := 2;
                         Items := Some
                           [ {| EventType := "viewer-request";
                                LambdaFunctionARN := "arn:aws:lambda:auth:3";
                                IncludeBody := Some false |};
                             {| EventType := "origin-request";
                                LambdaFunctionARN := "arn:aws:lambda:f:6";
                                IncludeBody := None |} ] |};
               behavior_fields := [("ViewerProtocolPolicy", "redirect-to-https")] |};
     distribution_fields := [("Comment", "site")] |}.

Definition site : cloud :=
  {| client_files :=
       [ File "index.html";
         Directory "_app" [ File "start.js"; File "app.css" ];
         File "favicon.png" ];
     dangling := [];
     rejected_keys := [];
     archive_error := None;
     zip_file := Some [];
     function_arn := Some "arn:aws:lambda:f";
     next_version := Some "7";
     stored_config := Some distribution;
     etag := "E1";
     contended := false |}.

Definition user_config : AWSConfiguration :=
  {| s3 := {| bucketName := "b"; prefix := "p"; s3_region := "r1" |};
     lambda := {| functionName := "f"; lambda_region := "r2" |};
     cloudfront := {| distributionId := "d"; cloudfront_region := "r3" |} |}.

(** What binding version 7 writes to [distribution]. *)
Definition first_write : UpdateDistribution.input :=
  {| UpdateDistribution.Id := "d";
     UpdateDistribution.DistributionConfig :=
       {| DefaultCacheBehavior :=
            Some {| LambdaFunctionAssociations :=
                      Some {| Quantity := 2;
                              Items := Some
                                [ {| EventType := "viewer-request";
                                     LambdaFunctionARN := "arn:aws:lambda:auth:3";
                                     IncludeBody := Some false |};
                                  {| EventType := "origin-request";
                                     LambdaFunctionARN := "arn:aws:lambda:f:7";
                                     IncludeBody := None |} ] |};
                    behavior_fields :=
                      [("ViewerProtocolPolicy", "redirect-to-https")] |};
          distribution_fields := [("Comment", "site")] |};
     UpdateDistribution.IfMatch := Some "E1" |}.

(** Variations of [site]. *)
Definition with_cloud (s : cloud) (files : list entry) (rejected : list string)
    (archive : option exn) (version : option string) : cloud :=
  {| client_files := files; dangling := dangling s; rejected_keys := rejected;
     archive_error := archive; zip_file := zip_file s;
     function_arn := function_arn s; next_version := version;
     stored_config := stored_config s; etag := etag s;
     contended := contended s |}.

(** Another client writes to the distribution between our reads. *)
Definition contended_site : cloud :=
  {| client_files := client_files site; dangling := []; rejected_keys := [];
     archive_error := None; zip_file := zip_file site;
     function_arn := function_arn site; next_version := next_version site;
     stored_config := stored_config site; etag := etag site;
     contended := true |}.

(** A distribution whose configuration is not returned. *)
Definition bare_site : cloud := with_distribution site None "E1".

(** The bucket rejects one of the keys. *)
Definition flaky_site : cloud :=
  with_cloud site (client_files site) ["p/_app/start.js"] None (next_version site).

(** The function platform publishes without a version. *)
Definition unversioned_site : cloud :=
  with_cloud site (client_files site) [] None None.

(** The asset directory has a link to nothing, [latest], between two
    files. *)
Definition dangling_site : cloud :=
  {| client_files := [ File "index.html"; File "latest"; File "favicon.png" ];
     dangling := ["out/client/latest"]; rejected_keys := [];
     archive_error := None; zip_file := zip_file site;
     function_arn := function_arn site; next_version := next_version site;
     stored_config := stored_config site; etag := etag site;
     contended := false |}.

(** The archiver fails after the output file was created. *)
Definition unreadable_build : cloud :=
  with_cloud site (client_files site) []
    (Some (Failure "Error" "EACCES: permission denied")) (next_version site).

End Sim.

(** ** Vocabulary of the statements *)

(** The trigger list of the default cache behaviour (line 111). *)
Definition triggers (dc : distribution_config) : list association :=
  match DefaultCacheBehavior dc with
  | Some behavior => default [] (LambdaFunctionAssociations behavior ≫= Items)
  | None => []
  end.

Definition origin_request (a : association) : bool :=
  (EventType a =? "origin-request").

Definition other_event (a : association) : bool := negb (origin_request a).

(** The association that [setupCloudFrontTrigger] builds (lines 105-110). *)
Definition new_association (arn : option string) (functionVersion : string)
    : association :=
  {| EventType := "origin-request";
     LambdaFunctionARN := template arn ++ ":" ++ functionVersion;
     IncludeBody := None |}.

(** The events of a successful [setupCloudFrontTrigger]. *)
Definition binding_events (functionName distributionId region : string)
    (fetched : GetDistributionConfigResult)
    (configuration : GetFunctionConfigurationResult)
    (refetched : GetDistributionConfigResult)
    (input : UpdateDistribution.input) : list Event :=
  [ {| cmd := CloudFrontSend region (GetDistributionConfigCommand distributionId);
       answer := inr fetched |};
    {| cmd := LambdaSend region (GetFunctionConfigurationCommand functionName);
       answer := inr configuration |};
    {| cmd := CloudFrontSend region (GetDistributionConfigCommand distributionId);
       answer := inr refetched |};
    {| cmd := CloudFrontSend region (UpdateDistributionCommand input);
       answer := inr tt |} ].

(** The calls a run made: the events of [w'] after those of [w]. *)
Definition new_events {E} (w w' : World E) : list Event :=
  drop (length (trace w)) (trace w').

(** The configurations submitted with [UpdateDistributionCommand]. *)
Definition write_of (ev : Event) : option UpdateDistribution.input :=
  match cmd ev with
  | CloudFrontSend _ (UpdateDistributionCommand input) => Some input
  | _ => None
  end.

Definition writes (t : list Event) : list UpdateDistribution.input :=
  omap write_of t.

(** Line 99: the fetched configuration lacks the section to update. *)
Definition section_missing (fetched : GetDistributionConfigResult) : bool :=
  match DistributionConfig fetched with
  | None => true
  | Some dc =>
      match DefaultCacheBehavior dc with
      | None => true
      | Some _ => false
      end
  end.

(** ** The stages of the pipeline *)

Inductive Stage : Type :=
| Prepare            (* the builder's output and the bundle *)
| AssetPublisher     (* uploadToS3 *)
| Packager           (* zipDirectory *)
| FunctionDeployer   (* deployLambdaFunction *)
| EdgeTriggerBinder  (* setupCloudFrontTrigger *)
| CacheInvalidator.  (* invalidateCache *)

(** The stage a call belongs to: the function of the source that makes it. *)
Definition stage_of (c : Command) : Stage :=
  match c with
  | S3Send _ _ | ReaddirSync _ | StatSync _ => AssetPublisher
  | Archive _ _ _ => Packager
  | ReadFileSync _ | SetTimeout _
  | LambdaSend _ (UpdateFunctionCodeCommand _ _)
  | LambdaSend _ (PublishVersionCommand _) => FunctionDeployer
  | LambdaSend _ (GetFunctionConfigurationCommand _)
  | CloudFrontSend _ (GetDistributionConfigCommand _)
  | CloudFrontSend _ (UpdateDistributionCommand _) => EdgeTriggerBinder
  | DateNow | CloudFrontSend _ (CreateInvalidationCommand _ _ _) => CacheInvalidator
  | _ => Prepare
  end.

(** The place of each stage in [adapt] (index.ts lines 185-198). *)
Definition position (s : Stage) : nat :=
  match s with
  | Prepare => 0
  | AssetPublisher => 1
  | Packager => 2
  | FunctionDeployer => 3
  | EdgeTriggerBinder => 4
  | CacheInvalidator => 5
  end.

(** The place of each stage in the order Packager, Asset Publisher, Function
    Deployer, Edge Trigger Binder, Cache Invalidator. *)
Definition numbered_position (s : Stage) : nat :=
  match s with
  | Prepare => 0
  | Packager => 1
  | AssetPublisher => 2
  | FunctionDeployer => 3
  | EdgeTriggerBinder => 4
  | CacheInvalidator => 5
  end.

Definition rank (ev : Event) : nat := position (stage_of (cmd ev)).

(** No element is followed by a smaller one. *)
Fixpoint nondecreasing (l : list nat) : bool :=
  match l with
  | [] => true
  | x :: rest => forallb (Nat.leb x) rest && nondecreasing rest
  end.

(** [lo <= x1 <= x2 <= ... <= hi] *)
Fixpoint between (lo hi : nat) (l : list nat) : Prop :=
  match l with
  | [] => lo <= hi
  | x :: rest => lo <= x /\ between x hi rest
  end.

(** The calls of [m] are made stage after stage, within [lo] and [hi]. *)
Definition staged {host A} (lo hi : nat) (m : Js host A) : Prop :=
  forall w, exists evs,
    trace (snd (m w)) = (trace w ++ evs)%list /\ between lo hi (map rank evs).

(** [m] leaves the heap as it is. *)
Definition frame {host A} (m : Js host A) : Prop :=
  forall w, js_heap (snd (m w)) = js_heap w.

(** ** The merge, leaf by leaf

    What the interface description says of the merge: a user-supplied leaf
    that is present wins, otherwise the default is kept. *)

Definition pick (user fallback : string) : string :=
  if (user =? "")%string then fallback else user.

Definition merge_config (defaults user : AWSConfiguration) : AWSConfiguration :=
  {| s3 :=
       {| bucketName := pick (bucketName (s3 user)) (bucketName (s3 defaults));
          prefix := pick (prefix (s3 user)) (prefix (s3 defaults));
          s3_region := pick (s3_region (s3 user)) (s3_region (s3 defaults)) |};
     lambda :=
       {| functionName :=
            pick (functionName (lambda user)) (functionName (lambda defaults));
          lambda_region :=
            pick (lambda_region (lambda user)) (lambda_region (lambda defaults)) |};
     cloudfront :=
       {| distributionId :=
            pick (distributionId (cloudfront user))
                 (distributionId (cloudfront defaults));
          cloudfront_region :=
            pick (cloudfront_region (cloudfront user))
                 (cloudfront_region (cloudfront defaults)) |} |}.

(** The three section objects of a configuration, and the object that
    refers to sections stored from location [l] on. *)
Definition section_objects (c : AWSConfiguration) : list object :=
  [ [("bucketName", VString (bucketName (s3 c)));
     ("prefix", VString (prefix (s3 c)));
     ("region", VString (s3_region (s3 c)))];
    [("functionName", VString (functionName (lambda c)));
     ("region", VString (lambda_region (lambda c)))];
    [("distributionId", VString (distributionId (cloudfront c)));
     ("region", VString (cloudfront_region (cloudfront c)))] ].

Definition sections_at (l : nat) : object :=
  [("s3", VObject l); ("lambda", VObject (l + 1)); ("cloudfront", VObject (l + 2))].

(** The heap when [adapter(first).adapt] starts in a freshly loaded module,
    when it has merged, when [adapter(second).adapt] starts after it, and
    when that one has merged. *)
Definition heap_at_first_call (first : AWSConfiguration) : heap :=
  snd (literal first module_heap).

Definition heap_after_first_call (first : AWSConfiguration) : heap :=
  (<[0 := sections_at 8]> (heap_at_first_call first)
   ++ section_objects (merge_config baked_in first))%list.

Definition heap_at_second_call (first second : AWSConfiguration) : heap :=
  snd (literal second (heap_after_first_call first)).

Definition heap_after_second_call (first second : AWSConfiguration) : heap :=
  (<[0 := sections_at 15]> (heap_at_second_call first second)
   ++ section_objects (merge_config (merge_config baked_in first) second))%list.

(** ** The walk of a directory tree *)

Section Walk.

Context (host : Host).

(** The calls of [uploadToS3] for one entry of a directory, in order: its
    [statSync], followed for a file by the [PutObjectCommand] of lines
    25-32, and for a directory by the listing of that directory and the
    calls for its entries. *)
Fixpoint walk_of_item (bucketName region directoryPath prefix : string) (e : entry)
    : list Command :=
  match e with
  | File item =>
      let itemPath := path_join host [directoryPath; item] in
      [ StatSync itemPath;
        S3Send region
          (PutObjectCommand bucketName
             (prefix ++ replace_backslashes (path_relative host directoryPath itemPath))
             (createReadStream itemPath)
             (or_string (mime_lookup host itemPath) "application/octet-stream")) ]
  | Directory item items =>
      let itemPath := path_join host [directoryPath; item] in
      StatSync itemPath
      :: ReaddirSync itemPath
      :: flat_map
           (walk_of_item bucketName region itemPath (key_prefix (prefix ++ item)))
           items
  | Special item => [ StatSync (path_join host [directoryPath; item]) ]
  end.

(** The calls of [uploadToS3] on a directory that holds [items]. *)
Definition walk_of (items : list entry)
    (directoryPath bucketName s3Prefix region : string) : list Command :=
  ReaddirSync directoryPath
  :: flat_map (walk_of_item bucketName region directoryPath (key_prefix s3Prefix)) items.

(** *** A tree on the disk of the host

    [Inv] describes the states of the outside world in which the file
    system is as the walk found it. *)
Context (Inv : Env host -> Prop).

(** [readdirSync] lists the names of [items] in [directoryPath]. *)
Definition lists (directoryPath : string) (items : list entry) : Prop :=
  forall s, Inv s ->
    fst (handle host (ReaddirSync directoryPath) s) = inr (map entry_name items).

(** Entry [e] is in [directoryPath]: [statSync] reports its kind, and a
    directory lists its own entries, which are in it. *)
Fixpoint on_disk (directoryPath : string) (e : entry) {struct e} : Prop :=
  (forall s, Inv s ->
     fst (handle host (StatSync (path_join host [directoryPath; entry_name e])) s)
     = inr (entry_stats e))
  /\ match e with
     | Directory item items =>
         lists (path_join host [directoryPath; item]) items
         /\ fold_right and True
              (map (on_disk (path_join host [directoryPath; item])) items)
     | _ => True
     end.

(** Directory [directoryPath] holds the tree [items]. *)
Definition holds (directoryPath : string) (items : list entry) : Prop :=
  lists directoryPath items /\ Forall (on_disk directoryPath) items.

(** The calls of the walk leave the file system as it is. *)
Definition kept_by_walk : Prop :=
  forall c s, stage_of c = AssetPublisher -> Inv s -> Inv (snd (handle host c s)).

End Walk.

(** The number of calls of [uploadToS3], one inside the other, that the walk
    of a tree needs. *)
Fixpoint levels_item (e : entry) : nat :=
  match e with
  | Directory _ items => S (list_max (map levels_item items))
  | _ => 0
  end.

Definition levels (items : list entry) : nat :=
  S (list_max (map levels_item items)).

(** What the console shows for an upload and its answer (lines 33 and 36). *)
Definition upload_report (ev : Event) : list line :=
  match cmd ev as c return Resp c -> list line with
  | S3Send _ (PutObjectCommand Bucket Key (createReadStream itemPath) _) => fun a =>
      match a with
      | inl error => [console_error ("Failed to upload " ++ itemPath ++ ":") error]
      | inr _ =>
          [console_log ("Successfully uploaded " ++ itemPath ++ " to " ++ Bucket
                        ++ "/" ++ Key)]
      end
  | _ => fun _ => []
  end (answer ev).

(** From a state of [Inv], [m] ends normally with [a] in a state of [Inv],
    makes the calls [cmds] whatever the answers to the uploads, and reports
    each upload on the console. *)
Definition walks {host A} (Inv : Env host -> Prop) (m : Js host A) (a : A)
    (cmds : list Command) : Prop :=
  forall w,
    Inv (outside w) ->
    fst (m w) = Ok a
    /\ Inv (outside (snd (m w)))
    /\ exists evs,
         trace (snd (m w)) = (trace w ++ evs)%list
         /\ map cmd evs = cmds
         /\ console (snd (m w)) = (console w ++ flat_map upload_report evs)%list.

(** ** Calling the adapter

    [adapter(configInput).adapt(builder)] with [configInput] written as an
    object literal, and the world of a freshly loaded module. *)
Definition run_adapter (host : Host) (fuel : nat) (configInput : AWSConfiguration)
    : Js host unit :=
  let* input := on_heap host (literal configInput) in
  adapt host fuel input.

Definition loaded {E} (e : E) : World E :=
  {| js_heap := module_heap; outside := e; trace := []; console := [] |}.

(** ** A version that is not there *)

(** The event is a [PublishVersionCommand] answered without a [Version]:
    [deployLambdaFunction] resolves with [undefined]. *)
Definition published_undefined (ev : Event) : bool :=
  match cmd ev as c return Resp c -> bool with
  | LambdaSend _ (PublishVersionCommand _) => fun a =>
      match a with
      | inr published =>
          match Version published with
          | None => true
          | Some _ => false
          end
      | inl _ => false
      end
  | _ => fun _ => false
  end (answer ev).

Definition binder_call (ev : Event) : bool :=
  match stage_of (cmd ev) with
  | EdgeTriggerBinder => true
  | _ => false
  end.

(** When a run of [m] has an undefined version published, it makes no call
    of the binder and ends with the invalidation of ["/*"] on the
    distribution of the configuration. *)
Definition skips_binding {host A} (config : value) (m : Js host A) : Prop :=
  forall w distribution region,
    leaf (js_heap w) config "cloudfront" "distributionId" = Some distribution ->
    leaf (js_heap w) config "cloudfront" "region" = Some region ->
    exists evs,
      trace (snd (m w)) = (trace w ++ evs)%list
      /\ (existsb published_undefined evs = true ->
          existsb binder_call evs = false
          /\ exists earlier published now a,
               evs = (earlier
                      ++ [ published;
                           {| cmd := DateNow; answer := now |};
                           {| cmd := CloudFrontSend region
                                       (CreateInvalidationCommand distribution
                                          ["/*"] now);
                              answer := a |} ])%list
               /\ published_undefined published = true).

(** The events that follow the first call of the archiver. *)
Fixpoint after_archive (t : list Event) : list Event :=
  match t with
  | [] => []
  | ev :: rest =>
      match cmd ev with
      | Archive _ _ _ => rest
      | _ => after_archive rest
      end
  end.

(** [isObject] holds of the references to objects and of nothing else; the
    merge can be run with that test in its place. *)
Definition is_reference (v : value) : bool :=
  match v with
  | VObject _ => true
  | _ => false
  end.

Fixpoint merge_references (fuel : nat) (target source : value) : M heap value :=
  match fuel with
  | O => stuck
  | S fuel =>
      if negb (is_reference target) || negb (is_reference source) then
        throw (Error "Invalid arguments: Both target and source must be objects")
      else
        let* keys := Object_keys source in
        forEach keys (fun key =>
          let* targetValue := get target key in
          let* sourceValue := get source key in
          if is_reference targetValue && is_reference sourceValue then
            let* copy := Object_assign_empty targetValue in
            let* merged := merge_references fuel copy sourceValue in
            set target key merged
          else
            set target key (or_else sourceValue targetValue)) ;;
        ret target
  end.

(** ** Outcomes of single calls *)

(** The events of [deployLambdaFunction] up to the publication. *)
Definition deployment_events (functionName zipFilePath region : string)
    (zipFile : list Byte.byte) (published : exn + PublishVersionResult)
    : list Event :=
  [ {| cmd := ReadFileSync zipFilePath; answer := inr zipFile |};
    {| cmd := LambdaSend region (UpdateFunctionCodeCommand functionName zipFile);
       answer := inr tt |};
    {| cmd := SetTimeout 5000; answer := tt |};
    {| cmd := LambdaSend region (PublishVersionCommand functionName);
       answer := published |} ].

(** The outcome of a call whose answer is [a]. *)
Definition outcome_of {A} (a : exn + A) : result unit :=
  match a with
  | inl error => Throw error
  | inr _ => Ok tt
  end.

(** The error that rejected an [UpdateDistributionCommand], if the event is
    one. *)
Definition rejected_write (ev : Event) : option exn :=
  match cmd ev as c return Resp c -> option exn with
  | CloudFrontSend _ (UpdateDistributionCommand _) => fun a =>
      match a with
      | inl error => Some error
      | inr _ => None
      end
  | _ => fun _ => None
  end (answer ev).

(** The associations object of a written configuration. *)
Definition written_associations (input : UpdateDistribution.input)
    : option associations :=
  DefaultCacheBehavior (UpdateDistribution.DistributionConfig input)
    ≫= LambdaFunctionAssociations.

(** ** Properties of a whole run *)

Definition is_ok {A} (r : result A) : bool :=
  match r with
  | Ok _ => true
  | _ => false
  end.

(** [UpdateFunctionCodeCommand] was accepted. *)
Definition code_updated (ev : Event) : bool :=
  match cmd ev as c return Resp c -> bool with
  | LambdaSend _ (UpdateFunctionCodeCommand _ _) => fun a =>
      match a with inr _ => true | inl _ => false end
  | _ => fun _ => false
  end (answer ev).

(** [PublishVersionCommand] was accepted, and what [Version] it answered. *)
Definition published_version (ev : Event) : option (option string) :=
  match cmd ev as c return Resp c -> option (option string) with
  | LambdaSend _ (PublishVersionCommand _) => fun a =>
      match a with inr published => Some (Version published) | inl _ => None end
  | _ => fun _ => None
  end (answer ev).

(** [UpdateDistributionCommand] was accepted. *)
Definition trigger_bound (ev : Event) : bool :=
  match cmd ev as c return Resp c -> bool with
  | CloudFrontSend _ (UpdateDistributionCommand _) => fun a =>
      match a with inr _ => true | inl _ => false end
  | _ => fun _ => false
  end (answer ev).

(** [CreateInvalidationCommand] was sent, and whether it was accepted. *)
Definition invalidation (ev : Event) : option bool :=
  match cmd ev as c return Resp c -> option bool with
  | CloudFrontSend _ (CreateInvalidationCommand _ _ _) => fun a =>
      match a with inr _ => Some true | inl _ => Some false end
  | _ => fun _ => None
  end (answer ev).

Definition invalidation_sent (ev : Event) : bool :=
  match invalidation ev with
  | Some _ => true
  | None => false
  end.

(** The calls of [m] extend the trace by events of which [P] holds, given
    whether the run ended normally. *)
Definition run_property {host A} (P : list Event -> bool -> Prop) (m : Js host A)
    : Prop :=
  forall w, exists evs,
    trace (snd (m w)) = (trace w ++ evs)%list /\ P evs (is_ok (fst (m w))).

(** [P] holds of a failed run that went no further than the packaging, and
    is kept when calls up to the packaging come first. *)
Definition kept_after_packaging (P : list Event -> bool -> Prop) : Prop :=
  forall before,
    between 0 2 (map rank before) ->
    P before false
    /\ forall evs ok, P evs ok -> P (before ++ evs)%list ok.

(** [GetFunctionConfigurationCommand] was answered, and with what
    [FunctionArn]. *)
Definition answered_arn (ev : Event) : option (option string) :=
  match cmd ev as c return Resp c -> option (option string) with
  | LambdaSend _ (GetFunctionConfigurationCommand _) => fun a =>
      match a with inr configuration => Some (FunctionArn configuration) | inl _ => None end
  | _ => fun _ => None
  end (answer ev).

(** Every write of the run binds a version that the run published, under
    the ARN that Lambda answered in the run. *)
Definition binds_published (evs : list Event) (ok : bool) : Prop :=
  forall input,
    In input (writes evs) ->
    exists version arn,
      In (Some (Some version)) (map published_version evs)
      /\ In (Some arn) (map answered_arn evs)
      /\ List.filter origin_request
           (triggers (UpdateDistribution.DistributionConfig input))
         = [new_association arn version].

(** A run that ended normally had its invalidation accepted; among the
    calls made before an invalidation was sent, the code was updated and a
    version published, and the trigger bound unless the version was
    undefined. *)
Definition deployed_before_invalidation (evs : list Event) (ok : bool) : Prop :=
  (ok = true -> In (Some true) (map invalidation evs))
  /\ forall earlier ev later,
       evs = (earlier ++ ev :: later)%list ->
       invalidation_sent ev = true ->
       existsb code_updated earlier = true
       /\ (exists version, In (Some version) (map published_version earlier))
       /\ (existsb published_undefined earlier = false ->
           existsb trigger_bound earlier = true).

(** ** Where the calls go

    A call to a service is addressed as the configuration object [config]
    of heap [h] says: uploads to the bucket and region of its [s3] section,
    the deployment to the function and region of its [lambda] section, and
    the calls of the binder and of the invalidator to the distribution and
    region of its [cloudfront] section, the binder's question to Lambda
    included. *)
Definition addressed (h : heap) (config : value) (c : Command) : Prop :=
  match c with
  | S3Send region (PutObjectCommand Bucket _ _ _) =>
      leaf h config "s3" "bucketName" = Some Bucket
      /\ leaf h config "s3" "region" = Some region
  | LambdaSend region (UpdateFunctionCodeCommand FunctionName _)
  | LambdaSend region (PublishVersionCommand FunctionName) =>
      leaf h config "lambda" "functionName" = Some FunctionName
      /\ leaf h config "lambda" "region" = Some region
  | LambdaSend region (GetFunctionConfigurationCommand FunctionName) =>
      leaf h config "lambda" "functionName" = Some FunctionName
      /\ leaf h config "cloudfront" "region" = Some region
  | CloudFrontSend region (GetDistributionConfigCommand Id) =>
      leaf h config "cloudfront" "distributionId" = Some Id
      /\ leaf h config "cloudfront" "region" = Some region
  | CloudFrontSend region (UpdateDistributionCommand input) =>
      leaf h config "cloudfront" "distributionId"
      = Some (UpdateDistribution.Id input)
      /\ leaf h config "cloudfront" "region" = Some region
  | CloudFrontSend region (CreateInvalidationCommand DistributionId Paths _) =>
      leaf h config "cloudfront" "distributionId" = Some DistributionId
      /\ leaf h config "cloudfront" "region" = Some region
      /\ Paths = ["/*"]
  | _ => True
  end.

(** From heap [h], [m] leaves the heap as it is and makes addressed calls. *)
Definition addresses {host A} (h : heap) (config : value) (m : Js host A) : Prop :=
  forall w,
    js_heap w = h ->
    exists evs,
      trace (snd (m w)) = (trace w ++ evs)%list
      /\ js_heap (snd (m w)) = h
      /\ Forall (fun ev => addressed h config (cmd ev)) evs.

(** ** What the merge changes on the heap *)

(** From [h] to [h'] the heap has only grown, and the objects of [h] other
    than [target] are as they were. *)
Definition stable (h : heap) (target : value) (h' : heap) : Prop :=
  length h <= length h'
  /\ forall l, l < length h -> target <> VObject l -> h' !! l = h !! l.

(** What [deepMerge] leaves under [key] in a target that held [targetValue],
    for a source that holds [sourceValue]: a new object when both are
    objects, and otherwise the source's value if it is truthy and the
    target's if not. *)
Definition merged_value (h : heap) (targetValue sourceValue : value)
    (found : option value) : Prop :=
  if isObject targetValue && isObject sourceValue then
    exists l, found = Some (VObject l) /\ length h <= l
  else found = Some (or_else sourceValue targetValue).


(** ** Failures *)

(** The error that answered the call, if it failed.  [existsSync], timers
    and the clock do not fail. *)
Definition failure (ev : Event) : option exn :=
  match cmd ev as c return Resp c -> option exn with
  | ExistsSync _ | SetTimeout _ | DateNow => fun _ => None
  | _ => fun a =>
      match a with
      | inl error => Some error
      | inr _ => None
      end
  end (answer ev).

(** The calls whose failure the caller catches without throwing again: the
    upload of a file (aws.js, lines 35-37) and the archive (index.ts, line
    191). *)
Definition tolerated (c : Command) : bool :=
  match c with
  | S3Send _ (PutObjectCommand _ _ _ _) => true
  | Archive _ _ _ => true
  | _ => false
  end.

Definition fatal (ev : Event) : option exn :=
  if tolerated (cmd ev) then None else failure ev.

(** A failure that is not tolerated is the last event, and is what the run
    throws. *)
Definition stops_at {A} (evs : list Event) (r : result A) : Prop :=
  forall earlier ev later error,
    evs = (earlier ++ ev :: later)%list ->
    fatal ev = Some error ->
    later = [] /\ r = Throw error.

Definition fail_fast {host A} (m : Js host A) : Prop :=
  forall w, exists evs,
    trace (snd (m w)) = (trace w ++ evs)%list /\ stops_at evs (fst (m w)).

(** ** Keys of the uploads *)

(** An upload goes to [bucketName] through a client of [region], under a key
    that begins with [prefix]. *)
Definition stored_under (bucketName region prefix : string) (c : Command) : Prop :=
  match c with
  | S3Send r (PutObjectCommand Bucket Key _ _) =>
      r = region /\ Bucket = bucketName /\ exists rest, Key = prefix ++ rest
  | _ => True
  end.

(** Every call of [m] is one of which [P] holds. *)
Definition calls {host A} (P : Command -> Prop) (m : Js host A) : Prop :=
  forall w, exists evs,
    trace (snd (m w)) = (trace w ++ evs)%list
    /\ Forall (fun ev => P (cmd ev)) evs.

(** ** The calls of bundleApp *)

(** The calls of [bundleApp] up to the test for the prerendered directory,
    with [built] the answer of esbuild. *)
Definition bundle_events (host : Host) (built : exn + unit) : list Event :=
  [ {| cmd := Rm (path_join host ["build"]); answer := inr tt |};
    {| cmd := Build (path_join host ["out"; "server"; "lambda-handler"; "index.js"])
                (path_join host ["build"]);
       answer := built |} ].

(** The test for the prerendered directory, and the copy that follows when
    the directory is there. *)
Definition prerendered_events (host : Host) (copied : option (exn + unit))
    : list Event :=
  {| cmd := ExistsSync (path_join host ["out"; "prerendered"]);
     answer := match copied with Some _ => true | None => false end |}
  :: match copied with
     | Some a =>
         [ {| cmd := Cp (path_join host ["out"; "prerendered"])
                       (path_join host ["build"; "prerendered"]);
              answer := a |} ]
     | None => []
     end.

(** ** The reference host, configured

    The world in which the module is loaded and the object literal of
    [Sim.user_config] has been created; the literal is [VObject 4]. *)
Definition configured (s : Sim.cloud) : World (Env Sim.host) :=
  Sim.world (snd (literal Sim.user_config module_heap)) s.

(** The invalidation of a run on [Sim.site], as it was answered. *)
Definition invalidation_accepted : Event :=
  {| cmd := CloudFrontSend "r3"
              (CreateInvalidationCommand "d" ["/*"] "2024-01-01T00:00:00.000Z");
     answer := inr {| Invalidation := Some "I1" |} |}.

(** The [statSync] of the link to nothing of [Sim.dangling_site]. *)
Definition link_to_nothing : Event :=
  {| cmd := StatSync "out/client/latest"; answer := inl Sim.no_such_file |}.

(** * Theorems *)

Section BindTrigger.

Context (host : Host).

Ltac answer_of_host H :=
  match type of H with
  | context [handle host ?c ?e] =>
      let a := fresh "a" in
      let e' := fresh "e" in
      destruct (handle host c e) as [a e'] eqn:?; cbv beta iota zeta in H
  end.

(** Every successful run has the same four calls; the written configuration
    is the fetched one with the trigger list rebuilt. *)
Lemma setupCloudFrontTrigger_ok functionName functionVersion distributionId region
    (w w' : World (Env host)) :
  setupCloudFrontTrigger host functionName functionVersion distributionId region w
    = (Ok tt, w') ->
  exists fetched dc configuration refetched input,
    trace w' = (trace w ++ binding_events functionName distributionId region
                             fetched configuration refetched input)%list
    /\ fst (handle host
              (CloudFrontSend region (GetDistributionConfigCommand distributionId))
              (outside w)) = inr fetched
    /\ DistributionConfig fetched = Some dc
    /\ UpdateDistribution.Id input = distributionId
    /\ UpdateDistribution.IfMatch input = ETag refetched
    /\ distribution_fields (UpdateDistribution.DistributionConfig input)
       = distribution_fields dc
    /\ triggers (UpdateDistribution.DistributionConfig input)
       = (List.filter other_event (triggers dc)
          ++ [new_association (FunctionArn configuration) functionVersion])%list.
Proof.
  intros H.
  cbv [setupCloudFrontTrigger try_catch bind await perform log log_error throw ret]
    in H.
  answer_of_host H. destruct a as [error|fetched]; [discriminate|].
  assert (Hfirst : fst (handle host
            (CloudFrontSend region (GetDistributionConfigCommand distributionId))
            (outside w)) = inr fetched).
  { match goal with Heq : handle _ _ _ = _ |- _ => rewrite Heq end. reflexivity. }
  destruct (DistributionConfig fetched) as [dc|] eqn:Hdc; [|discriminate].
  destruct (DefaultCacheBehavior dc) as [dcb|] eqn:Hdcb; [|discriminate].
  answer_of_host H. destruct a as [error|configuration]; [discriminate|].
  answer_of_host H. destruct a as [error|refetched]; [discriminate|].
  answer_of_host H. destruct a as [error|[]]; [discriminate|].
  injection H as <-. cbn [trace].
  eexists fetched, dc, configuration, refetched, _.
  split.
  { rewrite <- !app_assoc. reflexivity. }
  repeat split; trivial.
  unfold triggers. cbn. rewrite Hdcb. reflexivity.
Qed.

Lemma filter_other_origin (l : list association) :
  List.filter origin_request (List.filter other_event l) = [].
Proof.
  induction l as [|a l IH]; [reflexivity|].
  cbn. unfold other_event at 1. destruct (origin_request a) eqn:Ha; cbn; [exact IH|].
  rewrite Ha. exact IH.
Qed.

Lemma filter_other_other (l : list association) :
  List.filter other_event (List.filter other_event l) = List.filter other_event l.
Proof.
  induction l as [|a l IH]; [reflexivity|].
  cbn. destruct (other_event a) eqn:Ha; cbn; [|exact IH].
  rewrite Ha, IH. reflexivity.
Qed.

Lemma rebuilt_origin (l : list association) arn v :
  List.filter origin_request (List.filter other_event l ++ [new_association arn v])
  = [new_association arn v].
Proof. rewrite List.filter_app, filter_other_origin. reflexivity. Qed.

Lemma rebuilt_other (l : list association) arn v :
  List.filter other_event (List.filter other_event l ++ [new_association arn v])
  = List.filter other_event l.
Proof.
  rewrite List.filter_app, filter_other_other. cbn. apply app_nil_r.
Qed.

Lemma writes_binding functionName distributionId region fetched configuration
    refetched input (t : list Event) :
  last (writes (t ++ binding_events functionName distributionId region fetched
                       configuration refetched input))
  = Some input.
Proof.
  unfold writes. rewrite omap_app. cbn. apply last_snoc.
Qed.

(** C1. After a successful [setupCloudFrontTrigger] the written trigger list
    has exactly one origin-request entry, the fetched function ARN followed
    by [":"] and the version, and the entries of every other event type are
    those of the fetched configuration.  It holds for any number of earlier
    origin-request entries, so for none and for one. *)
Theorem setupCloudFrontTrigger_one_origin_request
    functionName functionVersion distributionId region (w w' : World (Env host)) :
  setupCloudFrontTrigger host functionName functionVersion distributionId region w
    = (Ok tt, w') ->
  exists fetched dc configuration refetched input,
    trace w' = (trace w ++ binding_events functionName distributionId region
                             fetched configuration refetched input)%list
    /\ DistributionConfig fetched = Some dc
    /\ List.filter origin_request
         (triggers (UpdateDistribution.DistributionConfig input))
       = [ {| EventType := "origin-request";
              LambdaFunctionARN :=
                template (FunctionArn configuration) ++ ":" ++ functionVersion;
              IncludeBody := None |} ]
    /\ List.filter other_event
         (triggers (UpdateDistribution.DistributionConfig input))
       = List.filter other_event (triggers dc).
Proof.
  intros H.
  destruct (setupCloudFrontTrigger_ok _ _ _ _ _ _ H)
    as (fetched & dc & configuration & refetched & input
        & Ht & _ & Hdc & _ & _ & _ & Htr).
  exists fetched, dc, configuration, refetched, input.
  rewrite Htr, rebuilt_origin, rebuilt_other. auto.
Qed.


(** C3. When the fetched configuration has no [DistributionConfig] or no
    [DefaultCacheBehavior], [setupCloudFrontTrigger] throws the error of
    line 100; the fetch is the only call it made, so no write was issued and
    the outside is as the fetch left it. *)
Theorem setupCloudFrontTrigger_missing_section
    functionName functionVersion distributionId region (w : World (Env host))
    fetched e :
  handle host (CloudFrontSend region (GetDistributionConfigCommand distributionId))
    (outside w) = (inr fetched, e) ->
  section_missing fetched = true ->
  setupCloudFrontTrigger host functionName functionVersion distributionId region w
  = (Throw (Error "Missing DistributionConfig or DefaultCacheBehavior"),
     {| js_heap := js_heap w;
        outside := e;
        trace :=
          (trace w
           ++ [ {| cmd := CloudFrontSend region
                            (GetDistributionConfigCommand distributionId);
                   answer := inr fetched |} ])%list;
        console :=
          (console w
           ++ [ console_error "Failed to set up CloudFront trigger: "
                  (Error "Missing DistributionConfig or DefaultCacheBehavior") ])%list
     |}).
Proof.
  intros Hread Hmissing.
  cbv [setupCloudFrontTrigger try_catch bind await perform log log_error throw ret].
  rewrite Hread. cbv beta iota zeta.
  unfold section_missing in Hmissing.
  destruct (DistributionConfig fetched) as [dc|]; [|reflexivity].
  destruct (DefaultCacheBehavior dc); [discriminate|reflexivity].
Qed.

(** Every run either issues no write, or is made of the four calls in order
    with the write carrying the ETag of the second fetch. *)
Lemma setupCloudFrontTrigger_runs
    functionName functionVersion distributionId region (w : World (Env host)) :
  let '(_, w') :=
    setupCloudFrontTrigger host functionName functionVersion distributionId region w in
  writes (new_events w w') = []
  \/ exists fetched configuration refetched input a,
       new_events w w'
       = [ {| cmd := CloudFrontSend region
                       (GetDistributionConfigCommand distributionId);
              answer := inr fetched |};
           {| cmd := LambdaSend region (GetFunctionConfigurationCommand functionName);
              answer := inr configuration |};
           {| cmd := CloudFrontSend region
                       (GetDistributionConfigCommand distributionId);
              answer := inr refetched |};
           {| cmd := CloudFrontSend region (UpdateDistributionCommand input);
              answer := a |} ]
       /\ UpdateDistribution.IfMatch input = ETag refetched.
Proof.
  unfold new_events.
  cbv [setupCloudFrontTrigger try_catch bind await perform log log_error throw ret].
  repeat
    (match goal with
     | |- context [handle host ?c ?e] =>
         let a := fresh "a" in
         destruct (handle host c e) as [a ?]; cbv beta iota zeta;
         try destruct a as [?|?]; cbv beta iota zeta
     | |- context [match DistributionConfig ?f with _ => _ end] =>
         destruct (DistributionConfig f); cbv beta iota zeta
     | |- context [match DefaultCacheBehavior ?f with _ => _ end] =>
         destruct (DefaultCacheBehavior f); cbv beta iota zeta
     end);
    cbn [trace];
    rewrite <- ?app_assoc, drop_app_length;
    try (left; reflexivity);
    right; repeat eexists.
Qed.

(** C4. Whenever [setupCloudFrontTrigger] issues the write, its [IfMatch] is
    the ETag answered by the second fetch, made right before the write; it is
    not the ETag of the first fetch when the two differ. *)
Theorem setupCloudFrontTrigger_token_of_second_fetch
    functionName functionVersion distributionId region (w w' : World (Env host))
    outcome input :
  setupCloudFrontTrigger host functionName functionVersion distributionId region w
    = (outcome, w') ->
  In input (writes (new_events w w')) ->
  exists fetched configuration refetched a,
    new_events w w'
    = [ {| cmd := CloudFrontSend region
                    (GetDistributionConfigCommand distributionId);
           answer := inr fetched |};
        {| cmd := LambdaSend region (GetFunctionConfigurationCommand functionName);
           answer := inr configuration |};
        {| cmd := CloudFrontSend region
                    (GetDistributionConfigCommand distributionId);
           answer := inr refetched |};
        {| cmd := CloudFrontSend region (UpdateDistributionCommand input);
           answer := a |} ]
    /\ UpdateDistribution.IfMatch input = ETag refetched
    /\ (ETag fetched <> ETag refetched ->
        UpdateDistribution.IfMatch input <> ETag fetched).
Proof.
  intros Hrun Hin.
  pose proof (setupCloudFrontTrigger_runs functionName functionVersion
                distributionId region w) as Hcases.
  rewrite Hrun in Hcases.
  destruct Hcases as [Hnone | (fetched & configuration & refetched & input' & a
                                & Hnew & Htoken)].
  - rewrite Hnone in Hin. destruct Hin.
  - rewrite Hnew in Hin. cbn in Hin. destruct Hin as [<- | []].
    exists fetched, configuration, refetched, a.
    repeat split; trivial.
    intros Hdiffer. rewrite Htoken. congruence.
Qed.

End BindTrigger.

(** ** Stage by stage *)

Lemma between_le lo hi l : between lo hi l -> lo <= hi.
Proof.
  revert lo. induction l as [|x l IH]; cbn; intros lo H; [exact H|].
  destruct H as [H1 H2]. apply IH in H2. lia.
Qed.

Lemma between_weaken lo hi lo' hi' l :
  between lo hi l -> lo' <= lo -> hi <= hi' -> between lo' hi' l.
Proof.
  revert lo lo'. induction l as [|x l IH]; cbn; intros lo lo' H Hlo Hhi; [lia|].
  destruct H as [H1 H2]. split; [lia|]. apply (IH x x); [exact H2|lia|exact Hhi].
Qed.

Lemma between_app lo mid hi l1 l2 :
  between lo mid l1 -> between mid hi l2 -> between lo hi (l1 ++ l2).
Proof.
  revert lo. induction l1 as [|x l1 IH]; cbn; intros lo H1 H2.
  - apply between_weaken with (lo := mid) (hi := hi); [exact H2|exact H1|lia].
  - destruct H1 as [Hx H1]. split; [exact Hx|]. apply IH; assumption.
Qed.

Lemma between_lower lo hi l : between lo hi l -> Forall (le lo) l.
Proof.
  revert lo. induction l as [|x l IH]; cbn; intros lo H; [constructor|].
  destruct H as [Hx H]. constructor; [exact Hx|].
  apply IH in H. eapply Forall_impl; [exact H|]. cbn. intros. lia.
Qed.

Lemma between_upper lo hi l : between lo hi l -> Forall (fun x => x <= hi) l.
Proof.
  revert lo. induction l as [|x l IH]; cbn; intros lo H; [constructor|].
  destruct H as [Hx H]. constructor; [|exact (IH _ H)].
  apply between_le in H. exact H.
Qed.

Lemma between_nondecreasing lo hi l : between lo hi l -> nondecreasing l = true.
Proof.
  revert lo. induction l as [|x l IH]; cbn; intros lo H; [reflexivity|].
  destruct H as [_ H]. rewrite (IH _ H), andb_true_r.
  apply forallb_forall. intros y Hy.
  apply between_lower in H. rewrite List.Forall_forall in H.
  apply Nat.leb_le, H, Hy.
Qed.

Create HintDb stages.
Create HintDb frames.

Section Pipeline.

Context (host : Host).

Lemma staged_weaken {A} lo hi lo' hi' (m : Js host A) :
  staged lo hi m -> lo' <= lo -> hi <= hi' -> staged lo' hi' m.
Proof.
  intros H Hlo Hhi w. destruct (H w) as (evs & Ht & Hb).
  exists evs. split; [exact Ht|]. eapply between_weaken; eassumption.
Qed.

Lemma staged_ret {A} n (a : A) : staged (host := host) n n (ret a).
Proof. intros w. exists []. cbn. rewrite app_nil_r. auto. Qed.

Lemma staged_throw {A} n e : staged (host := host) (A := A) n n (throw e).
Proof. intros w. exists []. cbn. rewrite app_nil_r. auto. Qed.

Lemma staged_stuck {A} n : staged (host := host) (A := A) n n stuck.
Proof. intros w. exists []. cbn. rewrite app_nil_r. auto. Qed.

Lemma staged_log n text : staged n n (log host text).
Proof. intros w. exists []. cbn. rewrite app_nil_r. auto. Qed.

Lemma staged_log_error n text e : staged n n (log_error host text e).
Proof. intros w. exists []. cbn. rewrite app_nil_r. auto. Qed.

Lemma staged_on_heap {A} n (m : M heap A) : staged n n (on_heap host m).
Proof.
  intros w. exists []. unfold on_heap. destruct (m (js_heap w)). cbn.
  rewrite app_nil_r. auto.
Qed.

Lemma staged_perform c :
  staged (position (stage_of c)) (position (stage_of c)) (perform host c).
Proof.
  intros w. unfold perform. destruct (handle host c (outside w)) as [a e].
  exists [ {| cmd := c; answer := a |} ]. cbn. unfold rank. cbn. auto.
Qed.

Lemma staged_bind {A B} lo mid hi (m : Js host A) (k : A -> Js host B) :
  staged lo mid m -> mid <= hi -> (forall a, staged mid hi (k a)) ->
  staged lo hi (bind m k).
Proof.
  intros Hm Hle Hk w. unfold bind.
  destruct (Hm w) as (e1 & Ht1 & Hb1).
  destruct (m w) as [[a| |] w1]; cbn in Ht1.
  - destruct (Hk a w1) as (e2 & Ht2 & Hb2).
    exists (e1 ++ e2)%list. rewrite Ht2, Ht1, app_assoc, map_app.
    split; [reflexivity|]. eapply between_app; eassumption.
  - exists e1. split; [exact Ht1|].
    apply between_weaken with (lo := lo) (hi := mid); [exact Hb1|lia|exact Hle].
  - exists e1. split; [exact Ht1|].
    apply between_weaken with (lo := lo) (hi := mid); [exact Hb1|lia|exact Hle].
Qed.

Lemma staged_try_catch {A} lo mid hi (m : Js host A) (handler : exn -> Js host A) :
  staged lo mid m -> mid <= hi -> (forall e, staged mid hi (handler e)) ->
  staged lo hi (try_catch m handler).
Proof.
  intros Hm Hle Hh w. unfold try_catch.
  destruct (Hm w) as (e1 & Ht1 & Hb1).
  destruct (m w) as [[a|e|] w1]; cbn in Ht1.
  - exists e1. split; [exact Ht1|].
    apply between_weaken with (lo := lo) (hi := mid); [exact Hb1|lia|exact Hle].
  - destruct (Hh e w1) as (e2 & Ht2 & Hb2).
    exists (e1 ++ e2)%list. rewrite Ht2, Ht1, app_assoc, map_app.
    split; [reflexivity|]. eapply between_app; eassumption.
  - exists e1. split; [exact Ht1|].
    apply between_weaken with (lo := lo) (hi := mid); [exact Hb1|lia|exact Hle].
Qed.

Lemma staged_await {A} lo hi (p : Js host (exn + A)) :
  staged lo hi p -> staged lo hi (await host p).
Proof.
  intros Hp. unfold await.
  apply staged_bind with (mid := hi); [exact Hp|lia|].
  intros [e|a]; [apply staged_throw|apply staged_ret].
Qed.

Lemma staged_forEach {A} n (l : list A) (body : A -> Js host unit) :
  Forall (fun x => staged n n (body x)) l -> staged n n (forEach l body).
Proof.
  induction 1 as [|x l Hx _ IH]; [apply staged_ret|].
  change (forEach (x :: l) body) with (body x ;; forEach l body).
  apply staged_bind with (mid := n); auto.
Qed.

(** Calls of one stage, one after the other. *)
Ltac one_stage :=
  repeat
    (cbv beta zeta;
     lazymatch goal with
     | |- staged ?n ?n (ret _) => apply staged_ret
     | |- staged ?n ?n (throw _) => apply staged_throw
     | |- staged ?n ?n stuck => apply staged_stuck
     | |- staged ?n ?n (log _ _) => apply staged_log
     | |- staged ?n ?n (log_error _ _ _) => apply staged_log_error
     | |- staged ?n ?n (on_heap _ _) => apply staged_on_heap
     | |- staged _ _ (perform _ ?c) => exact (staged_perform c)
     | |- staged _ _ (await _ _) => apply staged_await
     | |- staged ?n ?n (bind _ _) =>
         apply (staged_bind n n n); [ | apply le_n | intros ]
     | |- staged ?n ?n (try_catch _ _) =>
         apply (staged_try_catch n n n); [ | apply le_n | intros ]
     | |- staged _ _ (match ?x with _ => _ end) => destruct x
     | |- staged _ _ _ => solve [auto with stages]
     end).

Lemma staged_uploadToS3 fuel bucketName region :
  forall directoryPath s3Prefix,
    staged 1 1 (uploadToS3 host fuel directoryPath bucketName s3Prefix region).
Proof.
  induction fuel as [|fuel IH]; intros directoryPath s3Prefix; cbn [uploadToS3].
  - one_stage.
  - one_stage. apply staged_forEach, Forall_forall. intros item _. one_stage.
Qed.

Lemma staged_zipDirectory source out : staged 2 2 (zipDirectory host source out).
Proof. unfold zipDirectory. one_stage. Qed.

Lemma staged_deployLambdaFunction functionName zipFilePath region :
  staged 3 3 (deployLambdaFunction host functionName zipFilePath region).
Proof. unfold deployLambdaFunction. one_stage. Qed.

Lemma staged_setupCloudFrontTrigger functionName functionVersion distributionId region :
  staged 4 4
    (setupCloudFrontTrigger host functionName functionVersion distributionId region).
Proof. unfold setupCloudFrontTrigger. one_stage. Qed.

Lemma staged_invalidateCache distributionId paths region :
  staged 5 5 (invalidateCache host distributionId paths region).
Proof. unfold invalidateCache. one_stage. Qed.

Lemma staged_bundleApp : staged 0 0 (bundleApp host).
Proof. unfold bundleApp. one_stage. Qed.

Lemma staged_config_leaf n config section key :
  staged n n (config_leaf host config section key).
Proof. unfold config_leaf. one_stage. Qed.

#[local] Hint Resolve staged_uploadToS3 staged_zipDirectory
  staged_deployLambdaFunction staged_setupCloudFrontTrigger
  staged_invalidateCache staged_bundleApp staged_config_leaf : stages.

(** Calls stage after stage: stay in the current stage while its calls go
    on, then move to the next. *)
Ltac stage_after_stage :=
  repeat
    (cbv beta zeta;
     lazymatch goal with
     | |- staged ?lo ?hi (bind _ _) =>
         first
           [ apply (staged_bind lo lo hi); [ solve [one_stage] | lia | intros ]
           | apply (staged_weaken (S lo) hi lo hi); [ | lia | lia ] ]
     | |- staged ?lo ?hi _ =>
         first
           [ apply (staged_weaken lo lo lo hi); [ solve [one_stage] | lia | lia ]
           | apply (staged_weaken (S lo) hi lo hi); [ | lia | lia ] ]
     end).

Lemma staged_adapt fuel configInput : staged 0 5 (adapt host fuel configInput).
Proof. unfold adapt. stage_after_stage. Qed.


(** ** The merge of the configuration *)

Lemma or_else_string user fallback :
  or_else (VString user) (VString fallback) = VString (pick user fallback).
Proof.
  unfold or_else, pick. cbn. destruct (user =? "")%string; reflexivity.
Qed.

Lemma isObject_reference v : isObject v = is_reference v.
Proof.
  unfold isObject. destruct v as [| |b|n|s|l]; cbn [is_reference truthy];
    rewrite ?andb_false_r; reflexivity.
Qed.

Lemma bind_ext {S A B} (m : M S A) (k k' : A -> M S B) (s : S) :
  (forall a s', k a s' = k' a s') -> bind m k s = bind m k' s.
Proof.
  intros H. unfold bind. destruct (m s) as [[a|e|] s']; auto.
Qed.

Lemma forEach_ext {S A} (l : list A) (f g : A -> M S unit) :
  (forall x s, f x s = g x s) -> forall s, forEach l f s = forEach l g s.
Proof.
  intros H. induction l as [|x l IH]; intros s; [reflexivity|].
  change (forEach (x :: l) f) with (f x ;; forEach l f).
  change (forEach (x :: l) g) with (g x ;; forEach l g).
  unfold bind. rewrite H. destruct (g x s) as [[[]|e|] s']; auto.
Qed.

Lemma deepMerge_references fuel :
  forall target source h,
    deepMerge fuel target source h = merge_references fuel target source h.
Proof.
  induction fuel as [|fuel IH]; intros target source h; [reflexivity|].
  cbn [deepMerge merge_references]. rewrite !isObject_reference.
  destruct (negb (is_reference target) || negb (is_reference source));
    [reflexivity|].
  apply bind_ext. intros keys h1.
  unfold bind at 1 3. rewrite forEach_ext with (g := fun key =>
    let* targetValue := get target key in
    let* sourceValue := get source key in
    if is_reference targetValue && is_reference sourceValue then
      let* copy := Object_assign_empty targetValue in
      let* merged := merge_references fuel copy sourceValue in
      set target key merged
    else
      set target key (or_else sourceValue targetValue)); [reflexivity|].
  intros key h2.
  apply bind_ext. intros targetValue h3.
  apply bind_ext. intros sourceValue h4.
  rewrite !isObject_reference.
  destruct (is_reference targetValue && is_reference sourceValue); [|reflexivity].
  apply bind_ext. intros copy h5.
  unfold bind. rewrite IH. reflexivity.
Qed.

Lemma first_merge fuel (first : AWSConfiguration) :
  deepMerge (2 + fuel) defaultConfig (VObject 4) (heap_at_first_call first)
  = (Ok defaultConfig, heap_after_first_call first).
Proof.
  rewrite deepMerge_references.
  cbv -[or_else pick]. rewrite !or_else_string. reflexivity.
Qed.

Lemma second_merge fuel (first second : AWSConfiguration) :
  deepMerge (2 + fuel) defaultConfig (VObject 11) (heap_at_second_call first second)
  = (Ok defaultConfig, heap_after_second_call first second).
Proof.
  rewrite deepMerge_references.
  cbv -[or_else pick]. rewrite !or_else_string. reflexivity.
Qed.

Lemma read_after_first_call first :
  read_config (heap_after_first_call first) defaultConfig
  = Some (merge_config baked_in first).
Proof. reflexivity. Qed.

Lemma read_after_second_call first second :
  read_config (heap_after_second_call first second) defaultConfig
  = Some (merge_config (merge_config baked_in first) second).
Proof. reflexivity. Qed.

(** ** What the pipeline leaves on the heap *)


Lemma frame_ret {A} (a : A) : frame (host := host) (ret a).
Proof. intros w. reflexivity. Qed.

Lemma frame_throw {A} e : frame (host := host) (A := A) (throw e).
Proof. intros w. reflexivity. Qed.

Lemma frame_stuck {A} : frame (host := host) (A := A) stuck.
Proof. intros w. reflexivity. Qed.

Lemma frame_log text : frame (log host text).
Proof. intros w. reflexivity. Qed.

Lemma frame_log_error text e : frame (log_error host text e).
Proof. intros w. reflexivity. Qed.

Lemma frame_perform c : frame (perform host c).
Proof.
  intros w. unfold perform. destruct (handle host c (outside w)). reflexivity.
Qed.

Lemma frame_bind {A B} (m : Js host A) (k : A -> Js host B) :
  frame m -> (forall a, frame (k a)) -> frame (bind m k).
Proof.
  intros Hm Hk w. unfold bind. specialize (Hm w).
  destruct (m w) as [[a|e|] w1]; cbn in Hm; cbn; try exact Hm.
  rewrite Hk. exact Hm.
Qed.

Lemma frame_try_catch {A} (m : Js host A) (handler : exn -> Js host A) :
  frame m -> (forall e, frame (handler e)) -> frame (try_catch m handler).
Proof.
  intros Hm Hh w. unfold try_catch. specialize (Hm w).
  destruct (m w) as [[a|e|] w1]; cbn in Hm; cbn; try exact Hm.
  rewrite Hh. exact Hm.
Qed.

Lemma frame_await {A} (p : Js host (exn + A)) : frame p -> frame (await host p).
Proof.
  intros Hp. unfold await. apply frame_bind; [exact Hp|].
  intros [e|a]; [apply frame_throw|apply frame_ret].
Qed.

Lemma frame_forEach {A} (l : list A) (body : A -> Js host unit) :
  Forall (fun x => frame (body x)) l -> frame (forEach l body).
Proof.
  induction 1 as [|x l Hx _ IH]; [apply frame_ret|].
  change (forEach (x :: l) body) with (body x ;; forEach l body).
  apply frame_bind; auto.
Qed.

Lemma member_reads v key (h : heap) : snd (member v key h) = h.
Proof.
  destruct v; cbn; try reflexivity. destruct (h !! l); reflexivity.
Qed.

Lemma frame_config_leaf config section key :
  frame (config_leaf host config section key).
Proof.
  intros w. unfold config_leaf, bind, on_heap.
  pose proof (member_reads config section (js_heap w)) as H1.
  destruct (member config section (js_heap w)) as [[s|e|] h1]; cbn in H1; subst h1;
    cbn; try reflexivity.
  pose proof (member_reads s key (js_heap w)) as H2.
  destruct (member s key (js_heap w)) as [[v|e|] h2]; cbn in H2; subst h2;
    cbn; try reflexivity.
  destruct v; reflexivity.
Qed.

Ltac framed :=
  repeat
    (cbv beta zeta;
     lazymatch goal with
     | |- frame (ret _) => apply frame_ret
     | |- frame (throw _) => apply frame_throw
     | |- frame stuck => apply frame_stuck
     | |- frame (log _ _) => apply frame_log
     | |- frame (log_error _ _ _) => apply frame_log_error
     | |- frame (perform _ ?c) => exact (frame_perform c)
     | |- frame (config_leaf _ _ _ _) => apply frame_config_leaf
     | |- frame (await _ _) => apply frame_await
     | |- frame (bind _ _) => apply frame_bind; [ | intros ]
     | |- frame (try_catch _ _) => apply frame_try_catch; [ | intros ]
     | |- frame (match ?x with _ => _ end) => destruct x
     | |- frame _ => solve [auto with frames]
     end).

Lemma frame_uploadToS3 fuel bucketName region :
  forall directoryPath s3Prefix,
    frame (uploadToS3 host fuel directoryPath bucketName s3Prefix region).
Proof.
  induction fuel as [|fuel IH]; intros directoryPath s3Prefix; cbn [uploadToS3].
  - framed.
  - framed. apply frame_forEach, Forall_forall. intros item _. framed.
Qed.

Lemma frame_zipDirectory source out : frame (zipDirectory host source out).
Proof. unfold zipDirectory. framed. Qed.

Lemma frame_deployLambdaFunction functionName zipFilePath region :
  frame (deployLambdaFunction host functionName zipFilePath region).
Proof. unfold deployLambdaFunction. framed. Qed.

Lemma frame_setupCloudFrontTrigger functionName functionVersion distributionId region :
  frame (setupCloudFrontTrigger host functionName functionVersion distributionId region).
Proof. unfold setupCloudFrontTrigger. framed. Qed.

Lemma frame_invalidateCache distributionId paths region :
  frame (invalidateCache host distributionId paths region).
Proof. unfold invalidateCache. framed. Qed.

Lemma frame_bundleApp : frame (bundleApp host).
Proof. unfold bundleApp. framed. Qed.

#[local] Hint Resolve frame_uploadToS3 frame_zipDirectory
  frame_deployLambdaFunction frame_setupCloudFrontTrigger
  frame_invalidateCache frame_bundleApp : frames.

(** [adapt] writes to the heap only through the merge of line 162. *)
Lemma adapt_heap fuel configInput (w : World (Env host)) :
  js_heap (snd (adapt host fuel configInput w))
  = snd (deepMerge fuel defaultConfig configInput (js_heap w)).
Proof.
  unfold adapt. cbv zeta.
  unfold bind at 1. cbn [log].
  unfold bind at 1. unfold on_heap at 1. cbn [js_heap].
  destruct (deepMerge fuel defaultConfig configInput (js_heap w)) as [[config|e|] h];
    cbn [snd]; try reflexivity.
  match goal with
  | |- js_heap (snd (?m ?w1)) = _ =>
      assert (Hframe : frame (host := host) m); [ framed | exact (Hframe w1) ]
  end.
Qed.


Lemma deepMerge_returns_target fuel target source (h : heap) :
  match deepMerge fuel target source h with
  | (Ok v, _) => v = target
  | _ => True
  end.
Proof.
  destruct fuel as [|fuel]; [exact I|].
  cbn [deepMerge].
  destruct (negb (isObject target) || negb (isObject source)); [exact I|].
  unfold bind.
  destruct (Object_keys source h) as [[keys|e|] h1]; try exact I.
  destruct (forEach keys _ h1) as [[[]|e|] h2]; try exact I.
  reflexivity.
Qed.

(** C8, as the code has it.  Merging a user configuration over the baked-in
    defaults gives, leaf by leaf, the user's string when it is not empty and
    the default otherwise.  The three regions are never empty; the bucket
    name, the prefix, the function name and the distribution id, whose
    defaults are empty, are what the user gave, empty or not. *)
Theorem deepMerge_over_defaults fuel (user : AWSConfiguration) :
  let merged := merge_config baked_in user in
  fst (literal user module_heap) = Ok (VObject 4)
  /\ deepMerge (2 + fuel) defaultConfig (VObject 4) (snd (literal user module_heap))
    = (Ok defaultConfig, heap_after_first_call user)
  /\ read_config (heap_after_first_call user) defaultConfig = Some merged
  /\ (s3_region (s3 merged) <> ""
      /\ lambda_region (lambda merged) <> ""
      /\ cloudfront_region (cloudfront merged) <> "")
  /\ (bucketName (s3 merged) = bucketName (s3 user)
      /\ prefix (s3 merged) = prefix (s3 user)
      /\ functionName (lambda merged) = functionName (lambda user)
      /\ distributionId (cloudfront merged) = distributionId (cloudfront user)).
Proof.
  assert (Hregion : forall u d, d <> "" -> pick u d <> "").
  { intros u d Hd. unfold pick. destruct (String.eqb_spec u ""); congruence. }
  assert (Hempty : forall u, pick u "" = u).
  { intros u. unfold pick. destruct (String.eqb_spec u ""); congruence. }
  cbv zeta. split; [reflexivity|]. split; [apply first_merge|].
  split; [reflexivity|].
  cbn [merge_config baked_in s3 lambda cloudfront bucketName prefix s3_region
       functionName lambda_region distributionId cloudfront_region].
  rewrite !Hempty.
  repeat split; trivial; apply Hregion; discriminate.
Qed.

(** C10. [deepMerge] returns its target, and [adapt] merges into the
    module-level [defaultConfig]: after a first adapter call in a freshly
    loaded module, [defaultConfig] holds the first configuration merged over
    the baked-in defaults, and after a second call it holds the second
    configuration merged over that, whatever else the calls did. *)
Theorem adapt_merges_into_defaultConfig fuel
    (first second : AWSConfiguration) (e : Env host) :
  let w1 := snd (run_adapter host (2 + fuel) first (loaded e)) in
  let w2 := snd (run_adapter host (2 + fuel) second w1) in
  (forall n target source h,
     match deepMerge n target source h with
     | (Ok v, _) => v = target
     | _ => True
     end)
  /\ read_config (js_heap w1) defaultConfig = Some (merge_config baked_in first)
  /\ read_config (js_heap w2) defaultConfig
     = Some (merge_config (merge_config baked_in first) second).
Proof.
  cbv zeta. split; [intros; apply deepMerge_returns_target|].
  assert (H1 : js_heap (snd (run_adapter host (2 + fuel) first (loaded e)))
               = heap_after_first_call first).
  { unfold run_adapter, bind, on_heap. cbn [literal loaded js_heap].
    rewrite adapt_heap. cbn [js_heap].
    change (module_heap ++ _)%list with (heap_at_first_call first).
    change (VObject (length module_heap)) with (VObject 4).
    rewrite first_merge. reflexivity. }
  split; [rewrite H1; apply read_after_first_call|].
  unfold run_adapter at 1. unfold bind, on_heap. cbn [literal].
  rewrite H1. rewrite adapt_heap. cbn [js_heap].
  change (heap_after_first_call first ++ _)%list
    with (heap_at_second_call first second).
  change (VObject (length (heap_after_first_call first))) with (VObject 11).
  rewrite second_merge. apply read_after_second_call.
Qed.

(** ** The walk of the asset tree *)

Section Walks.

Context (Inv : Env host -> Prop).

Lemma walks_ret {A} (a : A) : walks Inv (host := host) (ret a) a [].
Proof.
  intros w Hw. cbn. repeat split; [exact Hw|].
  exists []. cbn. rewrite !app_nil_r. auto.
Qed.

Lemma walks_bind {A B} (m : Js host A) (k : A -> Js host B) a b c1 c2 :
  walks Inv m a c1 -> walks Inv (k a) b c2 -> walks Inv (bind m k) b (c1 ++ c2)%list.
Proof.
  intros H1 H2 w Hw. unfold bind.
  destruct (H1 w Hw) as (Hr1 & Hi1 & evs1 & Ht1 & Hc1 & Hl1).
  destruct (m w) as [r1 w1]. cbn in Hr1, Hi1, Ht1, Hl1. subst r1.
  destruct (H2 w1 Hi1) as (Hr2 & Hi2 & evs2 & Ht2 & Hc2 & Hl2).
  split; [exact Hr2|]. split; [exact Hi2|].
  exists (evs1 ++ evs2)%list.
  rewrite Ht2, Ht1, Hl2, Hl1, map_app, flat_map_app, Hc1, Hc2, !app_assoc.
  auto.
Qed.

Lemma walks_forEach {B} (f : B -> string) (l : list B)
    (body : string -> Js host unit) (cmds : B -> list Command) :
  (forall x, In x l -> walks Inv (body (f x)) tt (cmds x)) ->
  walks Inv (forEach (map f l) body) tt (flat_map cmds l).
Proof.
  induction l as [|x l IH]; intros H; [apply walks_ret|].
  change (forEach (map f (x :: l)) body)
    with (body (f x) ;; forEach (map f l) body).
  cbn [flat_map]. apply (walks_bind _ _ tt).
  - apply H. left. reflexivity.
  - apply IH. intros y Hy. apply H. right. exact Hy.
Qed.

Hypothesis kept : kept_by_walk host Inv.

(** Line 16: the listing of a directory that can be listed. *)
Lemma walks_readdirSync directoryPath names :
  (forall s, Inv s ->
     fst (handle host (ReaddirSync directoryPath) s) = inr names) ->
  walks Inv (await host (perform host (ReaddirSync directoryPath))) names
    [ReaddirSync directoryPath].
Proof.
  intros Ha w Hw. specialize (Ha _ Hw).
  pose proof (kept (ReaddirSync directoryPath) _ eq_refl Hw) as Hi.
  destruct w as [h o t c]. cbn [outside] in *.
  cbv [await bind perform throw ret js_heap outside trace console].
  destruct (handle host (ReaddirSync directoryPath) o) as [a e].
  cbn [fst snd] in Ha, Hi. subst a. cbn.
  repeat split; [exact Hi|]. eexists [ _ ].
  split; [reflexivity|]. split; [reflexivity|]. cbn. rewrite app_nil_r. reflexivity.
Qed.

(** Line 21: the kind of an entry that is there. *)
Lemma walks_statSync itemPath stats :
  (forall s, Inv s -> fst (handle host (StatSync itemPath) s) = inr stats) ->
  walks Inv (await host (perform host (StatSync itemPath))) stats
    [StatSync itemPath].
Proof.
  intros Ha w Hw. specialize (Ha _ Hw).
  pose proof (kept (StatSync itemPath) _ eq_refl Hw) as Hi.
  destruct w as [h o t c]. cbn [outside] in *.
  cbv [await bind perform throw ret js_heap outside trace console].
  destruct (handle host (StatSync itemPath) o) as [a e].
  cbn [fst snd] in Ha, Hi. subst a. cbn.
  repeat split; [exact Hi|]. eexists [ _ ].
  split; [reflexivity|]. split; [reflexivity|]. cbn. rewrite app_nil_r. reflexivity.
Qed.

(** Lines 31-37: the upload of one file ends normally whatever the answer. *)
Lemma walks_file region Bucket Key itemPath ContentType :
  walks Inv
    (try_catch
       (await host (perform host (S3Send region
          (PutObjectCommand Bucket Key (createReadStream itemPath) ContentType))) ;;
        log host ("Successfully uploaded " ++ itemPath ++ " to " ++ Bucket
                  ++ "/" ++ Key))
       (fun error => log_error host ("Failed to upload " ++ itemPath ++ ":") error))
    tt
    [S3Send region
       (PutObjectCommand Bucket Key (createReadStream itemPath) ContentType)].
Proof.
  intros w Hw.
  pose proof (kept (S3Send region
                (PutObjectCommand Bucket Key (createReadStream itemPath) ContentType))
                _ eq_refl Hw) as Hi.
  destruct w as [h o t c]. cbn [outside] in *.
  cbv [try_catch bind await perform log log_error throw ret
       js_heap outside trace console].
  destruct (handle host _ o) as [[error|[]] e]; cbn [fst snd] in Hi; cbn;
    (repeat split; [exact Hi|]; eexists [ _ ]; cbn; auto).
Qed.

Lemma all_in {A} (P : A -> Prop) (l : list A) :
  fold_right and True (map P l) -> forall x, In x l -> P x.
Proof.
  induction l as [|y l IH]; cbn; [intros _ x []|].
  intros [Hy Hl] x [<-|Hx]; auto.
Qed.

Lemma levels_item_in (items : list entry) e n :
  levels items <= S n -> In e items -> levels_item e <= n.
Proof.
  unfold levels. intros Hlev He.
  assert (Hmax : list_max (map levels_item items) <= n) by lia.
  apply List.list_max_le in Hmax.
  rewrite List.Forall_forall in Hmax. apply Hmax, in_map, He.
Qed.

(** The walk of a tree that is on the disk. *)
Lemma walks_uploadToS3 bucketName region fuel :
  forall items directoryPath s3Prefix,
    holds host Inv directoryPath items ->
    levels items <= fuel ->
    walks Inv (uploadToS3 host fuel directoryPath bucketName s3Prefix region) tt
      (walk_of host items directoryPath bucketName s3Prefix region).
Proof.
  induction fuel as [|fuel IH]; intros items directoryPath s3Prefix [Hlist Hall] Hlev.
  - unfold levels in Hlev. lia.
  - cbn [uploadToS3]. unfold walk_of.
    apply (walks_bind _ _ (map entry_name items) tt [ReaddirSync directoryPath]).
    + apply walks_readdirSync. exact Hlist.
    + cbv zeta. apply walks_forEach. intros e He.
      rewrite List.Forall_forall in Hall. specialize (Hall e He).
      pose proof (levels_item_in items e fuel Hlev He) as Hle.
      destruct e as [item|item items'|item]; destruct Hall as [Hstat Hdir];
        cbn [walk_of_item entry_name entry_stats] in *.
      * apply (walks_bind _ _ {| isFile := true; isDirectory := false |} tt
                 [StatSync (path_join host [directoryPath; item])]).
        -- apply walks_statSync. exact Hstat.
        -- cbn [isFile]. apply walks_file.
      * apply (walks_bind _ _ {| isFile := false; isDirectory := true |} tt
                 [StatSync (path_join host [directoryPath; item])]).
        -- apply walks_statSync. exact Hstat.
        -- cbn [isFile isDirectory]. destruct Hdir as [Hlist' Hall'].
           apply IH; [|exact Hle]. split; [exact Hlist'|].
           apply List.Forall_forall. apply all_in. exact Hall'.
      * apply (walks_bind _ _ {| isFile := false; isDirectory := false |} tt
                 [StatSync (path_join host [directoryPath; item])] []).
        -- apply walks_statSync. exact Hstat.
        -- cbn [isFile isDirectory]. apply walks_ret.
Qed.

End Walks.



(** ** The run of adapt *)


(** C5, as the code has it.  In every run of [adapt] the calls are made
    stage after stage in the order of the source: preparation, Asset
    Publisher, Packager, Function Deployer, Edge Trigger Binder, Cache
    Invalidator.  Each call is answered before the next is made, so no stage
    starts before the one before it is over; the uploads come before the
    archive. *)
Theorem adapt_stage_order fuel configInput (w : World (Env host)) :
  nondecreasing
    (map (fun ev => position (stage_of (cmd ev)))
       (new_events w (snd (adapt host fuel configInput w))))
  = true.
Proof.
  destruct (staged_adapt fuel configInput w) as (evs & Ht & Hb).
  unfold new_events. rewrite Ht, drop_app_length.
  exact (between_nondecreasing _ _ _ Hb).
Qed.

Lemma config_leaf_reads config section key (w : World (Env host)) x :
  leaf (js_heap w) config section key = Some x ->
  config_leaf host config section key w = (Ok x, w).
Proof.
  unfold leaf, config_leaf, on_heap. intros H.
  unfold bind at 1.
  pose proof (member_reads config section (js_heap w)) as H1.
  unfold bind in H |- *.
  destruct (member config section (js_heap w)) as [[s|e|] h1]; cbn in H1; subst h1;
    try discriminate.
  pose proof (member_reads s key (js_heap w)) as H2.
  destruct (member s key (js_heap w)) as [[v|e|] h2]; cbn in H2; subst h2;
    try discriminate.
  destruct v; try discriminate. injection H as ->.
  destruct w; reflexivity.
Qed.

Ltac answers :=
  repeat
    match goal with
    | |- context [handle host ?c ?e] =>
        let a := fresh "a" in
        destruct (handle host c e) as [a ?]; cbv beta iota zeta;
        let T := type of a in
        let T' := eval cbv [Resp LambdaResp CloudFrontResp] in T in
        lazymatch T' with
        | sum _ _ => destruct a as [?|a]; cbv beta iota zeta
        | _ => idtac
        end
    end.

(** The calls of [deployLambdaFunction]: none is a call of the binder, and a
    version is published undefined exactly when the function resolves with
    [undefined], by its last call. *)
Lemma deployLambdaFunction_runs functionName zipFilePath region
    (w : World (Env host)) :
  let '(outcome, w') :=
    deployLambdaFunction host functionName zipFilePath region w in
  js_heap w' = js_heap w
  /\ exists evs,
       trace w' = (trace w ++ evs)%list
       /\ existsb binder_call evs = false
       /\ match outcome with
          | Ok None =>
              exists earlier published,
                evs = (earlier ++ [published])%list
                /\ published_undefined published = true
          | _ => existsb published_undefined evs = false
          end.
Proof.
  destruct w as [h o t c].
  cbv [deployLambdaFunction try_catch bind await perform log log_error throw ret
       js_heap outside trace console].
  answers; (split; [reflexivity|]);
    rewrite <- ?app_assoc; cbn [app];
    lazymatch goal with
    | |- exists evs, (_ ++ ?l)%list = _ /\ _ => exists l
    end;
    (split; [reflexivity|]); (split; [reflexivity|]);
    try reflexivity.
  cbn [existsb published_undefined cmd answer orb].
  destruct (Version a2) eqn:Hv; [reflexivity|].
  eexists [_; _; _], _. split; [reflexivity|].
  cbn [published_undefined cmd answer]. rewrite Hv. reflexivity.
Qed.

Lemma invalidateCache_runs distributionId paths region (w : World (Env host)) :
  exists now a,
    trace (snd (invalidateCache host distributionId paths region w))
    = (trace w
       ++ [ {| cmd := DateNow; answer := now |};
            {| cmd := CloudFrontSend region
                        (CreateInvalidationCommand distributionId paths now);
               answer := a |} ])%list.
Proof.
  destruct w as [h o t c].
  cbv [invalidateCache try_catch bind await perform log log_error throw ret
       js_heap outside trace console].
  answers; try destruct (Invalidation _); cbn [snd trace];
    rewrite <- ?app_assoc; cbn [app]; eexists _, _; reflexivity.
Qed.

Lemma existsb_rank (f : Event -> bool) lo hi evs :
  between lo hi (map rank evs) ->
  (forall ev, f ev = true -> rank ev < lo \/ hi < rank ev) ->
  existsb f evs = false.
Proof.
  intros Hb Hf.
  pose proof (between_lower _ _ _ Hb) as Hlo.
  pose proof (between_upper _ _ _ Hb) as Hhi.
  rewrite List.Forall_forall in Hlo, Hhi.
  destruct (existsb f evs) eqn:Hex; [|reflexivity].
  apply existsb_exists in Hex. destruct Hex as (ev & Hin & Hev).
  specialize (Hlo (rank ev) (in_map rank _ _ Hin)).
  specialize (Hhi (rank ev) (in_map rank _ _ Hin)).
  destruct (Hf ev Hev); lia.
Qed.

Lemma published_undefined_rank ev : published_undefined ev = true -> rank ev = 3.
Proof.
  destruct ev as [c a]. unfold published_undefined, rank. cbn.
  destruct c as [? []|? []|? []| | | | | | | | | | | | | | | | |]; cbn;
    try discriminate; reflexivity.
Qed.

Lemma binder_call_rank ev : binder_call ev = true -> rank ev = 4.
Proof.
  destruct ev as [c a]. unfold binder_call, rank. cbn.
  destruct (stage_of c); cbn; try discriminate; reflexivity.
Qed.

(** Calls before the deployment change nothing to the matter. *)
Lemma skips_binding_after {A B} config (m : Js host A) (k : A -> Js host B) :
  staged 0 2 m ->
  frame m ->
  (forall a, skips_binding config (k a)) ->
  skips_binding config (bind m k).
Proof.
  intros Hstaged Hframe Hk w distribution region Hd Hr.
  unfold bind.
  destruct (Hstaged w) as (e1 & Ht1 & Hb1).
  specialize (Hframe w).
  assert (Hquiet : existsb published_undefined e1 = false).
  { apply (existsb_rank _ 0 2); [exact Hb1|].
    intros ev Hev. apply published_undefined_rank in Hev. lia. }
  assert (Hnb : existsb binder_call e1 = false).
  { apply (existsb_rank _ 0 2); [exact Hb1|].
    intros ev Hev. apply binder_call_rank in Hev. lia. }
  destruct (m w) as [[a|e|] w1]; cbn [snd] in *.
  - rewrite <- Hframe in Hd, Hr.
    destruct (Hk a w1 distribution region Hd Hr) as (e2 & Ht2 & H2).
    exists (e1 ++ e2)%list. rewrite Ht2, Ht1, app_assoc. split; [reflexivity|].
    rewrite !existsb_app, Hquiet, Hnb. cbn [orb]. intros Hpub.
    destruct (H2 Hpub) as (Hnb2 & earlier & published & now & a' & Hevs & Hp).
    split; [exact Hnb2|].
    exists (e1 ++ earlier)%list, published, now, a'.
    rewrite Hevs, app_assoc. auto.
  - exists e1. split; [exact Ht1|]. rewrite Hquiet. discriminate.
  - exists e1. split; [exact Ht1|]. rewrite Hquiet. discriminate.
Qed.

(** Lines 193-198: the deployment and what follows it. *)
Lemma skips_binding_deploy config functionName zipFilePath region
    (binding : string -> Js host unit) :
  (forall version, staged 4 4 (binding version)) ->
  skips_binding config
    (let* lambdaVersion :=
       deployLambdaFunction host functionName zipFilePath region in
     match lambdaVersion with
     | Some version => binding version
     | None => ret tt
     end ;;
     let* distributionId := config_leaf host config "cloudfront" "distributionId" in
     let* cloudfront_region := config_leaf host config "cloudfront" "region" in
     invalidateCache host distributionId ["/*"] cloudfront_region).
Proof.
  intros Hbinding w distribution cloudfront_region Hd Hr.
  unfold bind at 1.
  pose proof (deployLambdaFunction_runs functionName zipFilePath region w) as Hdeploy.
  destruct (deployLambdaFunction host functionName zipFilePath region w)
    as [outcome w1].
  destruct Hdeploy as (Hheap & evs & Ht & Hnb & Hcase).
  destruct outcome as [[version|]|e|].
  - match goal with
    | |- context [snd (?tail w1)] =>
        assert (Htail : staged 4 5 tail)
    end.
    { apply (staged_bind 4 4 5); [apply Hbinding|lia|]. intros _.
      apply (staged_bind 4 4 5); [apply staged_config_leaf|lia|]. intros d.
      apply (staged_bind 4 4 5); [apply staged_config_leaf|lia|]. intros r.
      apply (staged_weaken 5 5); [apply staged_invalidateCache|lia|lia]. }
    destruct (Htail w1) as (e2 & Ht2 & Hb2).
    exists (evs ++ e2)%list. rewrite Ht2, Ht, app_assoc. split; [reflexivity|].
    rewrite existsb_app, Hcase.
    rewrite (existsb_rank published_undefined 4 5 e2 Hb2); [discriminate|].
    intros ev Hev. apply published_undefined_rank in Hev. lia.
  - rewrite <- Hheap in Hd, Hr.
    unfold bind, ret.
    rewrite (config_leaf_reads _ _ _ _ _ Hd), (config_leaf_reads _ _ _ _ _ Hr).
    destruct (invalidateCache_runs distribution ["/*"] cloudfront_region w1)
      as (now & a & Hinv).
    destruct Hcase as (earlier & published & Hevs & Hp).
    eexists. rewrite Hinv, Ht, <- app_assoc. split; [reflexivity|].
    intros _. split.
    + rewrite existsb_app, Hnb. reflexivity.
    + exists earlier, published, now, a.
      rewrite Hevs, <- app_assoc. auto.
  - exists evs. split; [exact Ht|]. rewrite Hcase. discriminate.
  - exists evs. split; [exact Ht|]. rewrite Hcase. discriminate.
Qed.

(** The steps before the deployment, one by one, then the deployment. *)
Ltac before_deployment :=
  repeat
    (cbv beta zeta;
     lazymatch goal with
     | |- skips_binding _ (bind (deployLambdaFunction _ _ _ _) _) =>
         apply skips_binding_deploy; intros; one_stage
     | |- skips_binding _ (bind _ _) =>
         apply skips_binding_after;
         [ first [ apply (staged_weaken 0 0); [solve [one_stage]|lia|lia]
                 | apply (staged_weaken 1 1); [solve [one_stage]|lia|lia]
                 | apply (staged_weaken 2 2); [solve [one_stage]|lia|lia] ]
         | solve [framed]
         | intros ]
     end).

(** C9. In a run of [adapt] where the version published is undefined, so
    that [deployLambdaFunction] resolves with [undefined], no call of
    [setupCloudFrontTrigger] is made, and the run ends with the call of
    [invalidateCache]: the clock, then the invalidation of ["/*"] on the
    distribution of the merged configuration. *)
Theorem adapt_undefined_version_skips_binding fuel configInput
    (w w' : World (Env host)) outcome distribution region :
  adapt host fuel configInput w = (outcome, w') ->
  existsb published_undefined (new_events w w') = true ->
  leaf (js_heap w') defaultConfig "cloudfront" "distributionId" = Some distribution ->
  leaf (js_heap w') defaultConfig "cloudfront" "region" = Some region ->
  existsb binder_call (new_events w w') = false
  /\ exists earlier published now a,
       new_events w w'
       = (earlier
          ++ [ published;
               {| cmd := DateNow; answer := now |};
               {| cmd := CloudFrontSend region
                           (CreateInvalidationCommand distribution ["/*"] now);
                  answer := a |} ])%list
       /\ published_undefined published = true.
Proof.
  intros Hrun Hpub Hd Hr.
  pose proof (adapt_heap fuel configInput w) as Hheap.
  rewrite Hrun in Hheap. cbn [snd] in Hheap.
  unfold new_events in *.
  unfold adapt in Hrun. cbv zeta in Hrun.
  unfold bind at 1 in Hrun. cbn [log] in Hrun.
  unfold bind at 1 in Hrun. unfold on_heap at 1 in Hrun. cbn [js_heap] in Hrun.
  pose proof (deepMerge_returns_target fuel defaultConfig configInput (js_heap w))
    as Htarget.
  destruct (deepMerge fuel defaultConfig configInput (js_heap w))
    as [[config|e|] h1]; cbn [snd] in Hheap; cbv beta iota in Hrun.
  - subst config.
    match type of Hrun with
    | ?pipeline ?w1 = _ =>
        assert (Hskip : skips_binding defaultConfig pipeline);
        [ before_deployment
        | destruct (Hskip w1 distribution region) as (evs & Ht & Hevs) ]
    end.
    + cbn [js_heap]. rewrite <- Hheap. exact Hd.
    + cbn [js_heap]. rewrite <- Hheap. exact Hr.
    + rewrite Hrun in Ht. cbn [snd trace] in Ht.
      rewrite Ht, drop_app_length in Hpub |- *. exact (Hevs Hpub).
  - injection Hrun as <- <-. cbn [trace] in Hpub.
    rewrite drop_all in Hpub. discriminate.
  - injection Hrun as <- <-. cbn [trace] in Hpub.
    rewrite drop_all in Hpub. discriminate.
Qed.

(** Lines 189-191: whatever the archiver answers, the packaging step of
    [adapt] ends normally, so [adapt] goes on to the deployment. *)
Lemma zip_failure_is_swallowed source out (w : World (Env host)) :
  fst (try_catch
         (zipDirectory host source out ;; log host "Directory successfully zipped!")
         (fun error => log_error host "Failed to zip directory:" error) w)
  = Ok tt.
Proof.
  destruct w as [h o t c].
  cbv [zipDirectory try_catch bind await perform log log_error throw ret
       js_heap outside trace console].
  answers; reflexivity.
Qed.

(** ** The protocol of each stage *)

Ltac units :=
  repeat
    match goal with
    | u : ?T |- _ =>
        let T' := eval cbv [Resp LambdaResp CloudFrontResp] in T in
        lazymatch T' with
        | unit => destruct u
        end
    end.

(** The runs of [deployLambdaFunction], by the answers it gets. *)
Lemma deployLambdaFunction_cases functionName zipFilePath region
    (w : World (Env host)) :
  let '(outcome, w') :=
    deployLambdaFunction host functionName zipFilePath region w in
  js_heap w' = js_heap w
  /\ match outcome with
     | Ok version =>
         exists zipFile published,
           trace w' = (trace w ++ deployment_events functionName zipFilePath
                                    region zipFile (inr published))%list
           /\ version = Version published
     | Throw error =>
         trace w' = (trace w ++ [ {| cmd := ReadFileSync zipFilePath;
                                     answer := inl error |} ])%list
         \/ (exists zipFile,
               trace w'
               = (trace w
                  ++ [ {| cmd := ReadFileSync zipFilePath; answer := inr zipFile |};
                       {| cmd := LambdaSend region
                                   (UpdateFunctionCodeCommand functionName zipFile);
                          answer := inl error |} ])%list)
         \/ (exists zipFile,
               trace w' = (trace w ++ deployment_events functionName zipFilePath
                                        region zipFile (inl error))%list)
     | Stuck => False
     end.
Proof.
  destruct w as [h o t c].
  cbv [deployLambdaFunction try_catch bind await perform log log_error throw ret
       js_heap outside trace console].
  answers; units; (split; [reflexivity|]); rewrite <- ?app_assoc; cbn [app].
  - left. reflexivity.
  - right. left. eexists. reflexivity.
  - right. right. eexists. reflexivity.
  - eexists _, _. split; reflexivity.
Qed.

(** X1. [deployLambdaFunction] reads the archive, sends its bytes, waits
    5000 ms and publishes, in that order, and resolves with the [Version] of
    the publication.  When the read, the update or the publication fails it
    throws that error and makes no further call. *)
Theorem deployLambdaFunction_protocol functionName zipFilePath region
    (w : World (Env host)) :
  let '(outcome, w') :=
    deployLambdaFunction host functionName zipFilePath region w in
  js_heap w' = js_heap w
  /\ match outcome with
     | Ok version =>
         exists zipFile published,
           trace w' = (trace w ++ deployment_events functionName zipFilePath
                                    region zipFile (inr published))%list
           /\ version = Version published
     | Throw error =>
         trace w' = (trace w ++ [ {| cmd := ReadFileSync zipFilePath;
                                     answer := inl error |} ])%list
         \/ (exists zipFile,
               trace w'
               = (trace w
                  ++ [ {| cmd := ReadFileSync zipFilePath; answer := inr zipFile |};
                       {| cmd := LambdaSend region
                                   (UpdateFunctionCodeCommand functionName zipFile);
                          answer := inl error |} ])%list)
         \/ (exists zipFile,
               trace w' = (trace w ++ deployment_events functionName zipFilePath
                                        region zipFile (inl error))%list)
     | Stuck => False
     end.
Proof. exact (deployLambdaFunction_cases functionName zipFilePath region w). Qed.

(** The runs of [invalidateCache], by the answers it gets. *)
Lemma invalidateCache_cases distributionId paths region
    (w : World (Env host)) :
  let '(outcome, w') := invalidateCache host distributionId paths region w in
  js_heap w' = js_heap w
  /\ exists now a,
       trace w'
       = (trace w
          ++ [ {| cmd := DateNow; answer := now |};
               {| cmd := CloudFrontSend region
                           (CreateInvalidationCommand distributionId paths now);
                  answer := a |} ])%list
       /\ outcome = outcome_of a.
Proof.
  destruct w as [h o t c].
  cbv [invalidateCache try_catch bind await perform log log_error throw ret
       js_heap outside trace console].
  destruct (handle host DateNow o) as [now o1]. cbv beta iota zeta.
  destruct (handle host _ o1) as [[error|created] o2]; cbv beta iota zeta;
    try destruct (Invalidation created);
    (split; [reflexivity|]); rewrite <- ?app_assoc; cbn [app];
    eexists _, _; split; reflexivity.
Qed.

(** X2. [invalidateCache] reads the clock and sends one
    [CreateInvalidationCommand] for the given distribution and paths with
    that reading as [CallerReference]; it resolves when the command is
    accepted and throws the command's error otherwise. *)
Theorem invalidateCache_protocol distributionId paths region
    (w : World (Env host)) :
  let '(outcome, w') := invalidateCache host distributionId paths region w in
  js_heap w' = js_heap w
  /\ exists now a,
       trace w'
       = (trace w
          ++ [ {| cmd := DateNow; answer := now |};
               {| cmd := CloudFrontSend region
                           (CreateInvalidationCommand distributionId paths now);
                  answer := a |} ])%list
       /\ outcome = outcome_of a.
Proof. exact (invalidateCache_cases distributionId paths region w). Qed.

(** Every run of [setupCloudFrontTrigger]: either no write is sent and the
    run fails, or the four calls are made and the outcome is that of the
    write, whose configuration is rebuilt from the first fetch. *)
Lemma setupCloudFrontTrigger_cases functionName functionVersion distributionId
    region (w : World (Env host)) :
  let '(outcome, w') :=
    setupCloudFrontTrigger host functionName functionVersion distributionId region w in
  js_heap w' = js_heap w
  /\ exists evs,
       trace w' = (trace w ++ evs)%list
       /\ ((writes evs = [] /\ outcome <> Ok tt
            /\ map rejected_write evs = map (fun _ => None) evs)
           \/ exists fetched dc behavior configuration refetched input a,
                evs
                = [ {| cmd := CloudFrontSend region
                                (GetDistributionConfigCommand distributionId);
                       answer := inr fetched |};
                    {| cmd := LambdaSend region
                                (GetFunctionConfigurationCommand functionName);
                       answer := inr configuration |};
                    {| cmd := CloudFrontSend region
                                (GetDistributionConfigCommand distributionId);
                       answer := inr refetched |};
                    {| cmd := CloudFrontSend region (UpdateDistributionCommand input);
                       answer := a |} ]
                /\ outcome = outcome_of a
                /\ DistributionConfig fetched = Some dc
                /\ DefaultCacheBehavior dc = Some behavior
                /\ UpdateDistribution.Id input = distributionId
                /\ UpdateDistribution.IfMatch input = ETag refetched
                /\ distribution_fields (UpdateDistribution.DistributionConfig input)
                   = distribution_fields dc
                /\ behavior_fields
                     <$> DefaultCacheBehavior
                           (UpdateDistribution.DistributionConfig input)
                   = Some (behavior_fields behavior)
                /\ written_associations input
                   = Some {| Quantity :=
                               Z.of_nat (length (List.filter other_event (triggers dc)
                                                 ++ [new_association
                                                       (FunctionArn configuration)
                                                       functionVersion]));
                             Items :=
                               Some (List.filter other_event (triggers dc)
                                     ++ [new_association (FunctionArn configuration)
                                           functionVersion])%list |}).
Proof.
  destruct w as [h o t c].
  cbv [setupCloudFrontTrigger try_catch bind await perform log log_error throw ret
       js_heap outside trace console].
  destruct (handle host _ o) as [[error|fetched] o1]; cbv beta iota zeta.
  { split; [reflexivity|]. eexists [_]. split; [reflexivity|].
    left. repeat split; discriminate. }
  destruct (DistributionConfig fetched) as [dc|] eqn:Hdc; cbv beta iota zeta.
  2:{ split; [reflexivity|]. eexists [_]. split; [reflexivity|].
      left. repeat split; discriminate. }
  destruct (DefaultCacheBehavior dc) as [behavior|] eqn:Hb; cbv beta iota zeta.
  2:{ split; [reflexivity|]. eexists [_]. split; [reflexivity|].
      left. repeat split; discriminate. }
  destruct (handle host _ o1) as [[error|configuration] o2]; cbv beta iota zeta.
  { split; [reflexivity|]. rewrite <- ?app_assoc. eexists [_; _].
    split; [reflexivity|]. left. repeat split; discriminate. }
  destruct (handle host _ o2) as [[error|refetched] o3]; cbv beta iota zeta.
  { split; [reflexivity|]. rewrite <- ?app_assoc. eexists [_; _; _].
    split; [reflexivity|]. left. repeat split; discriminate. }
  destruct (handle host _ o3) as [a o4]; cbv beta iota zeta.
  assert (Htriggers :
    default [] (LambdaFunctionAssociations behavior ≫= Items) = triggers dc).
  { unfold triggers. rewrite Hb. reflexivity. }
  destruct a as [error|[]]; cbv beta iota zeta;
    (split; [reflexivity|]); rewrite <- ?app_assoc; cbn [app];
    (eexists; split; [reflexivity|]); right;
    eexists fetched, dc, behavior, configuration, refetched, _, _;
    (split; [reflexivity|]);
    cbn [UpdateDistribution.Id UpdateDistribution.IfMatch
         UpdateDistribution.DistributionConfig distribution_fields
         DefaultCacheBehavior behavior_fields written_associations
         LambdaFunctionAssociations fmap option_fmap option_map mbind option_bind
         outcome_of];
    fold (@app association); rewrite ?Htriggers;
    repeat split; try assumption; try reflexivity.
Qed.

(** X3. Whenever [setupCloudFrontTrigger] sends a write, the written
    configuration is the one of its first fetch with the trigger list
    rebuilt: the distribution id, the other fields of the distribution and
    of the default cache behaviour are kept, [Quantity] is the number of
    [Items], and the entries of other event types are those fetched. *)
Theorem setupCloudFrontTrigger_keeps_other_configuration
    functionName functionVersion distributionId region (w w' : World (Env host))
    outcome input :
  setupCloudFrontTrigger host functionName functionVersion distributionId region w
    = (outcome, w') ->
  In input (writes (new_events w w')) ->
  exists fetched dc behavior items,
    hd_error (new_events w w')
    = Some {| cmd := CloudFrontSend region
                       (GetDistributionConfigCommand distributionId);
              answer := inr fetched |}
    /\ DistributionConfig fetched = Some dc
    /\ DefaultCacheBehavior dc = Some behavior
    /\ UpdateDistribution.Id input = distributionId
    /\ distribution_fields (UpdateDistribution.DistributionConfig input)
       = distribution_fields dc
    /\ behavior_fields
         <$> DefaultCacheBehavior (UpdateDistribution.DistributionConfig input)
       = Some (behavior_fields behavior)
    /\ written_associations input
       = Some {| Quantity := Z.of_nat (length items); Items := Some items |}
    /\ List.filter other_event items = List.filter other_event (triggers dc).
Proof.
  intros Hrun Hin.
  pose proof (setupCloudFrontTrigger_cases functionName functionVersion
                distributionId region w) as Hcases.
  rewrite Hrun in Hcases. destruct Hcases as (_ & evs & Ht & Hcases).
  unfold new_events in *. rewrite Ht, drop_app_length in Hin |- *.
  destruct Hcases as [(Hnone & _) | (fetched & dc & behavior & configuration
      & refetched & input' & a & Hevs & _ & Hdc & Hb & Hid & _ & Hdf & Hbf & Hwa)].
  - rewrite Hnone in Hin. destruct Hin.
  - rewrite Hevs in Hin |- *. cbn in Hin. destruct Hin as [<- | []].
    eexists fetched, dc, behavior, _.
    split; [reflexivity|]. repeat (split; [assumption|]).
    split; [exact Hwa|]. apply rebuilt_other.
Qed.

(** X4. [setupCloudFrontTrigger] does not retry: when its write is rejected
    it throws the error of the rejection, and that write is the only one of
    the run. *)
Theorem setupCloudFrontTrigger_rejected_write
    functionName functionVersion distributionId region (w w' : World (Env host))
    outcome error :
  setupCloudFrontTrigger host functionName functionVersion distributionId region w
    = (outcome, w') ->
  In (Some error) (map rejected_write (new_events w w')) ->
  outcome = Throw error /\ length (writes (new_events w w')) = 1.
Proof.
  intros Hrun Hin.
  pose proof (setupCloudFrontTrigger_cases functionName functionVersion
                distributionId region w) as Hcases.
  rewrite Hrun in Hcases. destruct Hcases as (_ & evs & Ht & Hcases).
  unfold new_events in *. rewrite Ht, drop_app_length in Hin |- *.
  destruct Hcases as [(_ & _ & Hnone) | (fetched & dc & behavior & configuration
      & refetched & input' & a & Hevs & Hout & _)].
  - rewrite Hnone in Hin. apply in_map_iff in Hin.
    destruct Hin as (ev & Hev & _). discriminate.
  - rewrite Hevs in Hin |- *. cbn in Hin.
    destruct Hin as [Hin | [Hin | [Hin | [Hin | []]]]]; try discriminate.
    destruct a as [e|u]; [|discriminate]. injection Hin as ->.
    split; [exact Hout|reflexivity].
Qed.

(** ** From the deployment to the invalidation *)

Lemma config_leaf_world config section key (w : World (Env host)) :
  snd (config_leaf host config section key w) = w.
Proof.
  unfold config_leaf, on_heap, bind.
  pose proof (member_reads config section (js_heap w)) as H1.
  destruct (member config section (js_heap w)) as [[s|e|] h1]; cbn in H1; subst h1;
    try (destruct w; reflexivity).
  pose proof (member_reads s key (js_heap w)) as H2.
  destruct (member s key (js_heap w)) as [[v|e|] h2]; cbn in H2; subst h2;
    try (destruct w; reflexivity).
  destruct v; destruct w; reflexivity.
Qed.

Lemma map_none_rank {A} (f : Event -> option A) lo hi evs :
  between lo hi (map rank evs) ->
  (forall ev, f ev <> None -> rank ev < lo \/ hi < rank ev) ->
  map f evs = map (fun _ => None) evs.
Proof.
  intros Hb Hf.
  pose proof (between_lower _ _ _ Hb) as Hlo.
  pose proof (between_upper _ _ _ Hb) as Hhi.
  rewrite List.Forall_forall in Hlo, Hhi.
  apply map_ext_in. intros ev Hin.
  specialize (Hlo (rank ev) (in_map rank _ _ Hin)).
  specialize (Hhi (rank ev) (in_map rank _ _ Hin)).
  destruct (f ev) eqn:Hev; [|reflexivity].
  destruct (Hf ev); [congruence|lia|lia].
Qed.

Lemma invalidation_sent_rank ev : invalidation_sent ev = true -> rank ev = 5.
Proof.
  destruct ev as [c a]. unfold invalidation_sent, invalidation, rank. cbn.
  destruct c as [? []|? []|? []| | | | | | | | | | | | | | | | |]; cbn;
    try discriminate; reflexivity.
Qed.

Lemma published_version_rank ev : published_version ev <> None -> rank ev = 3.
Proof.
  destruct ev as [c a]. unfold published_version, rank. cbn.
  destruct c as [? []|? []|? []| | | | | | | | | | | | | | | | |]; cbn;
    try congruence; reflexivity.
Qed.

Lemma write_rank ev : write_of ev <> None -> rank ev = 4.
Proof.
  destruct ev as [c a]. unfold write_of, rank. cbn.
  destruct c as [? []|? []|? []| | | | | | | | | | | | | | | | |]; cbn;
    try congruence; reflexivity.
Qed.

(** Calls up to the packaging change nothing to a property that they keep. *)
Lemma run_property_after {A B} P (m : Js host A) (k : A -> Js host B) :
  kept_after_packaging P ->
  staged 0 2 m ->
  (forall a, run_property P (k a)) ->
  run_property P (bind m k).
Proof.
  intros Hkept Hstaged Hk w. unfold bind.
  destruct (Hstaged w) as (e1 & Ht1 & Hb1).
  destruct (Hkept e1 Hb1) as (Hfail & Hmore).
  destruct (m w) as [[a|e|] w1]; cbn [snd fst] in *.
  - destruct (Hk a w1) as (e2 & Ht2 & H2).
    exists (e1 ++ e2)%list. rewrite Ht2, Ht1, app_assoc. auto.
  - exists e1. auto.
  - exists e1. auto.
Qed.

(** Lines 195-196: the binding of a published version. *)
Lemma binding_cases config version (w : World (Env host)) :
  let '(outcome, w') :=
    (let* functionName := config_leaf host config "lambda" "functionName" in
     let* distributionId := config_leaf host config "cloudfront" "distributionId" in
     let* cloudfront_region := config_leaf host config "cloudfront" "region" in
     setupCloudFrontTrigger host functionName version distributionId
       cloudfront_region) w in
  exists evs,
    trace w' = (trace w ++ evs)%list
    /\ between 4 4 (map rank evs)
    /\ existsb invalidation_sent evs = false
    /\ map published_version evs = map (fun _ => None) evs
    /\ (forall input,
          In input (writes evs) ->
          exists arn,
            In (Some arn) (map answered_arn evs)
            /\ List.filter origin_request
                 (triggers (UpdateDistribution.DistributionConfig input))
               = [new_association arn version])
    /\ (outcome = Ok tt -> existsb trigger_bound evs = true).
Proof.
  unfold bind.
  destruct (config_leaf host config "lambda" "functionName" w) as [r1 w1] eqn:H1.
  pose proof (config_leaf_world config "lambda" "functionName" w) as Hw1.
  rewrite H1 in Hw1. cbn in Hw1. subst w1.
  assert (Hnone : exists evs : list Event,
    trace w = (trace w ++ evs)%list /\ between 4 4 (map rank evs)
    /\ existsb invalidation_sent evs = false
    /\ map published_version evs = map (fun _ => None) evs
    /\ (forall input, In input (writes evs) ->
        exists arn, In (Some arn) (map answered_arn evs)
          /\ List.filter origin_request
               (triggers (UpdateDistribution.DistributionConfig input))
             = [new_association arn version])).
  { exists []. rewrite app_nil_r. cbn. repeat split; auto. intros ? []. }
  destruct r1 as [functionName|e|];
    [|destruct Hnone as (evs & ? & ? & ? & ? & ?); exists evs;
      repeat split; auto; discriminate ..].
  destruct (config_leaf host config "cloudfront" "distributionId" w)
    as [r2 w2] eqn:H2.
  pose proof (config_leaf_world config "cloudfront" "distributionId" w) as Hw2.
  rewrite H2 in Hw2. cbn in Hw2. subst w2.
  destruct r2 as [distributionId|e|];
    [|destruct Hnone as (evs & ? & ? & ? & ? & ?); exists evs;
      repeat split; auto; discriminate ..].
  destruct (config_leaf host config "cloudfront" "region" w) as [r3 w3] eqn:H3.
  pose proof (config_leaf_world config "cloudfront" "region" w) as Hw3.
  rewrite H3 in Hw3. cbn in Hw3. subst w3.
  destruct r3 as [region|e|];
    [|destruct Hnone as (evs & ? & ? & ? & ? & ?); exists evs;
      repeat split; auto; discriminate ..].
  clear Hnone.
  pose proof (setupCloudFrontTrigger_cases functionName version distributionId
                region w) as Hcases.
  destruct (setupCloudFrontTrigger host functionName version distributionId region w)
    as [outcome w'] eqn:Hrun.
  destruct Hcases as (_ & evs & Ht & Hcases).
  exists evs. split; [exact Ht|].
  destruct (staged_setupCloudFrontTrigger functionName version distributionId
              region w) as (evs' & Ht' & Hb').
  rewrite Hrun in Ht'. cbn [snd] in Ht'. rewrite Ht in Ht'.
  apply app_inv_head in Ht'. subst evs'.
  split; [exact Hb'|].
  split.
  { apply (existsb_rank _ 4 4); [exact Hb'|].
    intros ev Hev. apply invalidation_sent_rank in Hev. lia. }
  split.
  { apply (map_none_rank _ 4 4); [exact Hb'|].
    intros ev Hev. apply published_version_rank in Hev. lia. }
  destruct Hcases as [(Hnone & Hfail & _) | (fetched & dc & behavior & configuration
      & refetched & input' & a & Hevs & Hout & _ & _ & _ & _ & _ & _ & Hwa)].
  - rewrite Hnone. split; [intros ? []|]. intros ->. congruence.
  - subst evs. split.
    + intros input [<- | []].
      exists (FunctionArn configuration).
      split; [cbn; auto|].
      unfold written_associations in Hwa. unfold triggers.
      destruct (DefaultCacheBehavior (UpdateDistribution.DistributionConfig input'))
        as [b|]; [|discriminate].
      cbn in Hwa. rewrite Hwa. cbn [Items mbind option_bind default].
      apply rebuilt_origin.
    + intros ->. destruct a; [discriminate|reflexivity].
Qed.

(** Line 198: the invalidation. *)
Lemma invalidation_cases config (w : World (Env host)) :
  let '(outcome, w') :=
    (let* distributionId := config_leaf host config "cloudfront" "distributionId" in
     let* cloudfront_region := config_leaf host config "cloudfront" "region" in
     invalidateCache host distributionId ["/*"] cloudfront_region) w in
  exists evs,
    trace w' = (trace w ++ evs)%list
    /\ between 5 5 (map rank evs)
    /\ (is_ok outcome = true -> In (Some true) (map invalidation evs)).
Proof.
  unfold bind.
  destruct (config_leaf host config "cloudfront" "distributionId" w)
    as [r1 w1] eqn:H1.
  pose proof (config_leaf_world config "cloudfront" "distributionId" w) as Hw1.
  rewrite H1 in Hw1. cbn in Hw1. subst w1.
  assert (Hnone : exists evs : list Event,
    trace w = (trace w ++ evs)%list /\ between 5 5 (map rank evs)).
  { exists []. rewrite app_nil_r. cbn. auto. }
  destruct r1 as [distributionId|e|];
    [|destruct Hnone as (evs & ? & ?); exists evs;
      repeat split; auto; discriminate ..].
  destruct (config_leaf host config "cloudfront" "region" w) as [r2 w2] eqn:H2.
  pose proof (config_leaf_world config "cloudfront" "region" w) as Hw2.
  rewrite H2 in Hw2. cbn in Hw2. subst w2.
  destruct r2 as [region|e|];
    [|destruct Hnone as (evs & ? & ?); exists evs;
      repeat split; auto; discriminate ..].
  clear Hnone.
  pose proof (invalidateCache_cases distributionId ["/*"] region w) as Hinv.
  destruct (invalidateCache host distributionId ["/*"] region w) as [outcome w'].
  destruct Hinv as (_ & now & a & Ht & Hout).
  eexists. split; [exact Ht|]. split; [cbn; lia|].
  subst outcome. destruct a; [discriminate|]. intros _. cbn. auto.
Qed.

(** Lines 193-198, case by case: the deployment failed; or it published no
    version and the invalidation followed; or it published a version, the
    binding followed, and the invalidation followed a successful binding. *)
Lemma deployment_cases config functionName zipFilePath region
    (w : World (Env host)) :
  let '(outcome, w') :=
    (let* lambdaVersion :=
       deployLambdaFunction host functionName zipFilePath region in
     match lambdaVersion with
     | Some version =>
         let* functionName := config_leaf host config "lambda" "functionName" in
         let* distributionId :=
           config_leaf host config "cloudfront" "distributionId" in
         let* cloudfront_region := config_leaf host config "cloudfront" "region" in
         setupCloudFrontTrigger host functionName version distributionId
           cloudfront_region
     | None => ret tt
     end ;;
     let* distributionId := config_leaf host config "cloudfront" "distributionId" in
     let* cloudfront_region := config_leaf host config "cloudfront" "region" in
     invalidateCache host distributionId ["/*"] cloudfront_region) w in
  exists dep bnd inv,
    trace w' = (trace w ++ dep ++ bnd ++ inv)%list
    /\ between 4 4 (map rank bnd)
    /\ between 5 5 (map rank inv)
    /\ (is_ok outcome = true -> In (Some true) (map invalidation inv))
    /\ ((bnd = [] /\ inv = [] /\ is_ok outcome = false
         /\ writes dep = [] /\ existsb invalidation_sent dep = false)
        \/ exists zipFile published,
             dep = deployment_events functionName zipFilePath region zipFile
                     (inr published)
             /\ match Version published with
                | None => bnd = []
                | Some version =>
                    (forall input,
                       In input (writes bnd) ->
                       exists arn,
                         In (Some arn) (map answered_arn bnd)
                         /\ List.filter origin_request
                              (triggers
                                 (UpdateDistribution.DistributionConfig input))
                            = [new_association arn version])
                    /\ (existsb trigger_bound bnd = true
                        \/ (inv = [] /\ is_ok outcome = false))
                end).
Proof.
  unfold bind at 1.
  pose proof (deployLambdaFunction_cases functionName zipFilePath region w)
    as Hdeploy.
  destruct (deployLambdaFunction host functionName zipFilePath region w)
    as [deployed w1].
  destruct Hdeploy as (_ & Hdeploy).
  destruct deployed as [version|error|]; [| |destruct Hdeploy].
  - destruct Hdeploy as (zipFile & published & Ht1 & ->).
    unfold bind at 1.
    destruct (Version published) as [version|] eqn:Hversion.
    + pose proof (binding_cases config version w1) as Hbinding.
      match type of Hbinding with
      | let '(_, _) := ?m w1 in _ => destruct (m w1) as [bound w2]
      end.
      destruct Hbinding as (bnd & Ht2 & Hb2 & _ & _ & Hwrites & Hbound).
      destruct bound as [[]|error|].
      * pose proof (invalidation_cases config w2) as Hinv.
        match type of Hinv with
        | let '(_, _) := ?m w2 in _ => destruct (m w2) as [outcome w3]
        end.
        destruct Hinv as (inv & Ht3 & Hb3 & Hok).
        exists (deployment_events functionName zipFilePath region zipFile
                  (inr published)), bnd, inv.
        rewrite Ht3, Ht2, Ht1, <- !app_assoc.
        repeat (split; [assumption || reflexivity|]).
        right. exists zipFile, published. split; [reflexivity|].
        rewrite Hversion. auto.
      * exists (deployment_events functionName zipFilePath region zipFile
                  (inr published)), bnd, [].
        rewrite Ht2, Ht1, <- !app_assoc, app_nil_r.
        repeat (split; [assumption || reflexivity || (cbn; lia) || discriminate|]).
        right. exists zipFile, published. split; [reflexivity|].
        rewrite Hversion. auto.
      * exists (deployment_events functionName zipFilePath region zipFile
                  (inr published)), bnd, [].
        rewrite Ht2, Ht1, <- !app_assoc, app_nil_r.
        repeat (split; [assumption || reflexivity || (cbn; lia) || discriminate|]).
        right. exists zipFile, published. split; [reflexivity|].
        rewrite Hversion. auto.
    + cbn [ret].
      pose proof (invalidation_cases config w1) as Hinv.
      match type of Hinv with
      | let '(_, _) := ?m w1 in _ => destruct (m w1) as [outcome w3]
      end.
      destruct Hinv as (inv & Ht3 & Hb3 & Hok).
      exists (deployment_events functionName zipFilePath region zipFile
                (inr published)), [], inv.
      rewrite Ht3, Ht1, <- !app_assoc.
      repeat (split; [assumption || reflexivity || (cbn; lia)|]).
      right. exists zipFile, published. split; [reflexivity|].
      rewrite Hversion. reflexivity.
  - destruct Hdeploy as [Ht | [(zipFile & Ht) | (zipFile & Ht)]];
      eexists _, [], []; rewrite Ht, app_nil_r;
      (split; [reflexivity|]);
      repeat (split; [(cbn; lia) || discriminate|]);
      left; repeat split; reflexivity.
Qed.

Lemma writes_rank lo hi evs :
  between lo hi (map rank evs) -> hi < 4 \/ 4 < lo -> writes evs = [].
Proof.
  intros Hb Hout. unfold writes.
  pose proof (map_none_rank write_of lo hi evs Hb) as Hnone.
  assert (Hmap : map write_of evs = map (fun _ => None) evs).
  { apply Hnone. intros ev Hev. apply write_rank in Hev. lia. }
  clear Hnone Hb. induction evs as [|ev evs IH]; [reflexivity|].
  cbn in Hmap |- *. injection Hmap as -> Hmap. auto.
Qed.

Lemma published_rank lo hi evs x :
  between lo hi (map rank evs) -> hi < 3 \/ 3 < lo ->
  In (Some x) (map published_version evs) -> False.
Proof.
  intros Hb Hout Hin.
  rewrite (map_none_rank published_version lo hi evs Hb) in Hin.
  - apply in_map_iff in Hin. destruct Hin as (? & ? & _). discriminate.
  - intros ev Hev. apply published_version_rank in Hev. lia.
Qed.

Lemma kept_binds_published : kept_after_packaging binds_published.
Proof.
  intros before Hb. split.
  - intros input Hin. rewrite (writes_rank 0 2 before Hb) in Hin by lia.
    destruct Hin.
  - intros evs ok H input Hin. unfold writes in Hin. rewrite omap_app in Hin.
    fold (writes before) in Hin. rewrite (writes_rank 0 2 before Hb) in Hin by lia.
    destruct (H input Hin) as (version & arn & Hpub & Harn & Htr).
    exists version, arn. rewrite !map_app.
    split; [apply in_or_app; right; exact Hpub|].
    split; [apply in_or_app; right; exact Harn|exact Htr].
Qed.

(** An event that is not among the first ones is among the ones that follow. *)
Lemma split_in_suffix (f : Event -> bool) (pre rest earlier later : list Event) ev :
  existsb f pre = false ->
  (pre ++ rest)%list = (earlier ++ ev :: later)%list ->
  f ev = true ->
  exists l, earlier = (pre ++ l)%list /\ rest = (l ++ ev :: later)%list.
Proof.
  intros Hpre Hsplit Hev. apply List.app_eq_app in Hsplit.
  destruct Hsplit as (l & [[Hl Hr] | [Hl Hr]]).
  - destruct l as [|x l]; cbn in Hr.
    + exists []. rewrite app_nil_r in Hl |- *. auto.
    + injection Hr as <- _. rewrite Hl, existsb_app in Hpre. cbn in Hpre.
      rewrite Hev, orb_true_r in Hpre. discriminate.
  - exists l. auto.
Qed.

Lemma kept_deployed_before_invalidation :
  kept_after_packaging deployed_before_invalidation.
Proof.
  intros before Hb.
  assert (Hsent : existsb invalidation_sent before = false).
  { apply (existsb_rank _ 0 2); [exact Hb|].
    intros ev Hev. apply invalidation_sent_rank in Hev. lia. }
  assert (Hpu : existsb published_undefined before = false).
  { apply (existsb_rank _ 0 2); [exact Hb|].
    intros ev Hev. apply published_undefined_rank in Hev. lia. }
  split.
  - split; [discriminate|]. intros earlier ev later Hsplit Hev.
    rewrite Hsplit, existsb_app in Hsent. cbn in Hsent.
    rewrite Hev, orb_true_r in Hsent. discriminate.
  - intros evs ok [Hok Hinv]. split.
    + intros H. rewrite map_app. apply in_or_app. right. auto.
    + intros earlier ev later Hsplit Hev.
      destruct (split_in_suffix _ before evs earlier later ev Hsent Hsplit Hev)
        as (l & -> & ->).
      destruct (Hinv l ev later eq_refl Hev)
        as (Hcode & (version & Hversion) & Hbound).
      rewrite !existsb_app, Hpu, Hcode. cbn [orb].
      split; [apply orb_true_r|].
      split; [|intros Hu; rewrite (Hbound Hu); apply orb_true_r].
      exists version. rewrite map_app. apply in_or_app. right. exact Hversion.
Qed.

Lemma deployment_binds_published config functionName zipFilePath region :
  run_property binds_published
    (let* lambdaVersion :=
       deployLambdaFunction host functionName zipFilePath region in
     match lambdaVersion with
     | Some version =>
         let* functionName := config_leaf host config "lambda" "functionName" in
         let* distributionId :=
           config_leaf host config "cloudfront" "distributionId" in
         let* cloudfront_region := config_leaf host config "cloudfront" "region" in
         setupCloudFrontTrigger host functionName version distributionId
           cloudfront_region
     | None => ret tt
     end ;;
     let* distributionId := config_leaf host config "cloudfront" "distributionId" in
     let* cloudfront_region := config_leaf host config "cloudfront" "region" in
     invalidateCache host distributionId ["/*"] cloudfront_region).
Proof.
  intros w.
  pose proof (deployment_cases config functionName zipFilePath region w) as Hcases.
  match type of Hcases with
  | let '(_, _) := ?m w in _ => destruct (m w) as [outcome w']
  end.
  destruct Hcases as (dep & bnd & inv & Ht & Hbnd & Hinv & _ & Hcases).
  exists (dep ++ bnd ++ inv)%list. split; [exact Ht|].
  intros input Hin. unfold writes in Hin. rewrite !omap_app in Hin.
  fold (writes dep) (writes bnd) (writes inv) in Hin.
  rewrite (writes_rank 5 5 inv Hinv), app_nil_r in Hin by lia.
  destruct Hcases as [(-> & _ & _ & Hdep & _)
                     | (zipFile & published & -> & Hversion)].
  - rewrite Hdep in Hin. destruct Hin.
  - cbn [writes omap deployment_events write_of cmd app] in Hin.
    destruct (Version published) as [version|] eqn:Hv.
    + destruct Hversion as (Hwrites & _).
      destruct (Hwrites input Hin) as (arn & Harn & Htr).
      exists version, arn. rewrite !map_app.
      split; [apply in_or_app; left; cbn; rewrite Hv; auto|].
      split; [|exact Htr].
      apply in_or_app. right. apply in_or_app. left. exact Harn.
    + subst bnd. destruct Hin.
Qed.

Lemma deployment_before_invalidation config functionName zipFilePath region :
  run_property deployed_before_invalidation
    (let* lambdaVersion :=
       deployLambdaFunction host functionName zipFilePath region in
     match lambdaVersion with
     | Some version =>
         let* functionName := config_leaf host config "lambda" "functionName" in
         let* distributionId :=
           config_leaf host config "cloudfront" "distributionId" in
         let* cloudfront_region := config_leaf host config "cloudfront" "region" in
         setupCloudFrontTrigger host functionName version distributionId
           cloudfront_region
     | None => ret tt
     end ;;
     let* distributionId := config_leaf host config "cloudfront" "distributionId" in
     let* cloudfront_region := config_leaf host config "cloudfront" "region" in
     invalidateCache host distributionId ["/*"] cloudfront_region).
Proof.
  intros w.
  pose proof (deployment_cases config functionName zipFilePath region w) as Hcases.
  match type of Hcases with
  | let '(_, _) := ?m w in _ => destruct (m w) as [outcome w']
  end.
  destruct Hcases as (dep & bnd & inv & Ht & Hbnd & Hinv & Hok & Hcases).
  exists (dep ++ bnd ++ inv)%list. split; [exact Ht|]. cbn [fst].
  assert (Hbsent : existsb invalidation_sent bnd = false).
  { apply (existsb_rank _ 4 4); [exact Hbnd|].
    intros ev Hev. apply invalidation_sent_rank in Hev. lia. }
  assert (Hbpu : existsb published_undefined bnd = false).
  { apply (existsb_rank _ 4 4); [exact Hbnd|].
    intros ev Hev. apply published_undefined_rank in Hev. lia. }
  split.
  { intros H. rewrite !map_app. apply in_or_app. right.
    apply in_or_app. right. auto. }
  intros earlier ev later Hsplit Hev. rewrite app_assoc in Hsplit.
  assert (Hpre : existsb invalidation_sent (dep ++ bnd) = false).
  { rewrite existsb_app, Hbsent, orb_false_r.
    destruct Hcases as [(_ & _ & _ & _ & Hdep) | (zipFile & published & -> & _)];
      [exact Hdep|reflexivity]. }
  destruct (split_in_suffix _ (dep ++ bnd)%list inv earlier later ev Hpre Hsplit Hev)
    as (l & -> & Hl).
  destruct Hcases as [(_ & -> & _) | (zipFile & published & -> & Hversion)];
    [destruct l; discriminate|].
  rewrite !existsb_app, Hbpu, orb_false_r.
  split; [reflexivity|].
  split.
  { exists (Version published). rewrite !map_app. apply in_or_app. left.
    apply in_or_app. left. cbn. auto. }
  cbn [existsb deployment_events published_undefined cmd answer orb].
  destruct (Version published) as [version|]; [|discriminate].
  intros _. destruct Hversion as (_ & [Hbound | (-> & _)]).
  - rewrite Hbound. rewrite orb_true_r. reflexivity.
  - destruct l; discriminate.
Qed.

(** The steps up to the packaging, one by one, then the deployment. *)
Ltac up_to_deployment kept deployment :=
  repeat
    (cbv beta zeta;
     lazymatch goal with
     | |- run_property _ (bind (deployLambdaFunction _ _ _ _) _) =>
         apply deployment
     | |- run_property _ (bind _ _) =>
         apply run_property_after;
         [ exact kept
         | first [ apply (staged_weaken 0 0); [solve [one_stage]|lia|lia]
                 | apply (staged_weaken 1 1); [solve [one_stage]|lia|lia]
                 | apply (staged_weaken 2 2); [solve [one_stage]|lia|lia] ]
         | intros ]
     end).

Lemma adapt_run_property P fuel configInput :
  kept_after_packaging P ->
  (forall config functionName zipFilePath region,
     run_property P
       (let* lambdaVersion :=
          deployLambdaFunction host functionName zipFilePath region in
        match lambdaVersion with
        | Some version =>
            let* functionName := config_leaf host config "lambda" "functionName" in
            let* distributionId :=
              config_leaf host config "cloudfront" "distributionId" in
            let* cloudfront_region :=
              config_leaf host config "cloudfront" "region" in
            setupCloudFrontTrigger host functionName version distributionId
              cloudfront_region
        | None => ret tt
        end ;;
        let* distributionId :=
          config_leaf host config "cloudfront" "distributionId" in
        let* cloudfront_region := config_leaf host config "cloudfront" "region" in
        invalidateCache host distributionId ["/*"] cloudfront_region)) ->
  run_property P (adapt host fuel configInput).
Proof.
  intros Hkept Hdeployment. unfold adapt.
  up_to_deployment Hkept Hdeployment.
Qed.

Lemma run_property_new_events {A} P (m : Js host A) (w w' : World (Env host)) outcome :
  run_property P m -> m w = (outcome, w') -> P (new_events w w') (is_ok outcome).
Proof.
  intros H Hrun. destruct (H w) as (evs & Ht & HP).
  rewrite Hrun in Ht, HP. cbn [fst snd] in Ht, HP.
  unfold new_events. rewrite Ht, drop_app_length. exact HP.
Qed.

(** X6. A run of [adapt] that ends normally has updated the function code,
    published a version, had its invalidation accepted, and, unless the
    published version was undefined, had its write to the distribution
    accepted. *)
Theorem adapt_success_means_deployed fuel configInput (w w' : World (Env host)) :
  adapt host fuel configInput w = (Ok tt, w') ->
  existsb code_updated (new_events w w') = true
  /\ (exists version, In (Some version) (map published_version (new_events w w')))
  /\ In (Some true) (map invalidation (new_events w w'))
  /\ (existsb published_undefined (new_events w w') = false ->
      existsb trigger_bound (new_events w w') = true).
Proof.
  intros Hrun.
  destruct (run_property_new_events deployed_before_invalidation _ w w' (Ok tt)
              (adapt_run_property _ fuel configInput
                 kept_deployed_before_invalidation deployment_before_invalidation)
              Hrun) as (Hok & Hsent).
  specialize (Hok eq_refl).
  pose proof Hok as Hin. apply in_map_iff in Hin.
  destruct Hin as (ev & Hev & Hin).
  apply in_split in Hin. destruct Hin as (earlier & later & Hsplit).
  assert (Hs : invalidation_sent ev = true).
  { unfold invalidation_sent. rewrite Hev. reflexivity. }
  destruct (Hsent earlier ev later Hsplit Hs)
    as (Hcode & (version & Hversion) & Hbound).
  split; [rewrite Hsplit, existsb_app, Hcode; reflexivity|].
  split.
  { exists version. rewrite Hsplit, map_app. apply in_or_app. left.
    exact Hversion. }
  split; [exact Hok|].
  rewrite Hsplit, !existsb_app. intros Hu.
  apply orb_false_iff in Hu. destruct Hu as [Hu _].
  rewrite (Hbound Hu). reflexivity.
Qed.

(** X7. [adapt] sends the invalidation only after the function code was
    updated and a version published, and, unless that version was undefined,
    after the write to the distribution was accepted: these calls are among
    the calls of the run that precede the invalidation. *)
Theorem adapt_invalidates_after_deployment fuel configInput
    (w w' : World (Env host)) outcome earlier ev later :
  adapt host fuel configInput w = (outcome, w') ->
  new_events w w' = (earlier ++ ev :: later)%list ->
  invalidation_sent ev = true ->
  existsb code_updated earlier = true
  /\ (exists version, In (Some version) (map published_version earlier))
  /\ (existsb published_undefined earlier = false ->
      existsb trigger_bound earlier = true).
Proof.
  intros Hrun Hsplit Hsent.
  destruct (run_property_new_events deployed_before_invalidation _ w w' outcome
              (adapt_run_property _ fuel configInput
                 kept_deployed_before_invalidation deployment_before_invalidation)
              Hrun) as (_ & H).
  exact (H earlier ev later Hsplit Hsent).
Qed.

(** ** Where the calls go *)

Lemma addresses_silent {A} h config (m : Js host A) :
  (forall w, trace (snd (m w)) = trace w /\ js_heap (snd (m w)) = js_heap w) ->
  addresses h config m.
Proof.
  intros H w Hw. exists []. destruct (H w) as (Ht & Hh).
  rewrite app_nil_r, Hh. auto.
Qed.

Lemma addresses_ret {A} h config (a : A) : addresses (host := host) h config (ret a).
Proof. apply addresses_silent. intros w. split; reflexivity. Qed.

Lemma addresses_throw {A} h config e :
  addresses (host := host) (A := A) h config (throw e).
Proof. apply addresses_silent. intros w. split; reflexivity. Qed.

Lemma addresses_stuck {A} h config : addresses (host := host) (A := A) h config stuck.
Proof. apply addresses_silent. intros w. split; reflexivity. Qed.

Lemma addresses_log h config text : addresses h config (log host text).
Proof. apply addresses_silent. intros w. split; reflexivity. Qed.

Lemma addresses_log_error h config text e :
  addresses h config (log_error host text e).
Proof. apply addresses_silent. intros w. split; reflexivity. Qed.

Lemma addresses_perform h config c :
  addressed h config c -> addresses h config (perform host c).
Proof.
  intros Hc w Hw. unfold perform. destruct (handle host c (outside w)) as [a e].
  exists [ {| cmd := c; answer := a |} ]. cbn. repeat split; auto.
Qed.

Lemma addresses_bind {A B} h config (m : Js host A) (k : A -> Js host B) :
  addresses h config m -> (forall a, addresses h config (k a)) ->
  addresses h config (bind m k).
Proof.
  intros Hm Hk w Hw. unfold bind.
  destruct (Hm w Hw) as (e1 & Ht1 & Hh1 & Ha1).
  destruct (m w) as [[a|e|] w1]; cbn [snd] in *; try solve [exists e1; auto].
  destruct (Hk a w1 Hh1) as (e2 & Ht2 & Hh2 & Ha2).
  exists (e1 ++ e2)%list. rewrite Ht2, Ht1, app_assoc.
  repeat split; auto. apply Forall_app. auto.
Qed.

Lemma addresses_try_catch {A} h config (m : Js host A) (handler : exn -> Js host A) :
  addresses h config m -> (forall e, addresses h config (handler e)) ->
  addresses h config (try_catch m handler).
Proof.
  intros Hm Hk w Hw. unfold try_catch.
  destruct (Hm w Hw) as (e1 & Ht1 & Hh1 & Ha1).
  destruct (m w) as [[a|e|] w1]; cbn [snd] in *; try solve [exists e1; auto].
  destruct (Hk e w1 Hh1) as (e2 & Ht2 & Hh2 & Ha2).
  exists (e1 ++ e2)%list. rewrite Ht2, Ht1, app_assoc.
  repeat split; auto. apply Forall_app. auto.
Qed.

Lemma addresses_await {A} h config (p : Js host (exn + A)) :
  addresses h config p -> addresses h config (await host p).
Proof.
  intros Hp. unfold await. apply addresses_bind; [exact Hp|].
  intros [e|a]; [apply addresses_throw|apply addresses_ret].
Qed.

Lemma addresses_forEach {A} h config (l : list A) (body : A -> Js host unit) :
  Forall (fun x => addresses h config (body x)) l ->
  addresses h config (forEach l body).
Proof.
  induction 1 as [|x l Hx _ IH]; [apply addresses_ret|].
  change (forEach (x :: l) body) with (body x ;; forEach l body).
  apply addresses_bind; auto.
Qed.

Lemma config_leaf_ok config section key (w w' : World (Env host)) x :
  config_leaf host config section key w = (Ok x, w') ->
  leaf (js_heap w) config section key = Some x.
Proof.
  unfold config_leaf, leaf, on_heap. unfold bind at 1. intros H.
  destruct ((let* s := member config section in member s key) (js_heap w))
    as [[v|e|] h1]; cbn in H; try discriminate.
  destruct v; cbn in H; try discriminate. unfold ret in H. congruence.
Qed.

(** What [config_leaf] returns is what the configuration holds. *)
Lemma addresses_leaf {B} h config section key (k : string -> Js host B) :
  (forall x, leaf h config section key = Some x -> addresses h config (k x)) ->
  addresses h config (bind (config_leaf host config section key) k).
Proof.
  intros Hk w Hw. unfold bind.
  pose proof (config_leaf_world config section key w) as Hworld.
  destruct (config_leaf host config section key w) as [[x|e|] w1] eqn:Hleaf;
    cbn [snd] in *; subst w1;
    try solve [exists []; rewrite app_nil_r; auto].
  apply config_leaf_ok in Hleaf. rewrite Hw in Hleaf.
  exact (Hk x Hleaf w Hw).
Qed.

Ltac addressing :=
  repeat
    (cbv beta zeta;
     lazymatch goal with
     | |- addresses _ _ (ret _) => apply addresses_ret
     | |- addresses _ _ (throw _) => apply addresses_throw
     | |- addresses _ _ stuck => apply addresses_stuck
     | |- addresses _ _ (log _ _) => apply addresses_log
     | |- addresses _ _ (log_error _ _ _) => apply addresses_log_error
     | |- addresses _ _ (perform _ ?c) =>
         apply (addresses_perform _ _ c); cbn [addressed UpdateDistribution.Id];
         auto
     | |- addresses _ _ (await _ _) => apply addresses_await
     | |- addresses _ _ (bind (config_leaf _ _ _ _) _) =>
         apply addresses_leaf; intros
     | |- addresses _ _ (bind _ _) => apply addresses_bind; [ | intros ]
     | |- addresses _ _ (try_catch _ _) => apply addresses_try_catch; [ | intros ]
     | |- addresses _ _ (match ?x with _ => _ end) => destruct x
     end).

Lemma addresses_uploadToS3 h config bucketName region fuel :
  leaf h config "s3" "bucketName" = Some bucketName ->
  leaf h config "s3" "region" = Some region ->
  forall directoryPath s3Prefix,
    addresses h config
      (uploadToS3 host fuel directoryPath bucketName s3Prefix region).
Proof.
  intros Hb Hr.
  induction fuel as [|fuel IH]; intros directoryPath s3Prefix; cbn [uploadToS3].
  - addressing.
  - addressing. apply addresses_forEach, Forall_forall. intros item _.
    addressing. apply IH.
Qed.

Lemma addresses_zipDirectory h config source out :
  addresses h config (zipDirectory host source out).
Proof. unfold zipDirectory. addressing. Qed.

Lemma addresses_bundleApp h config : addresses h config (bundleApp host).
Proof. unfold bundleApp. addressing. Qed.

Lemma addresses_deployLambdaFunction h config functionName zipFilePath region :
  leaf h config "lambda" "functionName" = Some functionName ->
  leaf h config "lambda" "region" = Some region ->
  addresses h config (deployLambdaFunction host functionName zipFilePath region).
Proof. intros Hf Hr. unfold deployLambdaFunction. addressing. Qed.

Lemma addresses_setupCloudFrontTrigger h config functionName functionVersion
    distributionId region :
  leaf h config "lambda" "functionName" = Some functionName ->
  leaf h config "cloudfront" "distributionId" = Some distributionId ->
  leaf h config "cloudfront" "region" = Some region ->
  addresses h config
    (setupCloudFrontTrigger host functionName functionVersion distributionId region).
Proof. intros Hf Hd Hr. unfold setupCloudFrontTrigger. addressing. Qed.

Lemma addresses_invalidateCache h config distributionId region :
  leaf h config "cloudfront" "distributionId" = Some distributionId ->
  leaf h config "cloudfront" "region" = Some region ->
  addresses h config (invalidateCache host distributionId ["/*"] region).
Proof. intros Hd Hr. unfold invalidateCache. addressing. Qed.

Ltac addressing_stages :=
  repeat
    (addressing;
     lazymatch goal with
     | |- addresses _ _ (uploadToS3 _ _ _ _ _ _) =>
         apply addresses_uploadToS3; assumption
     | |- addresses _ _ (zipDirectory _ _ _) => apply addresses_zipDirectory
     | |- addresses _ _ (bundleApp _) => apply addresses_bundleApp
     | |- addresses _ _ (deployLambdaFunction _ _ _ _) =>
         apply addresses_deployLambdaFunction; assumption
     | |- addresses _ _ (setupCloudFrontTrigger _ _ _ _ _) =>
         apply addresses_setupCloudFrontTrigger; assumption
     | |- addresses _ _ (invalidateCache _ _ _ _) =>
         apply addresses_invalidateCache; assumption
     end).

(** The calls of a run of [adapt] are addressed as the merged configuration
    says. *)
Lemma adapt_addressed fuel configInput (w : World (Env host)) :
  let w' := snd (adapt host fuel configInput w) in
  Forall (fun ev => addressed (js_heap w') defaultConfig (cmd ev)) (new_events w w').
Proof.
  cbv zeta.
  destruct (adapt host fuel configInput w) as [outcome w'] eqn:Hrun. cbn [snd].
  unfold new_events.
  unfold adapt in Hrun. cbv zeta in Hrun.
  unfold bind at 1 in Hrun. cbn [log] in Hrun.
  unfold bind at 1 in Hrun. unfold on_heap at 1 in Hrun. cbn [js_heap] in Hrun.
  pose proof (deepMerge_returns_target fuel defaultConfig configInput (js_heap w))
    as Htarget.
  destruct (deepMerge fuel defaultConfig configInput (js_heap w))
    as [[config|e|] h1]; cbv beta iota in Hrun.
  - subst config.
    match type of Hrun with
    | ?pipeline ?w1 = _ =>
        assert (Haddr : addresses h1 defaultConfig pipeline);
        [ addressing_stages
        | destruct (Haddr w1 eq_refl) as (evs & Ht & Hh & Hall) ]
    end.
    rewrite Hrun in Ht, Hh. cbn [snd trace] in Ht, Hh.
    rewrite Ht, drop_app_length, Hh. exact Hall.
  - injection Hrun as <- <-. cbn [trace]. rewrite drop_all. constructor.
  - injection Hrun as <- <-. cbn [trace]. rewrite drop_all. constructor.
Qed.

(** X8. Every call that a run of [adapt] makes to S3, Lambda or CloudFront
    is addressed as the merged configuration says: the uploads go to
    [config.s3.bucketName] in [config.s3.region], the code update and the
    publication to [config.lambda.functionName] in [config.lambda.region],
    the binding and the invalidation to [config.cloudfront.distributionId]
    in [config.cloudfront.region], and the binder asks Lambda for the
    function in [config.cloudfront.region]; the only invalidated path is
    ["/*"]. *)
Theorem adapt_calls_follow_configuration fuel configInput (w : World (Env host)) :
  let w' := snd (adapt host fuel configInput w) in
  Forall (fun ev => addressed (js_heap w') defaultConfig (cmd ev)) (new_events w w').
Proof. exact (adapt_addressed fuel configInput w). Qed.

(** ** The version and the ARN of a binding *)

Lemma published_version_event ev v :
  published_version ev = Some v ->
  exists region functionName published,
    ev = {| cmd := LambdaSend region (PublishVersionCommand functionName);
            answer := inr published |}
    /\ Version published = v.
Proof.
  destruct ev as [c a]. unfold published_version. cbn.
  destruct c as [? []|? []|? []| | | | | | | | | | | | | | | | |]; cbn in *;
    try discriminate.
  destruct a as [e|published]; [discriminate|].
  intros H. injection H as <-. eauto.
Qed.

Lemma answered_arn_event ev arn :
  answered_arn ev = Some arn ->
  exists region functionName configuration,
    ev = {| cmd := LambdaSend region (GetFunctionConfigurationCommand functionName);
            answer := inr configuration |}
    /\ FunctionArn configuration = arn.
Proof.
  destruct ev as [c a]. unfold answered_arn. cbn.
  destruct c as [? []|? []|? []| | | | | | | | | | | | | | | | |]; cbn in *;
    try discriminate.
  destruct a as [e|configuration]; [discriminate|].
  intros H. injection H as <-. eauto.
Qed.

(** X5. In every run of [adapt], a configuration written to the distribution
    binds origin-request to a version that this run published for a
    function, under the ARN that Lambda answered for that same function in
    this run: its only origin-request entry is that ARN followed by [":"]
    and that version. *)
Theorem adapt_binds_published_version fuel configInput (w w' : World (Env host))
    outcome input :
  adapt host fuel configInput w = (outcome, w') ->
  In input (writes (new_events w w')) ->
  exists functionName region region' published configuration version,
    In {| cmd := LambdaSend region (PublishVersionCommand functionName);
          answer := inr published |} (new_events w w')
    /\ Version published = Some version
    /\ In {| cmd := LambdaSend region'
                      (GetFunctionConfigurationCommand functionName);
             answer := inr configuration |} (new_events w w')
    /\ List.filter origin_request
         (triggers (UpdateDistribution.DistributionConfig input))
       = [ {| EventType := "origin-request";
              LambdaFunctionARN :=
                template (FunctionArn configuration) ++ ":" ++ version;
              IncludeBody := None |} ].
Proof.
  intros Hrun Hin.
  destruct (run_property_new_events binds_published _ w w' outcome
              (adapt_run_property _ fuel configInput kept_binds_published
                 deployment_binds_published)
              Hrun input Hin) as (version & arn & Hpub & Harn & Htr).
  apply in_map_iff in Hpub. destruct Hpub as (ev1 & Hev1 & Hin1).
  apply published_version_event in Hev1.
  destruct Hev1 as (region & functionName & published & -> & Hversion).
  apply in_map_iff in Harn. destruct Harn as (ev2 & Hev2 & Hin2).
  apply answered_arn_event in Hev2.
  destruct Hev2 as (region' & functionName' & configuration & -> & <-).
  pose proof (adapt_addressed fuel configInput w) as Haddr.
  rewrite Hrun in Haddr. cbn [snd] in Haddr.
  rewrite List.Forall_forall in Haddr.
  destruct (Haddr _ Hin1) as [Hname _].
  destruct (Haddr _ Hin2) as [Hname' _].
  cbn in Hname, Hname'.
  assert (functionName' = functionName) as -> by congruence.
  exists functionName, region, region', published, configuration, version.
  auto.
Qed.


(** ** What the merge changes on the heap *)

Lemma stable_refl h target : stable h target h.
Proof. split; auto. Qed.

Lemma stable_trans h1 h2 h3 target :
  stable h1 target h2 -> stable h2 target h3 -> stable h1 target h3.
Proof.
  intros [Hl1 H1] [Hl2 H2]. split; [lia|].
  intros l Hl Ht. rewrite H2, H1; auto. lia.
Qed.

Lemma get_heap v key (h : heap) : snd (get v key h) = h.
Proof. destruct v; cbn; try reflexivity. destruct (h !! l); reflexivity. Qed.

Lemma Object_keys_heap v (h : heap) : snd (Object_keys v h) = h.
Proof. destruct v; cbn; try reflexivity. destruct (h !! l); reflexivity. Qed.

Lemma set_stable target key x (h : heap) : stable h target (snd (set target key x h)).
Proof.
  destruct target; cbn [set snd]; try apply stable_refl.
  destruct (h !! l) eqn:Hl; cbn [snd]; [|apply stable_refl].
  unfold heap in *.
  split; [rewrite length_insert; lia|].
  intros l' _ Hne. apply list_lookup_insert_ne. congruence.
Qed.

Lemma forEach_stable {A} (h0 : heap) target (l : list A) (body : A -> M heap unit) :
  (forall x h, stable h0 target h -> stable h0 target (snd (body x h))) ->
  forall h, stable h0 target h -> stable h0 target (snd (forEach l body h)).
Proof.
  intros Hbody. induction l as [|x l IH]; intros h Hh; [exact Hh|].
  change (forEach (x :: l) body) with (body x ;; forEach l body).
  unfold bind. specialize (Hbody x h Hh).
  destruct (body x h) as [[[]|e|] h1]; cbn [snd] in *; auto.
Qed.

Lemma deepMerge_stable fuel :
  forall target source h, stable h target (snd (deepMerge fuel target source h)).
Proof.
  induction fuel as [|fuel IH]; intros target source h; [apply stable_refl|].
  cbn [deepMerge].
  destruct (negb (isObject target) || negb (isObject source));
    [apply stable_refl|].
  unfold bind at 1.
  pose proof (Object_keys_heap source h) as Hkeys.
  destruct (Object_keys source h) as [[keys|e|] h1]; cbn [snd] in *; subst h1;
    try apply stable_refl.
  match goal with
  | |- context [forEach keys ?body] =>
      assert (Hret : snd ((forEach keys body ;; ret target) h)
                     = snd (forEach keys body h));
      [ unfold bind at 1; destruct (forEach keys body h) as [[[]|e|] h2];
        reflexivity
      | rewrite Hret; clear Hret; apply forEach_stable; [|apply stable_refl] ]
  end.
  intros key h1 Hh1.
  unfold bind at 1.
  pose proof (get_heap target key h1) as Hg1.
  destruct (get target key h1) as [[targetValue|e'|] h1']; cbn [snd] in *;
    subst h1'; try exact Hh1.
  unfold bind at 1.
  pose proof (get_heap source key h1) as Hg2.
  destruct (get source key h1) as [[sourceValue|e'|] h1']; cbn [snd] in *;
    subst h1'; try exact Hh1.
  destruct (isObject targetValue && isObject sourceValue);
    [|exact (stable_trans _ _ _ _ Hh1 (set_stable target key _ h1))].
  unfold bind at 1.
  assert (Hcopy :
      (fst (Object_assign_empty targetValue h1) = Ok (VObject (length h1))
       /\ exists o, snd (Object_assign_empty targetValue h1) = (h1 ++ [o])%list)
      \/ (snd (Object_assign_empty targetValue h1) = h1
          /\ is_ok (fst (Object_assign_empty targetValue h1)) = false)).
  { destruct targetValue; cbn; auto. destruct (h1 !! l); cbn; eauto. }
  destruct (Object_assign_empty targetValue h1) as [copied h2].
  cbn [fst snd] in Hcopy.
  destruct Hcopy as [(-> & o & ->) | (-> & Hfail)];
    [ | destruct copied; try discriminate; exact Hh1 ].
  unfold bind at 1.
  pose proof (IH (VObject (length h1)) sourceValue (h1 ++ [o])%list) as Hrec.
  destruct (deepMerge fuel (VObject (length h1)) sourceValue (h1 ++ [o])%list)
    as [[merged|e'|] h3]; cbn [snd] in *.
  all: assert (Hh3 : stable h target h3);
    [ destruct Hh1 as [Hlen1 Hsame1]; destruct Hrec as [Hlen3 Hsame3];
      unfold heap in *;
      rewrite length_app in Hlen3, Hsame3; cbn in Hlen3, Hsame3;
      split; [lia|];
      intros l Hl Hne; rewrite Hsame3;
      [ rewrite lookup_app_l by lia; auto
      | lia
      | intros Heq; injection Heq; lia ]
    | ].
  all: try exact Hh3.
  exact (stable_trans _ _ _ _ Hh3 (set_stable target key _ h3)).
Qed.

(** X9. [deepMerge] writes to its target object and to objects it creates,
    and to nothing else: any other object of the heap, the source and the
    nested objects of the target among them, is as it was, whatever the
    outcome. *)
Theorem deepMerge_writes_only_target fuel target source (h : heap) l :
  l < length h ->
  target <> VObject l ->
  let '(_, h') := deepMerge fuel target source h in
  length h <= length h' /\ h' !! l = h !! l.
Proof.
  intros Hl Hne.
  pose proof (deepMerge_stable fuel target source h) as [Hlen Hsame].
  destruct (deepMerge fuel target source h) as [outcome h']. cbn [snd] in *.
  auto.
Qed.

(** ** What the merge leaves under each key *)

Lemma assoc_assign_eq key v o : assoc key (assign key v o) = Some v.
Proof.
  induction o as [|[k w] o IH]; cbn.
  - rewrite String.eqb_refl. reflexivity.
  - destruct (String.eqb_spec k key) as [->|Hne]; cbn.
    + rewrite String.eqb_refl. reflexivity.
    + destruct (String.eqb_spec k key); [contradiction|exact IH].
Qed.

Lemma assoc_assign_ne key key' v o :
  key' <> key -> assoc key' (assign key v o) = assoc key' o.
Proof.
  intros Hne. induction o as [|[k w] o IH]; cbn.
  - destruct (String.eqb_spec key key'); [congruence|reflexivity].
  - destruct (String.eqb_spec k key) as [->|Hk]; cbn.
    + destruct (String.eqb_spec key key'); [congruence|reflexivity].
    + destruct (String.eqb_spec k key'); [reflexivity|exact IH].
Qed.

Lemma assoc_keys key o : assoc key o = None <-> ~ In key (map fst o).
Proof.
  induction o as [|[k w] o IH]; cbn; [tauto|].
  destruct (String.eqb_spec k key) as [->|Hk].
  - split; [discriminate|]. intros H. exfalso. auto.
  - rewrite IH. tauto.
Qed.

Lemma bind_ok {S A B} (m : M S A) (k : A -> M S B) s b s' :
  bind m k s = (Ok b, s') ->
  exists a s1, m s = (Ok a, s1) /\ k a s1 = (Ok b, s').
Proof.
  unfold bind. destruct (m s) as [[a|e|] s1]; try discriminate. eauto.
Qed.

Lemma get_object l key (h : heap) o :
  h !! l = Some o ->
  get (VObject l) key h = (Ok (default VUndefined (assoc key o)), h).
Proof. intros H. cbn. rewrite H. reflexivity. Qed.

(** One turn of the loop of lines 223-232. *)
Lemma merge_key fuel (h : heap) t s os key o_i (h_i h1 : heap) :
  t <> s ->
  h_i !! t = Some o_i ->
  h_i !! s = Some os ->
  length h <= length h_i ->
  (let* targetValue := get (VObject t) key in
   let* sourceValue := get (VObject s) key in
   if isObject targetValue && isObject sourceValue then
     let* copy := Object_assign_empty targetValue in
     let* merged := deepMerge fuel copy sourceValue in
     set (VObject t) key merged
   else
     set (VObject t) key (or_else sourceValue targetValue)) h_i
  = (Ok tt, h1) ->
  exists x,
    h1 !! t = Some (assign key x o_i)
    /\ h1 !! s = Some os
    /\ length h <= length h1
    /\ merged_value h (default VUndefined (assoc key o_i))
         (default VUndefined (assoc key os)) (Some x).
Proof.
  intros Hts Ht Hs Hlen Hrun.
  pose proof (lookup_lt_Some _ _ _ Ht) as Htlt.
  pose proof (lookup_lt_Some _ _ _ Hs) as Hslt.
  apply bind_ok in Hrun. destruct Hrun as (targetValue & h2 & Hg1 & Hrun).
  rewrite (get_object _ _ _ _ Ht) in Hg1. injection Hg1 as <- <-.
  apply bind_ok in Hrun. destruct Hrun as (sourceValue & h2 & Hg2 & Hrun).
  rewrite (get_object _ _ _ _ Hs) in Hg2. injection Hg2 as <- <-.
  unfold merged_value.
  destruct (isObject (default VUndefined (assoc key o_i))
            && isObject (default VUndefined (assoc key os))).
  - apply bind_ok in Hrun. destruct Hrun as (copy & h2 & Hcopy & Hrun).
    assert (Hc : copy = VObject (length h_i)
                 /\ exists o, h2 = (h_i ++ [o])%list).
    { destruct (default VUndefined (assoc key o_i)); cbn in Hcopy;
        try discriminate.
      destruct (h_i !! l); [|discriminate].
      injection Hcopy as <- <-. eauto. }
    destruct Hc as (-> & o & ->).
    apply bind_ok in Hrun. destruct Hrun as (merged & h3 & Hrec & Hrun).
    pose proof (deepMerge_returns_target fuel (VObject (length h_i))
                  (default VUndefined (assoc key os)) (h_i ++ [o])%list) as Hsame.
    pose proof (deepMerge_stable fuel (VObject (length h_i))
                  (default VUndefined (assoc key os)) (h_i ++ [o])%list)
      as [Hlen3 Hkeep].
    rewrite Hrec in Hsame, Hlen3, Hkeep. cbn [snd] in Hlen3, Hkeep. subst merged.
    unfold heap in *. rewrite length_app in Hlen3, Hkeep. cbn in Hlen3, Hkeep.
    assert (Ht3 : h3 !! t = Some o_i).
    { rewrite Hkeep; [rewrite lookup_app_l by lia; exact Ht|lia|].
      intros Heq. injection Heq. lia. }
    assert (Hs3 : h3 !! s = Some os).
    { rewrite Hkeep; [rewrite lookup_app_l by lia; exact Hs|lia|].
      intros Heq. injection Heq. lia. }
    cbn [set] in Hrun. unfold heap in *. rewrite Ht3 in Hrun.
    injection Hrun as <-.
    exists (VObject (length h_i)).
    rewrite list_lookup_insert_eq by lia.
    rewrite list_lookup_insert_ne by exact Hts.
    rewrite length_insert.
    repeat split; auto; [lia|]. exists (length h_i). auto.
  - cbn [set] in Hrun. unfold heap in *. rewrite Ht in Hrun.
    injection Hrun as <-.
    eexists.
    rewrite list_lookup_insert_eq by lia.
    rewrite list_lookup_insert_ne by exact Hts.
    rewrite length_insert. repeat split; auto.
Qed.

Lemma forEach_cons_ok {S A} (x : A) (l : list A) (body : A -> M S unit) s s' :
  forEach (x :: l) body s = (Ok tt, s') ->
  exists s1, body x s = (Ok tt, s1) /\ forEach l body s1 = (Ok tt, s').
Proof.
  change (forEach (x :: l) body) with (body x ;; forEach l body).
  intros H. apply bind_ok in H. destruct H as ([] & s1 & H1 & H2). eauto.
Qed.

Lemma merge_keys fuel (h : heap) t s os :
  t <> s ->
  forall rest o_i (h_i h' : heap),
    NoDup rest ->
    h_i !! t = Some o_i ->
    h_i !! s = Some os ->
    length h <= length h_i ->
    forEach rest (fun key =>
      let* targetValue := get (VObject t) key in
      let* sourceValue := get (VObject s) key in
      if isObject targetValue && isObject sourceValue then
        let* copy := Object_assign_empty targetValue in
        let* merged := deepMerge fuel copy sourceValue in
        set (VObject t) key merged
      else
        set (VObject t) key (or_else sourceValue targetValue)) h_i
    = (Ok tt, h') ->
    exists o',
      h' !! t = Some o'
      /\ forall key,
           (In key rest ->
            merged_value h (default VUndefined (assoc key o_i))
              (default VUndefined (assoc key os)) (assoc key o'))
           /\ (~ In key rest -> assoc key o' = assoc key o_i).
Proof.
  intros Hts rest.
  induction rest as [|x rest IH]; intros o_i h_i h' Hnd Ht Hs Hlen Hrun.
  - cbn in Hrun. injection Hrun as <-. exists o_i. split; [exact Ht|].
    intros key. split; [intros []|reflexivity].
  - apply forEach_cons_ok in Hrun. destruct Hrun as (h1 & Hstep & Hrest).
    apply NoDup_cons in Hnd. destruct Hnd as [Hx Hnd].
    rewrite list_elem_of_In in Hx.
    destruct (merge_key fuel h t s os x o_i h_i h1 Hts Ht Hs Hlen Hstep)
      as (v & Ht1 & Hs1 & Hlen1 & Hv).
    destruct (IH _ _ _ Hnd Ht1 Hs1 Hlen1 Hrest) as (o' & Ht' & Hkeys).
    exists o'. split; [exact Ht'|].
    intros key. destruct (Hkeys key) as [Hin Hout].
    destruct (String.eqb_spec key x) as [->|Hne].
    + split; [|intros H; exfalso; apply H; left; reflexivity].
      intros _. rewrite (Hout Hx), assoc_assign_eq. exact Hv.
    + split.
      * intros [Heq|Hrest']; [congruence|].
        specialize (Hin Hrest'). rewrite assoc_assign_ne in Hin by exact Hne.
        exact Hin.
      * intros Hnot. rewrite Hout, assoc_assign_ne; auto.
        intros H. apply Hnot. right. exact H.
Qed.

Lemma Object_keys_object l (h : heap) o :
  h !! l = Some o -> Object_keys (VObject l) h = (Ok (map fst o), h).
Proof. intros H. cbn. rewrite H. reflexivity. Qed.

(** X10. What a successful [deepMerge] of an object into another leaves in
    the target.  A key that the source does not have keeps its value.  Under
    a key of the source the target holds a newly created object when both
    values were objects, and otherwise the source's value when that is truthy
    and the target's own value when it is not. *)
Theorem deepMerge_key_by_key fuel t s (h h' : heap) ot os v key :
  t <> s ->
  h !! t = Some ot ->
  h !! s = Some os ->
  NoDup (map fst os) ->
  deepMerge fuel (VObject t) (VObject s) h = (Ok v, h') ->
  exists ot',
    h' !! t = Some ot'
    /\ match assoc key os with
       | None => assoc key ot' = assoc key ot
       | Some sourceValue =>
           merged_value h (default VUndefined (assoc key ot)) sourceValue
             (assoc key ot')
       end.
Proof.
  intros Hts Ht Hs Hnd Hrun.
  destruct fuel as [|fuel]; [discriminate|].
  cbn [deepMerge] in Hrun.
  change (negb (isObject (VObject t)) || negb (isObject (VObject s)))
    with false in Hrun. cbv iota in Hrun.
  apply bind_ok in Hrun. destruct Hrun as (keys & h1 & Hkeys & Hrun).
  rewrite (Object_keys_object _ _ _ Hs) in Hkeys. injection Hkeys as <- <-.
  apply bind_ok in Hrun. destruct Hrun as ([] & h2 & Hloop & Hret).
  injection Hret as _ <-.
  destruct (merge_keys fuel h t s os Hts _ ot h h2 Hnd Ht Hs (le_n _) Hloop)
    as (ot' & Ht' & Hall).
  exists ot'. split; [exact Ht'|].
  destruct (Hall key) as [Hin Hout].
  destruct (assoc key os) as [sourceValue|] eqn:Hkey.
  - assert (Hmem : In key (map fst os)).
    { destruct (in_dec string_dec key (map fst os)) as [H|H]; [exact H|].
      apply assoc_keys in H. congruence. }
    exact (Hin Hmem).
  - apply Hout. apply assoc_keys. exact Hkey.
Qed.


(** ** Failures stop the run *)

Lemma stops_at_nil {A} (r : result A) : stops_at [] r.
Proof. intros [|? ?] ev later error H; discriminate. Qed.

Lemma stops_at_harmless {A} evs (r : result A) :
  Forall (fun ev => fatal ev = None) evs -> stops_at evs r.
Proof.
  intros H earlier ev later error -> Hf.
  apply Forall_app in H. destruct H as [_ H].
  inversion H; subst. congruence.
Qed.

Lemma stops_at_one {A} ev (r : result A) :
  (forall error, fatal ev = Some error -> r = Throw error) -> stops_at [ev] r.
Proof.
  intros H earlier ev' later error Hsplit Hf.
  destruct earlier as [|x earlier]; cbn in Hsplit.
  - injection Hsplit as <- <-. auto.
  - injection Hsplit as _ Hsplit. destruct earlier; discriminate.
Qed.

Lemma stops_at_app {A B} evs1 evs2 (r1 : result A) (r2 : result B) :
  stops_at evs1 r1 -> stops_at evs2 r2 -> is_ok r1 = true ->
  stops_at (evs1 ++ evs2) r2.
Proof.
  intros H1 H2 Hok earlier ev later error Hsplit Hf.
  apply List.app_eq_app in Hsplit.
  destruct Hsplit as (l & [[Hl Hr] | [Hl Hr]]).
  - destruct l as [|x l]; cbn in Hr.
    + exact (H2 [] ev later error (eq_sym Hr) Hf).
    + injection Hr as <- ->. rewrite Hl in H1.
      destruct (H1 earlier ev l error eq_refl Hf) as [_ ->]. discriminate.
  - exact (H2 l ev later error Hr Hf).
Qed.

Lemma fail_fast_silent {A} (m : Js host A) :
  (forall w, trace (snd (m w)) = trace w) -> fail_fast m.
Proof.
  intros H w. exists []. rewrite app_nil_r. split; [apply H|apply stops_at_nil].
Qed.

Lemma fail_fast_config_leaf config section key :
  fail_fast (config_leaf host config section key).
Proof.
  apply fail_fast_silent. intros w. rewrite config_leaf_world. reflexivity.
Qed.

Lemma fail_fast_on_heap {A} (m : M heap A) : fail_fast (on_heap host m).
Proof.
  apply fail_fast_silent. intros w. unfold on_heap.
  destruct (m (js_heap w)). reflexivity.
Qed.

Lemma fail_fast_perform c :
  (forall a, fatal {| cmd := c; answer := a |} = None) ->
  fail_fast (perform host c).
Proof.
  intros H w. unfold perform.
  destruct (handle host c (outside w)) as [a e]. cbn [fst snd trace].
  exists [ {| cmd := c; answer := a |} ]. split; [reflexivity|].
  apply stops_at_harmless. constructor; [apply H|constructor].
Qed.

Lemma fail_fast_bind {A B} (m : Js host A) (k : A -> Js host B) :
  fail_fast m -> (forall a, fail_fast (k a)) -> fail_fast (bind m k).
Proof.
  intros Hm Hk w. unfold bind.
  destruct (Hm w) as (e1 & Ht1 & H1).
  destruct (m w) as [[a|e|] w1]; cbn [fst snd] in *.
  - destruct (Hk a w1) as (e2 & Ht2 & H2).
    exists (e1 ++ e2)%list. rewrite Ht2, Ht1, app_assoc.
    split; [reflexivity|]. apply (stops_at_app e1 e2 (Ok a)); auto.
  - exists e1. split; [exact Ht1|].
    intros earlier ev later error Hsplit Hf.
    destruct (H1 earlier ev later error Hsplit Hf) as [-> Heq].
    split; congruence.
  - exists e1. split; [exact Ht1|].
    intros earlier ev later error Hsplit Hf.
    destruct (H1 earlier ev later error Hsplit Hf) as [_ Heq]. discriminate.
Qed.

(** A handler that reports the error and throws it again. *)
Lemma fail_fast_try_catch {A} (m : Js host A) (handler : exn -> Js host A) :
  fail_fast m ->
  (forall e w, fst (handler e w) = Throw e /\ trace (snd (handler e w)) = trace w) ->
  fail_fast (try_catch m handler).
Proof.
  intros Hm Hh w. unfold try_catch.
  destruct (Hm w) as (e1 & Ht1 & H1).
  destruct (m w) as [[a|e|] w1]; cbn [fst snd] in *;
    try solve [exists e1; auto].
  destruct (Hh e w1) as [Hr Ht]. exists e1. rewrite Ht, Hr. auto.
Qed.

(** [await] of one call: the call's error is thrown. *)
Ltac one_call :=
  let w := fresh "w" in
  intros w; destruct w as [? ?o ? ?];
  cbv [await bind perform throw ret js_heap outside trace console fst snd];
  destruct (handle host _ o) as [[?error|?] ?];
  (eexists [ _ ]; split; [reflexivity|]);
  apply stops_at_one; cbv [fatal failure tolerated cmd answer];
  intros; congruence.

Lemma fail_fast_forEach {A} (l : list A) (body : A -> Js host unit) :
  (forall x, fail_fast (body x)) -> fail_fast (forEach l body).
Proof.
  intros H. induction l as [|x l IH]; [apply fail_fast_silent; reflexivity|].
  change (forEach (x :: l) body) with (body x ;; forEach l body).
  apply fail_fast_bind; auto.
Qed.

(** Lines 31-37 of aws.js: the upload of a file, with the handler that only
    reports. *)
Lemma fail_fast_file region Bucket Key Body ContentType itemPath :
  fail_fast
    (try_catch
       (await host (perform host (S3Send region
          (PutObjectCommand Bucket Key Body ContentType))) ;;
        log host ("Successfully uploaded " ++ itemPath ++ " to " ++ Bucket
                  ++ "/" ++ Key))
       (fun error => log_error host ("Failed to upload " ++ itemPath ++ ":") error)).
Proof.
  intros w. destruct w as [h o t c].
  cbv [try_catch bind await perform log log_error throw ret
       js_heap outside trace console fst snd].
  destruct (handle host _ o) as [[error|[]] e];
    (eexists [ _ ]; split; [reflexivity|]);
    apply stops_at_harmless; repeat constructor.
Qed.

Ltac failing_fast :=
  repeat
    (cbv beta zeta;
     lazymatch goal with
     | |- fail_fast (ret _) => apply fail_fast_silent; reflexivity
     | |- fail_fast (throw _) => apply fail_fast_silent; reflexivity
     | |- fail_fast stuck => apply fail_fast_silent; reflexivity
     | |- fail_fast (log _ _) => apply fail_fast_silent; reflexivity
     | |- fail_fast (log_error _ _ _) => apply fail_fast_silent; reflexivity
     | |- fail_fast (on_heap _ _) => apply fail_fast_on_heap
     | |- fail_fast (config_leaf _ _ _ _) => apply fail_fast_config_leaf
     | |- fail_fast (await _ (perform _ _)) => solve [one_call]
     | |- fail_fast (perform _ ?c) =>
         apply (fail_fast_perform c); intros; reflexivity
     | |- fail_fast (bind _ _) => apply fail_fast_bind; [ | intros ]
     | |- fail_fast (try_catch _ _) =>
         apply fail_fast_try_catch; [ | intros; split; reflexivity ]
     | |- fail_fast (match ?x with _ => _ end) => destruct x
     end).

Lemma fail_fast_uploadToS3 fuel bucketName region :
  forall directoryPath s3Prefix,
    fail_fast (uploadToS3 host fuel directoryPath bucketName s3Prefix region).
Proof.
  induction fuel as [|fuel IH]; intros directoryPath s3Prefix; cbn [uploadToS3].
  - failing_fast.
  - failing_fast. apply fail_fast_forEach. intros item.
    apply fail_fast_bind; [solve [one_call]|]. intros stats.
    destruct (isFile stats); [apply fail_fast_file|].
    destruct (isDirectory stats); [apply IH|failing_fast].
Qed.

(** Lines 189-191 of index.ts: the archive, with the handler that only
    reports. *)
Lemma fail_fast_archive source out :
  fail_fast
    (try_catch
       (zipDirectory host source out ;; log host "Directory successfully zipped!")
       (fun error => log_error host "Failed to zip directory:" error)).
Proof.
  intros w. destruct w as [h o t c].
  cbv [zipDirectory try_catch bind await perform log log_error throw ret
       js_heap outside trace console fst snd].
  destruct (handle host _ o) as [[error|[]] e];
    (eexists [ _ ]; split; [reflexivity|]);
    apply stops_at_harmless; repeat constructor.
Qed.

Lemma fail_fast_bundleApp : fail_fast (bundleApp host).
Proof. unfold bundleApp. failing_fast. Qed.

Lemma fail_fast_deployLambdaFunction functionName zipFilePath region :
  fail_fast (deployLambdaFunction host functionName zipFilePath region).
Proof. unfold deployLambdaFunction. failing_fast. Qed.

Lemma fail_fast_setupCloudFrontTrigger functionName functionVersion
    distributionId region :
  fail_fast
    (setupCloudFrontTrigger host functionName functionVersion distributionId region).
Proof. unfold setupCloudFrontTrigger. failing_fast. Qed.

Lemma fail_fast_invalidateCache distributionId paths region :
  fail_fast (invalidateCache host distributionId paths region).
Proof. unfold invalidateCache. failing_fast. Qed.

Ltac failing_fast_stages :=
  repeat
    (failing_fast;
     lazymatch goal with
     | |- fail_fast (uploadToS3 _ _ _ _ _ _) => apply fail_fast_uploadToS3
     | |- fail_fast (bundleApp _) => apply fail_fast_bundleApp
     | |- fail_fast (deployLambdaFunction _ _ _ _) =>
         apply fail_fast_deployLambdaFunction
     | |- fail_fast (setupCloudFrontTrigger _ _ _ _ _) =>
         apply fail_fast_setupCloudFrontTrigger
     | |- fail_fast (invalidateCache _ _ _ _) => apply fail_fast_invalidateCache
     end).

Lemma fail_fast_adapt fuel configInput : fail_fast (adapt host fuel configInput).
Proof.
  unfold adapt.
  repeat
    (cbv beta zeta;
     lazymatch goal with
     | |- fail_fast (bind (try_catch (bind (zipDirectory _ _ _) _) _) _) =>
         apply fail_fast_bind; [apply fail_fast_archive | intros]
     | |- fail_fast (bind _ _) =>
         apply fail_fast_bind; [solve [failing_fast_stages] | intros]
     | |- _ => progress failing_fast_stages
     end).
Qed.

(** X11. [adapt] stops at the first failure that is not the failure of an
    upload or of the archive: a call that failed, other than these, is the
    last call of the run, and the run throws the error that answered it. *)
Theorem adapt_stops_at_first_failure fuel configInput (w w' : World (Env host))
    outcome earlier ev later error :
  adapt host fuel configInput w = (outcome, w') ->
  new_events w w' = (earlier ++ ev :: later)%list ->
  tolerated (cmd ev) = false ->
  failure ev = Some error ->
  later = [] /\ outcome = Throw error.
Proof.
  intros Hrun Hsplit Htol Hfail.
  destruct (fail_fast_adapt fuel configInput w) as (evs & Ht & Hstop).
  rewrite Hrun in Ht, Hstop. cbn [fst snd] in Ht, Hstop.
  unfold new_events in Hsplit. rewrite Ht, drop_app_length in Hsplit.
  apply (Hstop earlier ev later error Hsplit).
  unfold fatal. rewrite Htol. exact Hfail.
Qed.

(** X12. Called with a configuration that is not an object, as in
    [adapter()], [adapt] throws the error of [deepMerge] before it makes any
    call: nothing is cleaned, written or uploaded. *)
Theorem adapt_invalid_configuration fuel configInput (w : World (Env host)) :
  isObject configInput = false ->
  adapt host (S fuel) configInput w
  = (Throw (Error "Invalid arguments: Both target and source must be objects"),
     {| js_heap := js_heap w; outside := outside w; trace := trace w;
        console := (console w ++ [console_log "Building..."])%list |}).
Proof.
  intros Hobj. unfold adapt.
  cbv [bind log on_heap js_heap outside trace console].
  cbn [deepMerge]. rewrite Hobj. reflexivity.
Qed.

(** ** Keys of the uploads *)

Lemma append_assoc (a b c : string) : (a ++ b) ++ c = a ++ (b ++ c).
Proof. induction a as [|x a IH]; cbn; [reflexivity|]. rewrite IH. reflexivity. Qed.

Lemma key_prefix_extends prefix item :
  exists mid, key_prefix (prefix ++ item) = prefix ++ mid.
Proof.
  unfold key_prefix.
  destruct (0 <? String.length (prefix ++ item))%nat eqn:Hlen.
  - exists (item ++ "/"). apply append_assoc.
  - destruct prefix; [exists ""; reflexivity|discriminate].
Qed.

Lemma calls_silent {A} P (m : Js host A) :
  (forall w, trace (snd (m w)) = trace w) -> calls P m.
Proof. intros H w. exists []. rewrite app_nil_r. split; [apply H|constructor]. Qed.

Lemma calls_perform (P : Command -> Prop) c : P c -> calls P (perform host c).
Proof.
  intros H w. unfold perform.
  destruct (handle host c (outside w)) as [a e]. cbn [fst snd trace].
  exists [ {| cmd := c; answer := a |} ]. split; [reflexivity|].
  repeat constructor. exact H.
Qed.

Lemma calls_bind {A B} P (m : Js host A) (k : A -> Js host B) :
  calls P m -> (forall a, calls P (k a)) -> calls P (bind m k).
Proof.
  intros Hm Hk w. unfold bind.
  destruct (Hm w) as (e1 & Ht1 & H1).
  destruct (m w) as [[a|e|] w1]; cbn [fst snd] in *;
    try solve [exists e1; auto].
  destruct (Hk a w1) as (e2 & Ht2 & H2).
  exists (e1 ++ e2)%list. rewrite Ht2, Ht1, app_assoc.
  split; [reflexivity|]. apply Forall_app. auto.
Qed.

Lemma calls_try_catch {A} P (m : Js host A) (handler : exn -> Js host A) :
  calls P m -> (forall e, calls P (handler e)) -> calls P (try_catch m handler).
Proof.
  intros Hm Hh w. unfold try_catch.
  destruct (Hm w) as (e1 & Ht1 & H1).
  destruct (m w) as [[a|e|] w1]; cbn [fst snd] in *;
    try solve [exists e1; auto].
  destruct (Hh e w1) as (e2 & Ht2 & H2).
  exists (e1 ++ e2)%list. rewrite Ht2, Ht1, app_assoc.
  split; [reflexivity|]. apply Forall_app. auto.
Qed.

Lemma calls_await {A} P (p : Js host (exn + A)) : calls P p -> calls P (await host p).
Proof.
  intros H. unfold await. apply calls_bind; [exact H|].
  intros [error|a]; apply calls_silent; reflexivity.
Qed.

Lemma calls_forEach {A} P (l : list A) (body : A -> Js host unit) :
  (forall x, calls P (body x)) -> calls P (forEach l body).
Proof.
  intros H. induction l as [|x l IH]; [apply calls_silent; reflexivity|].
  change (forEach (x :: l) body) with (body x ;; forEach l body).
  apply calls_bind; auto.
Qed.

Lemma calls_weaken {A} (P Q : Command -> Prop) (m : Js host A) :
  (forall c, P c -> Q c) -> calls P m -> calls Q m.
Proof.
  intros HPQ H w. destruct (H w) as (evs & Ht & Hall).
  exists evs. split; [exact Ht|].
  eapply Forall_impl; [exact Hall|]. cbn. auto.
Qed.

Lemma stored_under_extends bucketName region prefix item c :
  stored_under bucketName region (key_prefix (prefix ++ item)) c ->
  stored_under bucketName region prefix c.
Proof.
  destruct (key_prefix_extends prefix item) as (mid & Hmid).
  destruct c as [r [Bucket Key Body ContentType]| | | | | | | | | | | | | | | | | | |];
    cbn; auto.
  intros (Hr & Hb & rest & ->). rewrite Hmid, append_assoc. eauto.
Qed.

Ltac awaited_call :=
  apply calls_await;
  lazymatch goal with
  | |- calls ?P (perform _ ?c) => apply (calls_perform P c)
  end.

Lemma calls_uploadToS3 fuel bucketName region :
  forall directoryPath s3Prefix,
    calls (stored_under bucketName region (key_prefix s3Prefix))
      (uploadToS3 host fuel directoryPath bucketName s3Prefix region).
Proof.
  induction fuel as [|fuel IH]; intros directoryPath s3Prefix; cbn [uploadToS3].
  - apply calls_silent. reflexivity.
  - apply calls_bind; [awaited_call; exact I|].
    intros items. cbv zeta. apply calls_forEach. intros item.
    apply calls_bind; [awaited_call; exact I|].
    intros stats. destruct (isFile stats).
    + apply calls_try_catch.
      * apply calls_bind; [|intros; apply calls_silent; reflexivity].
        awaited_call. cbn. eauto.
      * intros error. apply calls_silent. reflexivity.
    + destruct (isDirectory stats); [|apply calls_silent; reflexivity].
      eapply calls_weaken; [|apply IH].
      intros c. apply stored_under_extends.
Qed.

(** X13. Every object that [uploadToS3] sends goes to the bucket it was
    given, through a client of the region it was given, and under a key that
    begins with the prefix followed by ["/"], or with nothing when the
    prefix is empty; this holds for the files of nested directories too. *)
Theorem uploadToS3_keys_under_prefix fuel directoryPath bucketName s3Prefix region
    (w : World (Env host)) :
  Forall (fun ev => stored_under bucketName region (key_prefix s3Prefix) (cmd ev))
    (new_events w
       (snd (uploadToS3 host fuel directoryPath bucketName s3Prefix region w))).
Proof.
  destruct (calls_uploadToS3 fuel bucketName region directoryPath s3Prefix w)
    as (evs & Ht & Hall).
  unfold new_events. rewrite Ht, drop_app_length. exact Hall.
Qed.

(** ** The bundle *)

(** X14. [bundleApp] removes the build directory, runs esbuild, and copies
    the prerendered pages only when [existsSync] found their directory.  It
    ends normally when these calls succeed, and only then reports
    ["BUILD SUCEEDED!"]; when the removal, esbuild or the copy fails it
    throws that error, makes no further call and prints nothing. *)
Theorem bundleApp_protocol (w : World (Env host)) :
  let '(outcome, w') := bundleApp host w in
  js_heap w' = js_heap w
  /\ match outcome with
     | Ok _ =>
         exists copied,
           trace w'
           = (trace w ++ bundle_events host (inr tt)
              ++ prerendered_events host (option_map inr copied))%list
           /\ console w'
              = (console w
                 ++ match copied with
                    | Some _ => []
                    | None => [console_log "No Prerendered Directory found."]
                    end
                 ++ [console_log "BUILD SUCEEDED!"])%list
     | Throw error =>
         console w' = console w
         /\ (trace w'
             = (trace w ++ [ {| cmd := Rm (path_join host ["build"]);
                                answer := inl error |} ])%list
             \/ trace w' = (trace w ++ bundle_events host (inl error))%list
             \/ trace w'
                = (trace w ++ bundle_events host (inr tt)
                   ++ prerendered_events host (Some (inl error)))%list)
     | Stuck => False
     end.
Proof.
  destruct w as [h o t c].
  cbv [bundleApp bind await perform log throw ret js_heap outside trace console].
  answers; units; try (split; [reflexivity|split; [reflexivity|]]);
    rewrite <- ?app_assoc; cbn [app]; auto.
  match goal with
  | |- context [if ?found then _ else _] => destruct found; cbv beta iota zeta
  end; answers; units; (split; [reflexivity|]);
    rewrite <- ?app_assoc; cbn [app].
  - split; [reflexivity|]. right. right. reflexivity.
  - exists (Some tt). split; reflexivity.
  - exists None. rewrite <- ?app_assoc. split; reflexivity.
Qed.
End Pipeline.

(** ** Runs on the reference host *)

(** Binding version 7 on the reference site. *)
Lemma setupCloudFrontTrigger_one_origin_request_witness :
  let w := Sim.world [] Sim.site in
  let w' := snd (setupCloudFrontTrigger Sim.host "f" "7" "d" "r3" w) in
  exists fetched dc configuration refetched input,
    trace w' = (trace w ++ binding_events "f" "d" "r3"
                             fetched configuration refetched input)%list
    /\ DistributionConfig fetched = Some dc
    /\ List.filter origin_request
         (triggers (UpdateDistribution.DistributionConfig input))
       = [ {| EventType := "origin-request";
              LambdaFunctionARN := template (FunctionArn configuration) ++ ":" ++ "7";
              IncludeBody := None |} ]
    /\ List.filter other_event
         (triggers (UpdateDistribution.DistributionConfig input))
       = List.filter other_event (triggers dc).
Proof.
  cbv zeta.
  apply (setupCloudFrontTrigger_one_origin_request Sim.host "f" "7" "d" "r3").
  vm_compute. reflexivity.
Defined.


(** Binding on a distribution whose configuration is not returned. *)
Lemma setupCloudFrontTrigger_missing_section_witness :
  setupCloudFrontTrigger Sim.host "f" "7" "d" "r3" (Sim.world [] Sim.bare_site)
  = (Throw (Error "Missing DistributionConfig or DefaultCacheBehavior"),
     {| js_heap := [];
        outside := Sim.bare_site;
        trace :=
          [ {| cmd := CloudFrontSend "r3" (GetDistributionConfigCommand "d");
               answer := inr {| DistributionConfig := None; ETag := Some "E1" |} |} ];
        console :=
          [ console_error "Failed to set up CloudFront trigger: "
              (Error "Missing DistributionConfig or DefaultCacheBehavior") ] |}).
Proof.
  apply (setupCloudFrontTrigger_missing_section Sim.host "f" "7" "d" "r3"
           (Sim.world [] Sim.bare_site)
           {| DistributionConfig := None; ETag := Some "E1" |} Sim.bare_site).
  - reflexivity.
  - reflexivity.
Defined.

(** Binding while another client writes: the first fetch answers ETag E1,
    the second E1', and the write carries E1'. *)
Lemma setupCloudFrontTrigger_token_of_second_fetch_witness :
  let w := Sim.world [] Sim.contended_site in
  let w' := snd (setupCloudFrontTrigger Sim.host "f" "7" "d" "r3" w) in
  exists fetched configuration refetched a,
    new_events w w'
    = [ {| cmd := CloudFrontSend "r3" (GetDistributionConfigCommand "d");
           answer := inr fetched |};
        {| cmd := LambdaSend "r3" (GetFunctionConfigurationCommand "f");
           answer := inr configuration |};
        {| cmd := CloudFrontSend "r3" (GetDistributionConfigCommand "d");
           answer := inr refetched |};
        {| cmd := CloudFrontSend "r3"
                    (UpdateDistributionCommand
                       {| UpdateDistribution.Id := "d";
                          UpdateDistribution.DistributionConfig :=
                            UpdateDistribution.DistributionConfig Sim.first_write;
                          UpdateDistribution.IfMatch := Some "E1'" |});
           answer := a |} ]
    /\ Some "E1'" = ETag refetched
    /\ (ETag fetched <> ETag refetched -> Some "E1'" <> ETag fetched).
Proof.
  cbv zeta.
  apply (setupCloudFrontTrigger_token_of_second_fetch Sim.host "f" "7" "d" "r3"
           (Sim.world [] Sim.contended_site) _
           (fst (setupCloudFrontTrigger Sim.host "f" "7" "d" "r3"
                   (Sim.world [] Sim.contended_site)))
           {| UpdateDistribution.Id := "d";
              UpdateDistribution.DistributionConfig :=
                UpdateDistribution.DistributionConfig Sim.first_write;
              UpdateDistribution.IfMatch := Some "E1'" |}).
  - vm_compute. reflexivity.
  - vm_compute. left. reflexivity.
Defined.


(** A run where the function platform publishes without a version. *)
Lemma adapt_undefined_version_skips_binding_witness :
  let w := Sim.world (snd (literal Sim.user_config module_heap)) Sim.unversioned_site in
  let w' := snd (adapt Sim.host 2 (VObject 4) w) in
  existsb binder_call (new_events w w') = false
  /\ exists earlier published now a,
       new_events w w'
       = (earlier
          ++ [ published;
               {| cmd := DateNow; answer := now |};
               {| cmd := CloudFrontSend "r3" (CreateInvalidationCommand "d" ["/*"] now);
                  answer := a |} ])%list
       /\ published_undefined published = true.
Proof.
  cbv zeta.
  apply (adapt_undefined_version_skips_binding Sim.host 2 (VObject 4)
           (Sim.world (snd (literal Sim.user_config module_heap)) Sim.unversioned_site)
           _
           (fst (adapt Sim.host 2 (VObject 4)
                   (Sim.world (snd (literal Sim.user_config module_heap))
                      Sim.unversioned_site)))).
  - vm_compute. reflexivity.
  - vm_compute. reflexivity.
  - vm_compute. reflexivity.
  - vm_compute. reflexivity.
Defined.

(** C5, as stated, fails: on the reference host the uploads are made before
    the archive is created, so the calls are not in the order Packager,
    Asset Publisher, Function Deployer, Edge Trigger Binder, Cache
    Invalidator. *)
Lemma adapt_uploads_before_archive :
  nondecreasing
    (map (fun ev => numbered_position (stage_of (cmd ev)))
       (new_events (loaded Sim.site)
          (snd (run_adapter Sim.host 2 Sim.user_config (loaded Sim.site)))))
  = false
  /\ map (fun ev => stage_of (cmd ev))
       (trace (snd (run_adapter Sim.host 2 Sim.user_config (loaded Sim.site))))
     = [ Prepare; Prepare; Prepare; Prepare; Prepare; Prepare; Prepare; Prepare;
         Prepare; Prepare; Prepare;
         AssetPublisher; AssetPublisher; AssetPublisher; AssetPublisher;
         AssetPublisher; AssetPublisher; AssetPublisher; AssetPublisher;
         AssetPublisher; AssetPublisher; AssetPublisher;
         Packager;
         FunctionDeployer; FunctionDeployer; FunctionDeployer; FunctionDeployer;
         EdgeTriggerBinder; EdgeTriggerBinder; EdgeTriggerBinder; EdgeTriggerBinder;
         CacheInvalidator; CacheInvalidator ].
Proof. split; vm_compute; reflexivity. Qed.

(** C8, as stated, fails: with an empty bucket name in the user's
    configuration the merged bucket name is the baked-in default, which is
    the empty string. *)
Lemma merged_bucket_name_empty :
  let user :=
    {| s3 := {| bucketName := ""; prefix := "p"; s3_region := "r1" |};
       lambda := {| functionName := "f"; lambda_region := "r2" |};
       cloudfront := {| distributionId := "d"; cloudfront_region := "r3" |} |} in
  let '(input, h) := literal user module_heap in
  let '(config, merged) := deepMerge 2 defaultConfig (VObject 4) h in
  input = Ok (VObject 4)
  /\ config = Ok defaultConfig
  /\ leaf merged defaultConfig "s3" "bucketName" = Some "".
Proof. vm_compute. auto. Qed.

(** C6 at the failing input: the archiver fails, the failure is logged, and
    [adapt] goes on to update the function code, publish a version, bind the
    trigger and invalidate the cache, and ends normally. *)
Lemma adapt_deploys_after_failed_archive :
  let run := run_adapter Sim.host 2 Sim.user_config (loaded Sim.unreadable_build) in
  fst run = Ok tt
  /\ In {| cmd := Archive "build" ["lambda.zip"] "build/lambda.zip";
           answer := inl (Failure "Error" "EACCES: permission denied") |}
        (trace (snd run))
  /\ In (console_error "Failed to zip directory:"
           (Failure "Error" "EACCES: permission denied"))
        (console (snd run))
  /\ map cmd (after_archive (trace (snd run)))
     = [ ReadFileSync "build/lambda.zip";
         LambdaSend "r2" (UpdateFunctionCodeCommand "f" []);
         SetTimeout 5000;
         LambdaSend "r2" (PublishVersionCommand "f");
         CloudFrontSend "r3" (GetDistributionConfigCommand "d");
         LambdaSend "r3" (GetFunctionConfigurationCommand "f");
         CloudFrontSend "r3" (GetDistributionConfigCommand "d");
         CloudFrontSend "r3" (UpdateDistributionCommand Sim.first_write);
         DateNow;
         CloudFrontSend "r3"
           (CreateInvalidationCommand "d" ["/*"] "2024-01-01T00:00:00.000Z") ].
Proof.
  cbv zeta. split; [vm_compute; reflexivity|].
  split; [vm_compute; tauto|].
  split; [vm_compute; tauto|].
  vm_compute. reflexivity.
Qed.

(** A rejected upload among four: the walk goes on and the run ends normally. *)
Example uploadToS3_with_rejected_key :
  let run :=
    uploadToS3 Sim.host 2 "out/client" "b" "p" "r1" (Sim.world [] Sim.flaky_site) in
  fst run = Ok tt
  /\ map cmd (trace (snd run))
     = [ ReaddirSync "out/client";
         StatSync "out/client/index.html";
         S3Send "r1" (PutObjectCommand "b" "p/index.html"
                        (createReadStream "out/client/index.html") "text/html");
         StatSync "out/client/_app";
         ReaddirSync "out/client/_app";
         StatSync "out/client/_app/start.js";
         S3Send "r1" (PutObjectCommand "b" "p/_app/start.js"
                        (createReadStream "out/client/_app/start.js")
                        "application/octet-stream");
         StatSync "out/client/_app/app.css";
         S3Send "r1" (PutObjectCommand "b" "p/_app/app.css"
                        (createReadStream "out/client/_app/app.css")
                        "application/octet-stream");
         StatSync "out/client/favicon.png";
         S3Send "r1" (PutObjectCommand "b" "p/favicon.png"
                        (createReadStream "out/client/favicon.png")
                        "application/octet-stream") ]
  /\ console (snd run)
     = [ console_log "Successfully uploaded out/client/index.html to b/p/index.html";
         console_error "Failed to upload out/client/_app/start.js:"
           (Failure "AccessDenied" "p/_app/start.js");
         console_log
           "Successfully uploaded out/client/_app/app.css to b/p/_app/app.css";
         console_log
           "Successfully uploaded out/client/favicon.png to b/p/favicon.png" ].
Proof. cbv zeta. repeat split; vm_compute; reflexivity. Qed.

(** A link to nothing stops the walk: [statSync] throws outside the [try],
    and the file after the link is not uploaded. *)
Example uploadToS3_with_dangling_link :
  let run :=
    uploadToS3 Sim.host 2 "out/client" "b" "p" "r1" (Sim.world [] Sim.dangling_site) in
  fst run = Throw Sim.no_such_file
  /\ trace (snd run)
     = [ {| cmd := ReaddirSync "out/client";
            answer := inr ["index.html"; "latest"; "favicon.png"] |};
         {| cmd := StatSync "out/client/index.html";
            answer := inr {| isFile := true; isDirectory := false |} |};
         {| cmd := S3Send "r1" (PutObjectCommand "b" "p/index.html"
                                  (createReadStream "out/client/index.html")
                                  "text/html");
            answer := inr tt |};
         {| cmd := StatSync "out/client/latest";
            answer := inl Sim.no_such_file |} ]
  /\ console (snd run)
     = [ console_log "Successfully uploaded out/client/index.html to b/p/index.html" ].
Proof. cbv zeta. repeat split; vm_compute; reflexivity. Qed.

(** A directory that cannot be listed stops the walk too: here the walk is
    given a path that is a file. *)
Example uploadToS3_with_unlistable_directory :
  let run :=
    uploadToS3 Sim.host 2 "out/client/index.html" "b" "p" "r1"
      (Sim.world [] Sim.site) in
  fst run = Throw Sim.not_a_directory
  /\ trace (snd run)
     = [ {| cmd := ReaddirSync "out/client/index.html";
            answer := inl Sim.not_a_directory |} ]
  /\ console (snd run) = [].
Proof. cbv zeta. repeat split; vm_compute; reflexivity. Qed.

(** A second adapter call that leaves the bucket name empty gets the bucket
    of the first call, not the baked-in default. *)
Example second_call_inherits_bucket :
  let second :=
    {| s3 := {| bucketName := EmptyString; prefix := "q"; s3_region := "r1" |};
       lambda := {| functionName := "g"; lambda_region := "r2" |};
       cloudfront := {| distributionId := "d2"; cloudfront_region := "r3" |} |} in
  let w1 := snd (run_adapter Sim.host 2 Sim.user_config (loaded Sim.site)) in
  let w2 := snd (run_adapter Sim.host 2 second w1) in
  leaf (js_heap w2) defaultConfig "s3" "bucketName" = Some "b"
  /\ bucketName (s3 (merge_config baked_in second)) = EmptyString.
Proof. cbv zeta. split; vm_compute; reflexivity. Qed.

(** ** More runs on the reference host *)

(** Binding version 7 on the reference site keeps the comment, the viewer
    protocol policy and the viewer-request trigger. *)
Lemma setupCloudFrontTrigger_keeps_other_configuration_witness :
  let w := Sim.world [] Sim.site in
  let w' := snd (setupCloudFrontTrigger Sim.host "f" "7" "d" "r3" w) in
  exists fetched dc behavior items,
    hd_error (new_events w w')
    = Some {| cmd := CloudFrontSend "r3" (GetDistributionConfigCommand "d");
              answer := inr fetched |}
    /\ DistributionConfig fetched = Some dc
    /\ DefaultCacheBehavior dc = Some behavior
    /\ UpdateDistribution.Id Sim.first_write = "d"
    /\ distribution_fields (UpdateDistribution.DistributionConfig Sim.first_write)
       = distribution_fields dc
    /\ behavior_fields
         <$> DefaultCacheBehavior
               (UpdateDistribution.DistributionConfig Sim.first_write)
       = Some (behavior_fields behavior)
    /\ written_associations Sim.first_write
       = Some {| Quantity := Z.of_nat (length items); Items := Some items |}
    /\ List.filter other_event items = List.filter other_event (triggers dc).
Proof.
  cbv zeta.
  apply (setupCloudFrontTrigger_keeps_other_configuration Sim.host "f" "7" "d" "r3"
           (Sim.world [] Sim.site) _
           (fst (setupCloudFrontTrigger Sim.host "f" "7" "d" "r3"
                   (Sim.world [] Sim.site)))
           Sim.first_write).
  - vm_compute. reflexivity.
  - vm_compute. left. reflexivity.
Defined.

(** Binding while another client writes: the write is rejected, and the
    binder throws the rejection after that one write. *)
Lemma setupCloudFrontTrigger_rejected_write_witness :
  let w := Sim.world [] Sim.contended_site in
  let run := setupCloudFrontTrigger Sim.host "f" "7" "d" "r3" w in
  fst run = Throw (Failure "PreconditionFailed" "stale ETag")
  /\ length (writes (new_events w (snd run))) = 1.
Proof.
  cbv zeta.
  apply (setupCloudFrontTrigger_rejected_write Sim.host "f" "7" "d" "r3"
           (Sim.world [] Sim.contended_site)).
  - vm_compute. reflexivity.
  - vm_compute. right. right. right. left. reflexivity.
Defined.

(** A run on the reference site writes the binding of version 7, which it
    published for function f, under the ARN that Lambda answered for f. *)
Lemma adapt_binds_published_version_witness :
  let w := configured Sim.site in
  let w' := snd (adapt Sim.host 2 (VObject 4) w) in
  exists functionName region region' published configuration version,
    In {| cmd := LambdaSend region (PublishVersionCommand functionName);
          answer := inr published |} (new_events w w')
    /\ Version published = Some version
    /\ In {| cmd := LambdaSend region'
                      (GetFunctionConfigurationCommand functionName);
             answer := inr configuration |} (new_events w w')
    /\ List.filter origin_request
         (triggers (UpdateDistribution.DistributionConfig Sim.first_write))
       = [ {| EventType := "origin-request";
              LambdaFunctionARN :=
                template (FunctionArn configuration) ++ ":" ++ version;
              IncludeBody := None |} ].
Proof.
  cbv zeta.
  apply (adapt_binds_published_version Sim.host 2 (VObject 4)
           (configured Sim.site) _
           (fst (adapt Sim.host 2 (VObject 4) (configured Sim.site)))
           Sim.first_write).
  - vm_compute. reflexivity.
  - vm_compute. left. reflexivity.
Defined.

(** The run on the reference site ends normally. *)
Lemma adapt_success_means_deployed_witness :
  let w := configured Sim.site in
  let w' := snd (adapt Sim.host 2 (VObject 4) w) in
  existsb code_updated (new_events w w') = true
  /\ (exists version, In (Some version) (map published_version (new_events w w')))
  /\ In (Some true) (map invalidation (new_events w w'))
  /\ (existsb published_undefined (new_events w w') = false ->
      existsb trigger_bound (new_events w w') = true).
Proof.
  cbv zeta.
  apply (adapt_success_means_deployed Sim.host 2 (VObject 4) (configured Sim.site)).
  vm_compute. reflexivity.
Defined.

(** The run on the reference site: the thirty-two calls before the
    invalidation include the update of the code, the publication of
    version 7 and the accepted write. *)
Lemma adapt_invalidates_after_deployment_witness :
  let w := configured Sim.site in
  let w' := snd (adapt Sim.host 2 (VObject 4) w) in
  let earlier := take 32 (new_events w w') in
  existsb code_updated earlier = true
  /\ (exists version, In (Some version) (map published_version earlier))
  /\ (existsb published_undefined earlier = false ->
      existsb trigger_bound earlier = true).
Proof.
  cbv zeta.
  apply (adapt_invalidates_after_deployment Sim.host 2 (VObject 4)
           (configured Sim.site)
           (snd (adapt Sim.host 2 (VObject 4) (configured Sim.site)))
           (fst (adapt Sim.host 2 (VObject 4) (configured Sim.site)))
           _ invalidation_accepted []).
  - vm_compute. reflexivity.
  - vm_compute. reflexivity.
  - reflexivity.
Defined.

(** Merging the user's configuration into the defaults leaves the [s3]
    section of the defaults, object 1, as it was. *)
Lemma deepMerge_writes_only_target_witness :
  let h := snd (literal Sim.user_config module_heap) in
  let '(_, h') := deepMerge 2 defaultConfig (VObject 4) h in
  length h <= length h' /\ h' !! 1 = h !! 1.
Proof.
  cbv zeta.
  apply (deepMerge_writes_only_target 2 defaultConfig (VObject 4)
           (snd (literal Sim.user_config module_heap)) 1).
  - vm_compute. lia.
  - discriminate.
Defined.

(** Merging the user's configuration into the defaults puts a newly created
    object under [s3]. *)
Lemma deepMerge_key_by_key_witness :
  let h := snd (literal Sim.user_config module_heap) in
  let h' := snd (deepMerge 2 defaultConfig (VObject 4) h) in
  exists ot',
    h' !! 0 = Some ot'
    /\ merged_value h (VObject 1) (VObject 5) (assoc "s3" ot').
Proof.
  cbv zeta.
  apply (deepMerge_key_by_key 2 0 4
           (snd (literal Sim.user_config module_heap)) _
           [("s3", VObject 1); ("lambda", VObject 2); ("cloudfront", VObject 3)]
           [("s3", VObject 5); ("lambda", VObject 6); ("cloudfront", VObject 7)]
           (VObject 0) "s3").
  - lia.
  - reflexivity.
  - reflexivity.
  - cbn. repeat (constructor; [rewrite list_elem_of_In; cbn; intuition discriminate|]).
    constructor.
  - vm_compute. reflexivity.
Defined.

(** A run over an asset directory with a link to nothing: the failed
    [statSync] is the last call, and the run throws its error. *)
Lemma adapt_stops_at_first_failure_witness :
  let w := configured Sim.dangling_site in
  let run := adapt Sim.host 2 (VObject 4) w in
  @nil Event = [] /\ fst run = Throw Sim.no_such_file.
Proof.
  cbv zeta.
  apply (adapt_stops_at_first_failure Sim.host 2 (VObject 4)
           (configured Sim.dangling_site)
           (snd (adapt Sim.host 2 (VObject 4) (configured Sim.dangling_site)))
           _
           (take 14
              (new_events (configured Sim.dangling_site)
                 (snd (adapt Sim.host 2 (VObject 4)
                         (configured Sim.dangling_site)))))
           link_to_nothing).
  - vm_compute. reflexivity.
  - vm_compute. reflexivity.
  - reflexivity.
  - reflexivity.
Defined.

(** [adapter()] without a configuration. *)
Lemma adapt_invalid_configuration_witness :
  adapt Sim.host 1 VUndefined (loaded Sim.site)
  = (Throw (Error "Invalid arguments: Both target and source must be objects"),
     {| js_heap := module_heap; outside := Sim.site; trace := [];
        console := [console_log "Building..."] |}).
Proof.
  apply (adapt_invalid_configuration Sim.host 0 VUndefined (loaded Sim.site)).
  reflexivity.
Defined.
